(** * steam-bot: settlement engine of the trading bot

    A shallow embedding of [Instance.ts] (the deposit and withdrawal
    workflows, the offer-state reconciler, the OPSkins bridge) and of the
    [fail] helper of [utils.ts], with the properties of the design
    document checked against it.

    Conventions of the embedding.
    - The relational store is a record of tables, each a list of rows; an
      SQL statement is a function on tables, and the pg-promise result
      filters ([one], [oneOrNone], [many]) reject on the row counts they
      reject on in the library.
    - Steam and OPSkins are outside the program: every call to them is
      recorded in a trace and answered by an oracle of the environment,
      which sees the trace so far and may therefore answer differently on
      each call.  Theorems quantify over all environments.
    - A computation ends in a value, in a thrown value, or never settles
      (a promise whose executor lost its exception in a callback).
    - Money is in integer cents.  JavaScript evaluates [x * 1.05] and
      [x * 0.65] in binary64, here they are exact rationals.  On integer
      cents below 2^31 the two agree in every comparison and under
      [Math.ceil]: a product that is a whole number of cents is computed
      exactly, any other is at least 0.05 away from a whole number, far
      more than the rounding error. *)

From Stdlib Require Import ZArith QArith Qround String List Lia.
From stdpp Require Import base option list gmap strings pretty.

Open Scope string_scope.
Open Scope list_scope.
Open Scope Z_scope.

(** ** Data model ([interfaces.ts] and the columns named in the SQL) *)

Inductive JsVal : Type :=
| JsError (message : string)      (* an [Error] object *)
| JsString (s : string)
| JsOther (json : string).        (* any other value, by its JSON text *)

Inductive TradeOfferState : Type :=
| Invalid | Active | Accepted | Countered | Expired | Cancelled | Declined
| InvalidItems | CreatedNeedsConfirmation | CanceledBySecondFactor | InEscrow.

#[global] Instance TradeOfferState_eq_dec : EqDecision TradeOfferState.
Proof. solve_decision. Defined.

Definition COMPLETABLE_STATES : list TradeOfferState :=
  [Active; CreatedNeedsConfirmation].

Record Config := {
  opskins_key : option string;
  app_id : Z;
  context_id : Z;
  identity_secret : string
}.

Record User := {
  steam_id : Z;
  trade_link_url : option string;
  balance : Z
}.

(** A row of [trade_deposits] or [trade_withdrawals].  [_bonus] and
    [acknowledged_at] are columns of deposits, [cancelled_at] of
    withdrawals; an unclaimed withdrawal carries merchant 1. *)
Record Trade := {
  trade_id : Z;
  row_app_id : Z;
  user_steam_id : Z;
  _item_names : list string;
  merchant_steam_id : option Z;
  acknowledged_at : option Z;
  offered_at : option Z;
  steam_offer_id : option string;
  completed_at : option Z;
  failed_at : option Z;
  failure_details : option string;
  cancelled_at : option Z;
  _total : Z;
  _bonus : Z
}.

(** A row of [trade_deposit_items] or [trade_withdrawal_items]. *)
Record TradeItem := {
  item_trade_id : Z;
  steam_asset_id : string
}.

Record PriceCacheRow := {
  cache_market_hash_name : string;
  base_price_usd : Q;
  blacklisted : bool
}.

Record InvItem := {
  assetid : string;
  market_hash_name : string
}.

Record UserDetails := {
  probation : bool;
  escrowDays : Z
}.

Record TradeOffer := {
  offer_id : string;
  offer_state : TradeOfferState;
  itemsToReceive : list InvItem;
  itemsToGive : list InvItem
}.

(** An offer under construction: [createOffer] only builds the object, the
    platform learns of it when it is sent. *)
Record Offer := {
  offer_url : string;
  their_items : list InvItem;
  my_items : list InvItem
}.

Record SentOffer := {
  sent_status : string;
  sent_id : string;
  sent_created : Z
}.

Record PriceEntry := {
  price : Z;
  quantity : Z
}.

Record OpskinsSearchResult := {
  sale_id : Z;
  amount : Z;
  market_name : string
}.

Record OpskinsBuyReturn := {
  new_itemid : option Z;
  buy_balance : Z
}.

Record ToListItem := {
  li_appid : Z;
  li_contextid : Z;
  li_assetid : string;
  li_price : Z
}.

Record Db := {
  users : list User;
  trade_deposits : list Trade;
  trade_withdrawals : list Trade;
  trade_deposit_items : list TradeItem;
  trade_withdrawal_items : list TradeItem;
  steam_item_price_cache : list PriceCacheRow
}.

(** ** The outside world *)

Inductive Event : Type :=
| EvGetUserInventoryContents (steamId : Z)
| EvWebLogOn
| EvGetUserDetails (tradeUrl : string)
| EvSendOffer (o : Offer)
| EvAcceptConfirmation (offerId : string)
| EvOpskinsGetBalance
| EvOpskinsSearch (search_item : string)
| EvOpskinsBuyItems (saleid : Z) (total : Z)
| EvOpskinsWithdraw (items : list (option Z))
| EvOpskinsGetInventory (names : list string)
| EvOpskinsGetLowestPrices
| EvOpskinsGetListingLimit
| EvOpskinsListItems (listItems : list ToListItem)
| EvWait (seconds : Z).

Record Env := {
  steamID : option Z;
  clock : list Event -> Z;
  getUserInventoryContents : list Event -> Z -> JsVal + list InvItem;
  getUserDetails : list Event -> string -> JsVal + UserDetails;
  send : list Event -> Offer -> JsVal + SentOffer;
  acceptConfirmationForObject : list Event -> string -> option JsVal;
  opskins_getBalance : list Event -> JsVal + Z;
  opskins_search : list Event -> string -> JsVal + list OpskinsSearchResult;
  opskins_buyItems : list Event -> Z -> Z -> JsVal + (list Z * Z);
  opskins_withdraw : list Event -> list (option Z) -> option bool;
  opskins_scan : list Event -> list string -> option bool;
  opskins_getLowestPrices : list Event -> JsVal + gmap string PriceEntry;
  opskins_getListingLimit : list Event -> option JsVal * Z
}.

(** ** Computations *)

Record St := { db : Db; trace : list Event }.

Inductive Res (A : Type) : Type :=
| Ok (a : A)
| Throw (e : JsVal)
| Pending.
Arguments Ok {A} a.
Arguments Throw {A} e.
Arguments Pending {A}.

Definition M (A : Type) : Type := St -> Res A * St.

Definition ret {A} (a : A) : M A := fun st => (Ok a, st).

Definition bind {A B} (m : M A) (k : A -> M B) : M B :=
  fun st =>
    match m st with
    | (Ok a, st') => k a st'
    | (Throw e, st') => (Throw e, st')
    | (Pending, st') => (Pending, st')
    end.

Definition throw {A} (e : JsVal) : M A := fun st => (Throw e, st).

(** [try { m } catch (e) { h e }] *)
Definition try_catch {A} (m : M A) (h : JsVal -> M A) : M A :=
  fun st =>
    match m st with
    | (Throw e, st') => h e st'
    | r => r
    end.

(** A call that is not awaited: its effects happen, its outcome is lost. *)
Definition detached {A} (m : M A) : M unit :=
  fun st => (Ok tt, snd (m st)).

(** [new Promise(resolve => api(async (...) => { m }))]: an exception inside
    the callback is lost and the promise never settles. *)
Definition in_callback {A} (m : M A) : M A :=
  fun st =>
    match m st with
    | (Throw _, st') => (Pending, st')
    | r => r
    end.

Declare Scope m_scope.
Delimit Scope m_scope with M.
Notation "x <- m ;; k" := (bind m (fun x => k))
  (at level 100, m at next level, right associativity) : m_scope.
Notation "m ;;; k" := (bind m (fun _ => k))
  (at level 100, right associativity) : m_scope.
Open Scope m_scope.

Definition read_db : M Db := fun st => (Ok (db st), st).

(** A call to the outside: logged, answered from the trace so far. *)
Definition call {X} (ev : Event) (answer : list Event -> X) : M X :=
  fun st => (Ok (answer (trace st)), {| db := db st; trace := ev :: trace st |}).

(** A promise-wrapped call: an error answer rejects. *)
Definition call_async {X} (ev : Event) (answer : list Event -> JsVal + X) : M X :=
  r <- call ev answer ;;
  match r with
  | inl e => throw e
  | inr x => ret x
  end.

(** ** The store: tables, SQL statements, pg-promise result filters *)

Inductive Table : Type := trade_deposits_tbl | trade_withdrawals_tbl.

Definition table (tb : Table) (d : Db) : list Trade :=
  match tb with
  | trade_deposits_tbl => trade_deposits d
  | trade_withdrawals_tbl => trade_withdrawals d
  end.

Definition with_table (tb : Table) (rows : list Trade) (d : Db) : Db :=
  match tb with
  | trade_deposits_tbl =>
      {| users := users d; trade_deposits := rows;
         trade_withdrawals := trade_withdrawals d;
         trade_deposit_items := trade_deposit_items d;
         trade_withdrawal_items := trade_withdrawal_items d;
         steam_item_price_cache := steam_item_price_cache d |}
  | trade_withdrawals_tbl =>
      {| users := users d; trade_deposits := trade_deposits d;
         trade_withdrawals := rows;
         trade_deposit_items := trade_deposit_items d;
         trade_withdrawal_items := trade_withdrawal_items d;
         steam_item_price_cache := steam_item_price_cache d |}
  end.

Definition with_users (us : list User) (d : Db) : Db :=
  {| users := us; trade_deposits := trade_deposits d;
     trade_withdrawals := trade_withdrawals d;
     trade_deposit_items := trade_deposit_items d;
     trade_withdrawal_items := trade_withdrawal_items d;
     steam_item_price_cache := steam_item_price_cache d |}.

(** [SET] clauses *)

Definition set_acknowledged (now merchant : Z) (t : Trade) : Trade :=
  {| trade_id := trade_id t; row_app_id := row_app_id t;
     user_steam_id := user_steam_id t; _item_names := _item_names t;
     merchant_steam_id := Some merchant; acknowledged_at := Some now;
     offered_at := offered_at t; steam_offer_id := steam_offer_id t;
     completed_at := completed_at t; failed_at := failed_at t;
     failure_details := failure_details t; cancelled_at := cancelled_at t;
     _total := _total t; _bonus := _bonus t |}.

Definition set_merchant (merchant : Z) (t : Trade) : Trade :=
  {| trade_id := trade_id t; row_app_id := row_app_id t;
     user_steam_id := user_steam_id t; _item_names := _item_names t;
     merchant_steam_id := Some merchant; acknowledged_at := acknowledged_at t;
     offered_at := offered_at t; steam_offer_id := steam_offer_id t;
     completed_at := completed_at t; failed_at := failed_at t;
     failure_details := failure_details t; cancelled_at := cancelled_at t;
     _total := _total t; _bonus := _bonus t |}.

Definition set_offered (created : Z) (offerId : string) (t : Trade) : Trade :=
  {| trade_id := trade_id t; row_app_id := row_app_id t;
     user_steam_id := user_steam_id t; _item_names := _item_names t;
     merchant_steam_id := merchant_steam_id t;
     acknowledged_at := acknowledged_at t;
     offered_at := Some created; steam_offer_id := Some offerId;
     completed_at := completed_at t; failed_at := failed_at t;
     failure_details := failure_details t; cancelled_at := cancelled_at t;
     _total := _total t; _bonus := _bonus t |}.

Definition set_completed (now : Z) (t : Trade) : Trade :=
  {| trade_id := trade_id t; row_app_id := row_app_id t;
     user_steam_id := user_steam_id t; _item_names := _item_names t;
     merchant_steam_id := merchant_steam_id t;
     acknowledged_at := acknowledged_at t;
     offered_at := offered_at t; steam_offer_id := steam_offer_id t;
     completed_at := Some now; failed_at := failed_at t;
     failure_details := failure_details t; cancelled_at := cancelled_at t;
     _total := _total t; _bonus := _bonus t |}.

Definition set_failed (now : Z) (message : string) (t : Trade) : Trade :=
  {| trade_id := trade_id t; row_app_id := row_app_id t;
     user_steam_id := user_steam_id t; _item_names := _item_names t;
     merchant_steam_id := merchant_steam_id t;
     acknowledged_at := acknowledged_at t;
     offered_at := offered_at t; steam_offer_id := steam_offer_id t;
     completed_at := completed_at t; failed_at := Some now;
     failure_details := Some message; cancelled_at := cancelled_at t;
     _total := _total t; _bonus := _bonus t |}.

Definition add_balance (total bonus : Z) (u : User) : User :=
  {| steam_id := steam_id u; trade_link_url := trade_link_url u;
     balance := balance u + total + bonus |}.

(** [UPDATE tbl SET set WHERE cond]: the new table, and the rows a
    [RETURNING] clause reports. *)
Definition sql_update {R} (cond : R -> bool) (set : R -> R) (rows : list R) : list R :=
  map (fun r => if cond r then set r else r) rows.

Definition sql_returning {R} (cond : R -> bool) (set : R -> R) (rows : list R) : list R :=
  map set (List.filter cond rows).

Definition update_trades (tb : Table) (cond : Trade -> bool) (set : Trade -> Trade)
  : M (list Trade) :=
  fun st =>
    let rows := table tb (db st) in
    (Ok (sql_returning cond set rows),
     {| db := with_table tb (sql_update cond set rows) (db st); trace := trace st |}).

Definition update_users (cond : User -> bool) (set : User -> User) : M unit :=
  fun st =>
    (Ok tt, {| db := with_users (sql_update cond set (users (db st))) (db st);
               trace := trace st |}).

Definition select {R} (rows : Db -> list R) (cond : R -> bool) : M (list R) :=
  d <- read_db ;; ret (List.filter cond (rows d)).

Definition QueryResultError_noData : JsVal :=
  JsError "No data returned from the query.".
Definition QueryResultError_multiple : JsVal :=
  JsError "Multiple rows were not expected.".

Definition one {R} (q : M (list R)) : M R :=
  rows <- q ;;
  match rows with
  | [] => throw QueryResultError_noData
  | [r] => ret r
  | _ => throw QueryResultError_multiple
  end.

Definition oneOrNone {R} (q : M (list R)) : M (option R) :=
  rows <- q ;;
  match rows with
  | [] => ret None
  | [r] => ret (Some r)
  | _ => throw QueryResultError_multiple
  end.

Definition many {R} (q : M (list R)) : M (list R) :=
  rows <- q ;;
  match rows with
  | [] => throw QueryResultError_noData
  | _ => ret rows
  end.

Definition manyOrNone {R} (q : M (list R)) : M (list R) := q.

Definition none {R} (q : M (list R)) : M unit := q ;;; ret tt.

(** JavaScript truthiness of an optional string: [undefined], [null] and
    the empty string are falsy. *)
Definition truthy (o : option string) : option string :=
  match o with
  | Some "" => None
  | _ => o
  end.

Definition is_null {A} (o : option A) : bool :=
  match o with None => true | Some _ => false end.

(** SQL [col = v] on a nullable column: false on NULL. *)
Definition col_eq `{EqDecision A} (o : option A) (v : A) : bool :=
  match o with None => false | Some x => bool_decide (x = v) end.

(** ** [utils.ts] and [Instance.ts] *)

Definition MAX_WITHDRAWAL_SIZE : nat := 3.

Definition errMessage (err : JsVal) : string :=
  match err with
  | JsError m => m
  | JsString s => s
  | JsOther j => j
  end.

(** [`${e.message}`] *)
Definition message_of (e : JsVal) : string :=
  match e with
  | JsError m => m
  | _ => "undefined"
  end.

Definition createOffer (tradeUrl : string) : Offer :=
  {| offer_url := tradeUrl; their_items := []; my_items := [] |}.

Definition addTheirItems (items : list InvItem) (o : Offer) : Offer :=
  {| offer_url := offer_url o; their_items := their_items o ++ items;
     my_items := my_items o |}.

Definition addMyItems (items : list InvItem) (o : Offer) : Offer :=
  {| offer_url := offer_url o; their_items := their_items o;
     my_items := my_items o ++ items |}.

Section Instance.

Variable config : Config.
Variable env : Env.

Definition new_Date : M Z := fun st => (Ok (clock env (trace st)), st).

Definition waitAsync (seconds : Z) : M unit :=
  call (EvWait seconds) (fun _ => tt).

Definition getUserDetailsAsync (offer : Offer) : M UserDetails :=
  call_async (EvGetUserDetails (offer_url offer))
             (fun tr => getUserDetails env tr (offer_url offer)).

Definition sendOfferAsync (offer : Offer) : M SentOffer :=
  call_async (EvSendOffer offer) (fun tr => send env tr offer).

Definition confirmOfferAsync (id : string) : M unit :=
  r <- call (EvAcceptConfirmation id)
            (fun tr => acceptConfirmationForObject env tr id) ;;
  match r with
  | Some error => throw error
  | None => ret tt
  end.

Definition getUserInventoryAsync (steamId : Z) : M (list InvItem) :=
  call_async (EvGetUserInventoryContents steamId)
             (fun tr => getUserInventoryContents env tr steamId).

Definition fail (tb : Table) (id : Z) (e : JsVal) : M unit :=
  now <- new_Date ;;
  let message :=
    match e with
    | JsError m => m
    | JsString s => s
    | JsOther j => j
    end in
  none (update_trades tb (fun t => bool_decide (trade_id t = id))
                      (set_failed now message)).

Definition failDeposit (id : Z) (e : JsVal) : M unit :=
  fail trade_deposits_tbl id e.

Definition failWithdrawal (id : Z) (e : JsVal) : M unit :=
  fail trade_withdrawals_tbl id e.

Definition _reconnectToSteam : M bool :=
  call EvWebLogOn (fun _ => true).

(** One activation of [_fetchInventoryItems]; [self] is the recursive
    call, whose result the source drops. *)
Definition _fetchInventoryItems_body (self : M (list InvItem))
    (steamId : Z) (assetIds : list string) (retry : bool) : M (list InvItem) :=
  items <-
    try_catch
      (inv <- getUserInventoryAsync steamId ;;
       ret (List.filter (fun item => bool_decide (assetid item ∈ assetIds)) inv))
      (fun e =>
         _reconnectToSteam ;;;
         if negb retry then throw e
         else (self ;;; ret [])) ;;
  if bool_decide (length items ≠ length assetIds) then
    throw (JsError "One or more requested items do not exist in inventory")
  else ret items.

(** The recursion is two deep: the inner activation runs with
    [retry = false] and throws before it would recurse. *)
Definition _fetchInventoryItems (steamId : Z) (assetIds : list string)
    (retry : bool) : M (list InvItem) :=
  _fetchInventoryItems_body
    (_fetchInventoryItems_body (ret []) steamId assetIds false)
    steamId assetIds retry.

(** The first statement of [startDeposit]: the conditional [UPDATE ...
    RETURNING *] that claims the deposit. *)
Definition acknowledgeDeposit (merchantSteamID depositId : Z) : M (option Trade) :=
  now <- new_Date ;;
  oneOrNone
    (update_trades trade_deposits_tbl
       (fun t => bool_decide (trade_id t = depositId)
                 && bool_decide (row_app_id t = app_id config)
                 && is_null (acknowledged_at t))
       (set_acknowledged now merchantSteamID)).

Definition startDeposit (depositId : Z) : M unit :=
  match steamID env with
  | None => ret tt
  | Some merchantSteamID =>
    deposit <- acknowledgeDeposit merchantSteamID depositId ;;
    match deposit with
    | None => ret tt
    | Some deposit =>
      user <- one (select users
                     (fun u => bool_decide (steam_id u = user_steam_id deposit))) ;;
      match truthy (trade_link_url user) with
      | None =>
          failDeposit (trade_id deposit)
                      (JsString "Please set your Trade URL to proceed")
      | Some url =>
        depositItems <- many (select trade_deposit_items
                          (fun i => bool_decide (item_trade_id i = depositId))) ;;
        let assetIds := map steam_asset_id depositItems in
        fetched <- try_catch
                     (items <- _fetchInventoryItems (user_steam_id deposit) assetIds true ;;
                      ret (inr items))
                     (fun e => ret (inl e)) ;;
        match fetched with
        | inl e => failDeposit (trade_id deposit) e
        | inr theirItems =>
          let offer := createOffer url in
          details <- try_catch
            (d <- getUserDetailsAsync offer ;; ret (inr d))
            (fun _ =>
               _reconnectToSteam ;;;
               try_catch
                 (d <- getUserDetailsAsync offer ;; ret (inr d))
                 (fun e => ret (inl e))) ;;
          match details with
          | inl e =>
              failDeposit (trade_id deposit)
                (JsString ("We were unable to retrieve your details. "
                   +:+ "Please try creating a new deposit. Error: "
                   +:+ message_of e))
          | inr them =>
            if probation them then
              failDeposit (trade_id deposit)
                (JsString ("You are not currently able to trade. "
                   +:+ "Please consult your Steam profile for more information."))
            else if negb (bool_decide (escrowDays them = 0)) then
              failDeposit (trade_id deposit)
                (JsString ("Please enable mobile authenticator and wait for "
                   +:+ pretty (escrowDays them) +:+ " days."))
            else
              let offer := addTheirItems theirItems offer in
              try_catch
                (sent <- sendOfferAsync offer ;;
                 none (update_trades trade_deposits_tbl
                         (fun t => bool_decide (trade_id t = trade_id deposit))
                         (set_offered (sent_created sent) (sent_id sent))))
                (fun e => failDeposit (trade_id deposit) e)
          end
        end
      end
    end
  end.

Definition Math_round (x : Q) : Z := Qfloor (x + (1 # 2))%Q.
Definition Math_ceil (x : Q) : Z := Qceiling x.

Definition _getDbCentPrices (minPrice maxPrice : Q) : M (option (gmap string Z)) :=
  results <- manyOrNone
    (select steam_item_price_cache
       (fun r => negb (blacklisted r)
                 && Qle_bool minPrice (base_price_usd r)
                 && Qle_bool (base_price_usd r) maxPrice)) ;;
  match results with
  | [] => ret None
  | _ =>
    ret (Some
      (fold_left
         (fun (dbPrices : gmap string Z) result =>
            let price := Math_round (base_price_usd result * 100)%Q in
            if 0 <? price then <[cache_market_hash_name result := price]> dbPrices
            else dbPrices)
         results ∅))
  end.

Definition _currentWithdrawalsItems (merchantSteamID : Z) : M (list string) :=
  withdrawals <- manyOrNone
    (select trade_withdrawals
       (fun t => col_eq (merchant_steam_id t) merchantSteamID
                 && is_null (completed_at t)
                 && is_null (failed_at t)
                 && is_null (cancelled_at t))) ;;
  ret (concat (map _item_names withdrawals)).

(** The hand-over of the listed items to OPSkins (its trade offer, the
    security token, the confirmation) is summarised by the listing call. *)
Definition _listItems (listItems : list ToListItem) : M unit :=
  call (EvOpskinsListItems listItems) (fun _ => tt).

Definition TypeError_undefined (prop : string) : JsVal :=
  JsError ("Cannot read property '" +:+ prop +:+ "' of undefined").

(** The [price:] expression of a listed item. *)
Definition listing_price (op : PriceEntry) (sp : Z) (multiplier : Q) : Z :=
  if Qle_bool (inject_Z (price op)) (inject_Z sp * 0.65)%Q
  then sp
  else Math_ceil (inject_Z (price op) * multiplier)%Q.

(** The [for] loop of [_listItemsToOpskins], from index [i] on: [items] is
    what is left of the array, [listItems] what has been pushed. *)
Fixpoint listing_loop (liimt : Z) (opPriceData : gmap string PriceEntry)
    (spPriceData : gmap string Z) (items : list InvItem)
    (listItems : list ToListItem) : Res (list ToListItem) :=
  match items with
  | [] => Ok listItems
  | item :: rest =>
    if Z.of_nat (length listItems) <? liimt then
      let key := market_hash_name item in
      match opPriceData !! key with
      | None => Throw (TypeError_undefined "quantity")
      | Some entry =>
        let multiplier := if quantity entry <=? 12 then 1.05%Q else 1%Q in
        match opPriceData !! key, spPriceData !! key with
        | Some op, Some sp =>
            listing_loop liimt opPriceData spPriceData rest
              (listItems ++
                 [{| li_appid := app_id config;
                     li_contextid := context_id config;
                     li_assetid := assetid item;
                     li_price := listing_price op sp multiplier |}])
        | _, _ => listing_loop liimt opPriceData spPriceData rest listItems
        end
      end
    else Ok listItems
  end.

Definition lift_res {A} (r : Res A) : M A := fun st => (r, st).

Definition _listItemsToOpskins (items : list InvItem) : M unit :=
  r <- call EvOpskinsGetLowestPrices (opskins_getLowestPrices env) ;;
  match r with
  | inl _ => ret tt
  | inr opPriceData =>
    ll <- call EvOpskinsGetListingLimit (opskins_getListingLimit env) ;;
    let '(errll, liimt) := ll in
    if negb (is_null errll) || (liimt <=? 0) then ret tt
    else
      spPriceData <- _getDbCentPrices 0%Q 10000%Q ;;
      match spPriceData with
      | None => ret tt
      | Some spPriceData =>
        listItems <- lift_res (listing_loop liimt opPriceData spPriceData items []) ;;
        match listItems with
        | [] => ret tt
        | _ => _listItems listItems
        end
      end
  end.

(** The end of the [Accepted] branch of [completeDeposit]: what the
    merchant holds and no open withdrawal has asked for is put on sale. *)
Definition list_after_acquisition : M unit :=
  match steamID env with
  | None => throw (TypeError_undefined "getSteamID64")
  | Some merchantSteamID =>
    items <- try_catch
      (i <- getUserInventoryAsync merchantSteamID ;; ret (Some i))
      (fun _ =>
         _reconnectToSteam ;;;
         try_catch
           (i <- getUserInventoryAsync merchantSteamID ;; ret (Some i))
           (fun _ => ret None)) ;;
    match items with
    | None => ret tt
    | Some items =>
      withdrawalsItems <- _currentWithdrawalsItems merchantSteamID ;;
      let items :=
        fold_left
          (fun items witem =>
             List.filter
               (fun e => negb (bool_decide (market_hash_name e = witem)))
               items)
          withdrawalsItems items in
      match items with
      | [] => ret tt
      | _ => detached (_listItemsToOpskins items)
      end
    end
  end.

Definition completeDeposit (offer : TradeOffer) (oldState : TradeOfferState)
  : M unit :=
  if bool_decide (oldState ∉ COMPLETABLE_STATES) then ret tt
  else
    deposit <- one (select trade_deposits
                      (fun t => col_eq (steam_offer_id t) (offer_id offer))) ;;
    match offer_state offer with
    | Countered =>
        failDeposit (trade_id deposit)
          (JsString "A counter-offer was made. Counter-offers are not currently accepted.")
    | Expired => failDeposit (trade_id deposit) (JsString "Trade offer expired")
    | Cancelled => failDeposit (trade_id deposit) (JsString "Trade offer cancelled")
    | Declined => failDeposit (trade_id deposit) (JsString "Trade offer declined")
    | InvalidItems =>
        failDeposit (trade_id deposit) (JsString "Trade contained invalid items")
    | CanceledBySecondFactor =>
        failDeposit (trade_id deposit)
          (JsString "Trade offer cancelled by second factor")
    | Accepted =>
      update_users (fun u => bool_decide (steam_id u = user_steam_id deposit))
                   (add_balance (_total deposit) (_bonus deposit)) ;;;
      now <- new_Date ;;
      none (update_trades trade_deposits_tbl
              (fun t => bool_decide (trade_id t = trade_id deposit))
              (set_completed now)) ;;;
      list_after_acquisition
    | _ => ret tt
    end.

(** [_withdrawOpskinsItems] and [_checkOpskinsUserInventory] drive the
    OPSkins pick-up offers (fetch, accept or decline, confirm).  That
    hand-shake is summarised by what the promise resolves to; [None] is a
    promise that never settles. *)
Definition settle {A} (o : option A) : M A :=
  match o with
  | Some a => ret a
  | None => fun st => (Pending, st)
  end.

Definition _withdrawOpskinsItems (items : list (option Z)) : M bool :=
  r <- call (EvOpskinsWithdraw items) (fun tr => opskins_withdraw env tr items) ;;
  settle r.

Definition _checkOpskinsUserInventory (withdrawalItems : list string) : M bool :=
  r <- call (EvOpskinsGetInventory withdrawalItems)
            (fun tr => opskins_scan env tr withdrawalItems) ;;
  settle r.

(** The property key JavaScript uses for a possibly missing array element. *)
Definition js_key (item : option string) : string :=
  match item with
  | Some s => s
  | None => "undefined"
  end.

Definition _searchOpskins (marketHashName : string) : M (list OpskinsSearchResult) :=
  call_async (EvOpskinsSearch marketHashName)
             (fun tr => opskins_search env tr marketHashName).

Definition _buyOpskinsItem (saleid total : Z) : M OpskinsBuyReturn :=
  r <- call_async (EvOpskinsBuyItems saleid total)
                  (fun tr => opskins_buyItems env tr saleid total) ;;
  let '(items, balance) := r in
  ret {| new_itemid := head items; buy_balance := balance |}.

Definition _lockWithdrawal (withdrawalId merchantSteamID : Z) : M bool :=
  in_callback
    (r <- call EvOpskinsGetBalance (opskins_getBalance env) ;;
     match r with
     | inl _ => ret false
     | inr balance =>
       tradeId <- oneOrNone
         (update_trades trade_withdrawals_tbl
            (fun t => bool_decide (trade_id t = withdrawalId)
                      && col_eq (merchant_steam_id t) 1
                      && (_total t <=? balance)
                      && bool_decide (row_app_id t = app_id config))
            (set_merchant merchantSteamID)) ;;
       match tradeId with
       | None => ret false
       | Some t =>
         if negb (bool_decide (trade_id t = withdrawalId)) then ret false
         else ret true
       end
     end).

Definition RPM : Z := 20.

(** The three search attempts of one iteration; [None] is the [continue]
    after the third failure. *)
Definition search_attempts (item : string) : M (option (list OpskinsSearchResult)) :=
  try_catch
    (r <- _searchOpskins item ;; ret (Some r))
    (fun _ =>
       waitAsync 1 ;;;
       try_catch
         (r <- _searchOpskins item ;; ret (Some r))
         (fun _ =>
            waitAsync 2 ;;;
            try_catch
              (r <- _searchOpskins item ;; ret (Some r))
              (fun _ => ret None))).

Definition buyable (item : option string) (balance : Z) (r : OpskinsSearchResult)
  : bool :=
  (amount r <=? balance) && bool_decide (item = Some (market_name r)).

Definition buy_one (r : OpskinsSearchResult) (purchases : list (option Z))
  : M (Z * list (option Z)) :=
  result <- _buyOpskinsItem (sale_id r) (amount r) ;;
  ret (buy_balance result, purchases ++ [new_itemid result]).

(** The purchase of one iteration with its fall-backs to the second and
    third listing; yields the running balance and [purchases]. *)
Definition buy_attempts (item : option string) (results : list OpskinsSearchResult)
    (balance : Z) (purchases : list (option Z)) : M (Z * list (option Z)) :=
  match results with
  | r0 :: _ =>
    if buyable item balance r0 then
      try_catch (buy_one r0 purchases)
        (fun _ =>
           try_catch
             (match results !! 1%nat with
              | Some r1 =>
                if buyable item balance r1 then buy_one r1 purchases
                else ret (balance, purchases)
              | None => ret (balance, purchases)
              end)
             (fun _ =>
                try_catch
                  (match results !! 2%nat with
                   | Some r2 =>
                     if buyable item balance r2 then buy_one r2 purchases
                     else ret (balance, purchases)
                   | None => ret (balance, purchases)
                   end)
                  (fun _ => ret (balance, purchases))))
    else ret (balance, purchases)
  | [] => ret (balance, purchases)
  end.

(** The anti-manipulation test on the cheapest listing. *)
Definition too_expensive (r0 : OpskinsSearchResult) (safe : Z) : bool :=
  (4 * 100 <=? amount r0)
  && Qle_bool (inject_Z safe * 1.05)%Q (inject_Z (amount r0)).

(** The [for] loop of [_buyPlaceholderItems]: [n] iterations are left,
    [i] is the index.  [None] is a [resolve([]); return] inside the loop. *)
Fixpoint buy_loop (spPriceData : gmap string Z) (names : list string)
    (n i : nat) (searches balance : Z) (purchases : list (option Z))
  : M (option (list (option Z))) :=
  match n with
  | O => ret (Some purchases)
  | S n' =>
    if searches <? RPM * 4 then
      let item := names !! i in
      match spPriceData !! js_key item with
      | None => ret None
      | Some safe =>
        found <- search_attempts (js_key item) ;;
        match found with
        | None => buy_loop spPriceData names n' (S i) searches balance purchases
        | Some results =>
          let searches := searches + 1 in
          match results with
          | [] => throw (TypeError_undefined "amount")
          | r0 :: _ =>
            if too_expensive r0 safe then ret None
            else
              bought <- buy_attempts item results balance purchases ;;
              let '(balance, purchases) := bought in
              (if searches =? RPM then waitAsync 60 else ret tt) ;;;
              buy_loop spPriceData names n' (S i) searches balance purchases
          end
        end
      end
    else ret (Some purchases)
  end.

(** [try { items = await getUserInventoryAsync(..) } catch (e) {
    await this._reconnectToSteam(); items = await getUserInventoryAsync(..) }],
    as it stands twice in [_buyPlaceholderItems]. *)
Definition fetch_with_relogin (merchantSteamID : Z) : M (list InvItem) :=
  try_catch (getUserInventoryAsync merchantSteamID)
    (fun _ => _reconnectToSteam ;;; getUserInventoryAsync merchantSteamID).

(** The final filter: each inventory item whose name is still requested is
    taken, and every occurrence of that name leaves [_item_names] (the
    array of the withdrawal object, which the caller reads afterwards). *)
Definition take_requested (items : list InvItem) (names : list string)
  : list InvItem * list string :=
  fold_left
    (fun (acc : list InvItem * list string) item =>
       let '(itemsfiltred, names) := acc in
       if bool_decide (market_hash_name item ∈ names) then
         (itemsfiltred ++ [item],
          List.filter (fun name => negb (bool_decide (name = market_hash_name item)))
                      names)
       else acc)
    items ([], names).

Definition _buyPlaceholderItems (withdrawalItems : list TradeItem)
    (names : list string) (merchantSteamID : Z)
  : M (list InvItem * list string) :=
  match truthy (opskins_key config) with
  | None => ret ([], names)
  | Some _ =>
    in_callback
      (r <- call EvOpskinsGetBalance (opskins_getBalance env) ;;
       match r with
       | inl _ => ret ([], names)
       | inr balance =>
         spPriceData <- _getDbCentPrices 0%Q 10000%Q ;;
         match spPriceData with
         | None => ret ([], names)
         | Some spPriceData =>
           looped <- buy_loop spPriceData names (length withdrawalItems) 0 0
                              balance [] ;;
           match looped with
           | None => ret ([], names)
           | Some purchases =>
             if negb (bool_decide (purchases = []))
                && bool_decide (length withdrawalItems = length purchases)
             then
               success <- _withdrawOpskinsItems purchases ;;
               (if negb success then
                  waitAsync 2 ;;;
                  success <- _withdrawOpskinsItems purchases ;;
                  if negb success then
                    waitAsync 2 ;;;
                    _withdrawOpskinsItems purchases ;;; ret tt
                  else ret tt
                else ret tt) ;;;
               waitAsync 2 ;;;
               items <- fetch_with_relogin merchantSteamID ;;
               items <-
                 match items with
                 | [] =>
                   waitAsync 2 ;;;
                   _withdrawOpskinsItems purchases ;;;
                   fetch_with_relogin merchantSteamID
                 | _ => ret items
                 end ;;
               let '(itemsfiltred, names) := take_requested items names in
               if bool_decide (itemsfiltred = [])
                  || negb (bool_decide (length withdrawalItems = length itemsfiltred))
               then ret ([], names)
               else ret (itemsfiltred, names)
             else ret ([], names)
           end
         end
       end)
  end.

Definition _listAgainItems (withdrawalItems : list string) : M unit :=
  match steamID env with
  | None => throw (TypeError_undefined "getSteamID64")
  | Some merchantSteamID =>
    items <- try_catch
      (i <- getUserInventoryAsync merchantSteamID ;; ret (Some i))
      (fun _ =>
         _reconnectToSteam ;;;
         try_catch
           (i <- getUserInventoryAsync merchantSteamID ;; ret (Some i))
           (fun _ => ret None)) ;;
    match items with
    | None => ret tt
    | Some items =>
      let items :=
        match withdrawalItems, items with
        | _ :: _, _ :: _ =>
            List.filter
              (fun e => bool_decide (market_hash_name e ∈ withdrawalItems)) items
        | _, _ => items
        end in
      match items with
      | [] => ret tt
      | _ => detached (_listItemsToOpskins items)
      end
    end
  end.

Definition startWithdrawal (withdrawalId : Z) : M unit :=
  match steamID env with
  | None => ret tt
  | Some merchantSteamID =>
    locked <- _lockWithdrawal withdrawalId merchantSteamID ;;
    if negb locked then ret tt
    else
      withdrawal <- oneOrNone
        (select trade_withdrawals
           (fun t => bool_decide (trade_id t = withdrawalId)
                     && col_eq (merchant_steam_id t) merchantSteamID)) ;;
      match withdrawal with
      | None => ret tt
      | Some withdrawal =>
        user <- one (select users
                       (fun u => bool_decide (steam_id u = user_steam_id withdrawal))) ;;
        match truthy (trade_link_url user) with
        | None =>
            failWithdrawal (trade_id withdrawal)
                           (JsString "Please set your Trade URL to proceed")
        | Some url =>
          let offer := createOffer url in
          details <- try_catch
            (d <- getUserDetailsAsync offer ;; ret (inr d))
            (fun _ =>
               _reconnectToSteam ;;;
               try_catch
                 (d <- getUserDetailsAsync offer ;; ret (inr d))
                 (fun e => ret (inl e))) ;;
          match details with
          | inl e =>
              failWithdrawal (trade_id withdrawal)
                (JsString ("You are not currently able to trade. "
                   +:+ "Please consult your Steam profile for more information. Error: "
                   +:+ message_of e))
          | inr them =>
            if probation them then
              failWithdrawal (trade_id withdrawal)
                (JsString ("You are not currently able to trade. "
                   +:+ "Please consult your Steam profile for more information."))
            else if negb (bool_decide (escrowDays them = 0)) then
              failWithdrawal (trade_id withdrawal)
                (JsString ("You are currently subject to a trade hold for "
                   +:+ pretty (escrowDays them) +:+ " days."))
            else
              withdrawalItems <- many (select trade_withdrawal_items
                                 (fun i => bool_decide (item_trade_id i = withdrawalId))) ;;
              if bool_decide (withdrawalItems = []) then
                failWithdrawal (trade_id withdrawal)
                  (JsString "Could not retrieve the items. Please try again later.")
              else if bool_decide (MAX_WITHDRAWAL_SIZE < length withdrawalItems)%nat then
                failWithdrawal (trade_id withdrawal)
                  (JsString ("Please choose a maximum of "
                     +:+ pretty MAX_WITHDRAWAL_SIZE +:+ " items."))
              else
                sourced <- _buyPlaceholderItems withdrawalItems
                             (_item_names withdrawal) merchantSteamID ;;
                let '(myItems, names) := sourced in
                match myItems with
                | [] =>
                  failWithdrawal (trade_id withdrawal)
                    (JsString "Failed to complete withdrawal, please try again later.") ;;;
                  _checkOpskinsUserInventory names ;;;
                  detached (_listAgainItems names)
                | _ =>
                  let offer := addMyItems myItems offer in
                  try_catch
                    (sent <- sendOfferAsync offer ;;
                     confirmOfferAsync (sent_id sent) ;;;
                     none (update_trades trade_withdrawals_tbl
                             (fun t => bool_decide (trade_id t = trade_id withdrawal))
                             (set_offered (sent_created sent) (sent_id sent))))
                    (fun e => failWithdrawal (trade_id withdrawal) e)
                end
          end
        end
      end
  end.

Definition completeWithdrawal (offer : TradeOffer) (oldState : TradeOfferState)
  : M unit :=
  if bool_decide (oldState ∉ COMPLETABLE_STATES) then ret tt
  else
    withdrawal <- one (select trade_withdrawals
                         (fun t => col_eq (steam_offer_id t) (offer_id offer))) ;;
    match offer_state offer with
    | Countered =>
        failWithdrawal (trade_id withdrawal)
          (JsString "A counter-offer was made. Counter-offers are not currently accepted.")
    | Expired => failWithdrawal (trade_id withdrawal) (JsString "Trade offer expired")
    | Cancelled => failWithdrawal (trade_id withdrawal) (JsString "Trade offer cancelled")
    | Declined => failWithdrawal (trade_id withdrawal) (JsString "Trade offer declined")
    | InvalidItems =>
        failWithdrawal (trade_id withdrawal) (JsString "Trade contained invalid items")
    | CanceledBySecondFactor =>
        failWithdrawal (trade_id withdrawal)
          (JsString "Trade offer cancelled by second factor")
    | Accepted =>
      now <- new_Date ;;
      none (update_trades trade_withdrawals_tbl
              (fun t => bool_decide (trade_id t = trade_id withdrawal))
              (set_completed now))
    | _ => ret tt
    end.

(** The handler of [sentOfferChanged]. *)
Definition sentOfferChanged (offer : TradeOffer) (oldState : TradeOfferState)
  : M unit :=
  match itemsToReceive offer with
  | _ :: _ => completeDeposit offer oldState
  | [] => completeWithdrawal offer oldState
  end.

End Instance.

(** * Notions used by the properties *)

(** ** Claims *)

(** Every row of the deposit carries an acknowledgment time. *)
Definition acknowledged (depositId : Z) (d : Db) : Prop :=
  forall t, t ∈ trade_deposits d -> trade_id t = depositId ->
            acknowledged_at t <> None.

(** A merchant process: its configuration, its view of the outside, and
    the Steam id it claims with. *)
Record Merchant := {
  m_config : Config;
  m_env : Env;
  m_steam_id : Z
}.

(** Claims of the same deposit, one after the other, by any merchants. *)
Fixpoint claim_all (ms : list Merchant) (depositId : Z) (st : St)
  : list (Res (option Trade)) * St :=
  match ms with
  | [] => ([], st)
  | m :: ms =>
    let '(r, st') :=
      acknowledgeDeposit (m_config m) (m_env m) (m_steam_id m) depositId st in
    let '(rs, st'') := claim_all ms depositId st' in
    (r :: rs, st'')
  end.

Definition claim_granted (r : Res (option Trade)) : bool :=
  match r with
  | Ok (Some _) => true
  | _ => false
  end.

(** ** Relations between the state before and after a computation *)

Definition preserves (R : St -> St -> Prop) {A} (m : M A) : Prop :=
  forall st, R st (snd (m st)).

(** The store is as it was (the trace may have grown). *)
Definition same_db (st st' : St) : Prop := db st' = db st.

(** ** Balances *)

(** The balance column of the rows of [users] with the given key. *)
Definition balances (steamId : Z) (d : Db) : list Z :=
  map balance (List.filter (fun u => bool_decide (steam_id u = steamId)) (users d)).

(** ** Worlds used as examples *)

Definition cfg : Config :=
  {| opskins_key := Some "key"; app_id := 730; context_id := 2;
     identity_secret := "secret" |}.

Definition ak47 : InvItem := {| assetid := "a1"; market_hash_name := "AK-47" |}.
Definition awp : InvItem := {| assetid := "a2"; market_hash_name := "AWP" |}.

(** A trade as the ordering system creates it. *)
Definition new_trade (id user : Z) (names : list string) (merchant : option Z)
    (total bonus : Z) : Trade :=
  {| trade_id := id; row_app_id := 730; user_steam_id := user;
     _item_names := names; merchant_steam_id := merchant;
     acknowledged_at := None; offered_at := None; steam_offer_id := None;
     completed_at := None; failed_at := None; failure_details := None;
     cancelled_at := None; _total := total; _bonus := bonus |}.

(** An outside world in which every call succeeds: the cheapest listing
    of any search is an AK-47 at 300 cents, of which the marketplace
    reports 400 on sale. *)
Definition calm : Env :=
  {| steamID := Some 900;
     clock := fun tr => Z.of_nat (length tr);
     getUserInventoryContents := fun _ _ => inr [ak47; awp];
     getUserDetails := fun _ _ => inr {| probation := false; escrowDays := 0 |};
     send := fun _ _ =>
       inr {| sent_status := "sent"; sent_id := "offer-1"; sent_created := 5 |};
     acceptConfirmationForObject := fun _ _ => None;
     opskins_getBalance := fun _ => inr 1000;
     opskins_search := fun _ _ =>
       inr [{| sale_id := 9; amount := 300; market_name := "AK-47" |}];
     opskins_buyItems := fun _ _ _ => inr ([77], 700);
     opskins_withdraw := fun _ _ => Some true;
     opskins_scan := fun _ _ => Some false;
     opskins_getLowestPrices := fun _ =>
       inr {[ "AK-47" := {| price := 300; quantity := 400 |} ]};
     opskins_getListingLimit := fun _ => (None, 10) |}.

Definition alice : User :=
  {| steam_id := 7; trade_link_url := Some "https://trade/alice"; balance := 0 |}.

Definition price_cache : list PriceCacheRow :=
  [{| cache_market_hash_name := "AK-47"; base_price_usd := 1; blacklisted := false |};
   {| cache_market_hash_name := "AWP"; base_price_usd := 0.1; blacklisted := false |}].

(** Deposit 1 of Alice (total 100, bonus 5), offered as [offer-1]. *)
Definition offered_deposit : Trade :=
  set_offered 5 "offer-1"
    (set_acknowledged 1 900 (new_trade 1 7 ["AK-47"; "AWP"] None 100 5)).

Definition deposit_world : St :=
  {| db := {| users := [alice];
              trade_deposits := [offered_deposit];
              trade_withdrawals := [];
              trade_deposit_items :=
                [{| item_trade_id := 1; steam_asset_id := "a1" |};
                 {| item_trade_id := 1; steam_asset_id := "a2" |}];
              trade_withdrawal_items := [];
              steam_item_price_cache := price_cache |};
     trace := [] |}.

Definition offer_1 (state : TradeOfferState) : TradeOffer :=
  {| offer_id := "offer-1"; offer_state := state;
     itemsToReceive := [ak47; awp]; itemsToGive := [] |}.

Definition with_inventory
    (f : list Event -> Z -> JsVal + list InvItem) (e : Env) : Env :=
  {| steamID := steamID e; clock := clock e;
     getUserInventoryContents := f;
     getUserDetails := getUserDetails e; send := send e;
     acceptConfirmationForObject := acceptConfirmationForObject e;
     opskins_getBalance := opskins_getBalance e;
     opskins_search := opskins_search e;
     opskins_buyItems := opskins_buyItems e;
     opskins_withdraw := opskins_withdraw e;
     opskins_scan := opskins_scan e;
     opskins_getLowestPrices := opskins_getLowestPrices e;
     opskins_getListingLimit := opskins_getListingLimit e |}.

Definition with_search
    (f : list Event -> string -> JsVal + list OpskinsSearchResult) (e : Env) : Env :=
  {| steamID := steamID e; clock := clock e;
     getUserInventoryContents := getUserInventoryContents e;
     getUserDetails := getUserDetails e; send := send e;
     acceptConfirmationForObject := acceptConfirmationForObject e;
     opskins_getBalance := opskins_getBalance e;
     opskins_search := f;
     opskins_buyItems := opskins_buyItems e;
     opskins_withdraw := opskins_withdraw e;
     opskins_scan := opskins_scan e;
     opskins_getLowestPrices := opskins_getLowestPrices e;
     opskins_getListingLimit := opskins_getListingLimit e |}.

Definition with_lowest_prices
    (f : list Event -> JsVal + gmap string PriceEntry) (e : Env) : Env :=
  {| steamID := steamID e; clock := clock e;
     getUserInventoryContents := getUserInventoryContents e;
     getUserDetails := getUserDetails e; send := send e;
     acceptConfirmationForObject := acceptConfirmationForObject e;
     opskins_getBalance := opskins_getBalance e;
     opskins_search := opskins_search e;
     opskins_buyItems := opskins_buyItems e;
     opskins_withdraw := opskins_withdraw e;
     opskins_scan := opskins_scan e;
     opskins_getLowestPrices := f;
     opskins_getListingLimit := opskins_getListingLimit e |}.

(** The session is stale at the first inventory fetch and fresh after
    the re-login. *)
Definition stale_once : Env :=
  with_inventory
    (fun tr _ =>
       match tr with
       | [] => inl (JsError "Not Logged In")
       | _ => inr [ak47; awp]
       end)
    calm.

(** Deposit 1 of Alice, not yet claimed. *)
Definition new_deposit_world : St :=
  {| db := {| users := [alice];
              trade_deposits := [new_trade 1 7 ["AK-47"; "AWP"] None 100 5];
              trade_withdrawals := [];
              trade_deposit_items :=
                [{| item_trade_id := 1; steam_asset_id := "a1" |};
                 {| item_trade_id := 1; steam_asset_id := "a2" |}];
              trade_withdrawal_items := [];
              steam_item_price_cache := price_cache |};
     trace := [] |}.

(** Withdrawal 3 of Alice for [names], unclaimed, of the given total, with
    one item row per name. *)
Definition withdrawal_world (names : list string) (total : Z) : St :=
  {| db := {| users := [alice];
              trade_deposits := [];
              trade_withdrawals := [new_trade 3 7 names (Some 1) total 0];
              trade_deposit_items := [];
              trade_withdrawal_items :=
                map (fun n => {| item_trade_id := 3; steam_asset_id := n |}) names;
              steam_item_price_cache := price_cache |};
     trace := [] |}.

(** The failure details recorded for the rows of a trade. *)
Definition failures (tb : Table) (id : Z) (d : Db) : list (option Z * option string) :=
  map (fun t => (failed_at t, failure_details t))
      (List.filter (fun t => bool_decide (trade_id t = id)) (table tb d)).

(** ** Prices *)

(** The cached safe prices in cents, as [_getDbCentPrices(0, 10000)]
    reads them from a store. *)
Definition safe_prices (d : Db) : option (gmap string Z) :=
  match fst (_getDbCentPrices 0%Q 10000%Q {| db := d; trace := [] |}) with
  | Ok prices => prices
  | _ => None
  end.

(** The external lowest price is at most 65% of the safe price. *)
Definition undervalued (op : PriceEntry) (sp : Z) : Prop :=
  (inject_Z (price op) <= inject_Z sp * 0.65)%Q.

(** The pricing rule of list-after-acquisition, with the bound that the
    rounding leaves. *)
Definition priced_by_rule (op : PriceEntry) (sp p : Z) : Prop :=
  (undervalued op sp /\ p = sp)
  \/ (~ undervalued op sp /\ quantity op <= 12
      /\ p = Math_ceil (inject_Z (price op) * 1.05)%Q
      /\ 21 * price op <= 20 * p < 21 * price op + 20)
  \/ (~ undervalued op sp /\ 12 < quantity op /\ p = price op).

Definition listed_by_rule (opPriceData : gmap string PriceEntry)
    (spPriceData : gmap string Z) (items : list InvItem) (li : ToListItem) : Prop :=
  exists item op sp,
    item ∈ items
    /\ li_assetid li = assetid item
    /\ opPriceData !! market_hash_name item = Some op
    /\ spPriceData !! market_hash_name item = Some sp
    /\ priced_by_rule op sp (li_price li).

(** OPSkins has 12 AWPs on sale, the cheapest at 10 cents; the safe price
    of the AWP is 10 cents as well. *)
Definition scarce : Env :=
  with_lowest_prices
    (fun _ => inr {[ "AWP" := {| price := 10; quantity := 12 |} ]})
    calm.

Definition merchant_900 : Merchant :=
  {| m_config := cfg; m_env := calm; m_steam_id := 900 |}.
Definition merchant_901 : Merchant :=
  {| m_config := cfg; m_env := calm; m_steam_id := 901 |}.

(** ** Failure records *)

(** A row after an operation: the same trade, with its failure record
    either as it was or present in both fields. *)
Definition failure_kept_or_set (t t' : Trade) : Prop :=
  trade_id t' = trade_id t
  /\ ((failed_at t' = failed_at t /\ failure_details t' = failure_details t)
      \/ (is_Some (failed_at t') /\ is_Some (failure_details t'))).

Definition failures_coupled (st st' : St) : Prop :=
  forall tb, Forall2 failure_kept_or_set (table tb (db st)) (table tb (db st')).

(** What reaches the core from outside: the two notification channels and
    the offer-state events. *)
Inductive Op : Type :=
| Deposit_created (depositId : Z)
| Withdrawal_created (withdrawalId : Z)
| Offer_changed (offer : TradeOffer) (oldState : TradeOfferState).

Definition handle (config : Config) (env : Env) (op : Op) : M unit :=
  match op with
  | Deposit_created id => startDeposit config env id
  | Withdrawal_created id => startWithdrawal config env id
  | Offer_changed offer oldState => sentOfferChanged config env offer oldState
  end.

(** The same world at a later time. *)
Definition later : Env :=
  {| steamID := steamID calm; clock := fun _ => 99;
     getUserInventoryContents := getUserInventoryContents calm;
     getUserDetails := getUserDetails calm; send := send calm;
     acceptConfirmationForObject := acceptConfirmationForObject calm;
     opskins_getBalance := opskins_getBalance calm;
     opskins_search := opskins_search calm;
     opskins_buyItems := opskins_buyItems calm;
     opskins_withdraw := opskins_withdraw calm;
     opskins_scan := opskins_scan calm;
     opskins_getLowestPrices := opskins_getLowestPrices calm;
     opskins_getListingLimit := opskins_getListingLimit calm |}.

(** Events handled one after the other, each in the world of its time. *)
Fixpoint handle_all (events : list (Config * Env * Op)) (st : St) : St :=
  match events with
  | [] => st
  | (config, env, op) :: events =>
      handle_all events (snd (handle config env op st))
  end.

(** A failure record is whole: both fields or neither. *)
Definition whole_failure_record (t : Trade) : Prop :=
  is_Some (failed_at t) <-> is_Some (failure_details t).

(** ** Withdrawals *)

(** The profile of the counterparty as the two attempts obtain it: at the
    first call, or at the second after a re-login. *)
Definition profile (env : Env) (tr : list Event) (url : string) : option UserDetails :=
  match getUserDetails env tr url with
  | inr them => Some them
  | inl _ =>
    match getUserDetails env (EvWebLogOn :: EvGetUserDetails url :: tr) url with
    | inr them => Some them
    | inl _ => None
    end
  end.

(** [tr] is [base] followed by events that all satisfy [P]. *)
Definition extends (P : Event -> Prop) (base tr : list Event) : Prop :=
  exists new, tr = new ++ base /\ Forall P new.

(** The Steam calls of the profile check. *)
Definition profile_call (ev : Event) : Prop :=
  match ev with
  | EvWebLogOn | EvGetUserDetails _ => True
  | _ => False
  end.

(** The rows of [trade_withdrawal_items] of a withdrawal. *)
Definition requested_items (withdrawalId : Z) (d : Db) : list TradeItem :=
  List.filter (fun i => bool_decide (item_trade_id i = withdrawalId))
              (trade_withdrawal_items d).

Definition count_limit_message : string := "Please choose a maximum of 3 items.".

(** The [WHERE] clause of the lock, and the state a granted lock leaves. *)
Definition lock_cond (config : Config) (withdrawalId balance : Z) : Trade -> bool :=
  fun t => bool_decide (trade_id t = withdrawalId)
           && col_eq (merchant_steam_id t) 1
           && (_total t <=? balance)
           && bool_decide (row_app_id t = app_id config).

Definition locked (config : Config) (withdrawalId merchant balance : Z) (st : St)
  : St :=
  {| db := with_table trade_withdrawals_tbl
             (sql_update (lock_cond config withdrawalId balance)
                         (set_merchant merchant)
                         (trade_withdrawals (db st)))
             (db st);
     trace := EvOpskinsGetBalance :: trace st |}.

(** Withdrawal 3 asking for four items. *)
Definition four_items : St :=
  withdrawal_world ["AK-47"; "AK-47"; "AK-47"; "AWP"] 300.

(** The same, of a user without a trade link. *)
Definition four_items_no_link : St :=
  {| db := with_users
             [{| steam_id := 7; trade_link_url := None; balance := 0 |}]
             (db four_items);
     trace := [] |}.

Definition marketplace_call (ev : Event) : bool :=
  match ev with
  | EvOpskinsGetBalance | EvOpskinsSearch _ | EvOpskinsBuyItems _ _
  | EvOpskinsWithdraw _ | EvOpskinsGetInventory _ | EvOpskinsGetLowestPrices
  | EvOpskinsGetListingLimit | EvOpskinsListItems _ => true
  | _ => false
  end.

(** Nobody sells what is searched for: every search succeeds with an empty
    list. *)
Definition sold_out : Env := with_search (fun _ _ => inr []) calm.

(** Withdrawal 3 asking for one AK-47. *)
Definition one_item : St := withdrawal_world ["AK-47"] 300.

(** ** The purchase guard *)

(** The last call on the trace is a search that OPSkins answered with a
    cheapest listing which trips the guard against the safe price of the
    name searched for. *)
Definition guard_hit (env : Env) (sp : gmap string Z) (tr : list Event) : bool :=
  match tr with
  | EvOpskinsSearch name :: before =>
    match opskins_search env before name, sp !! name with
    | inr (r0 :: _), Some safe => too_expensive r0 safe
    | _, _ => false
    end
  | _ => false
  end.

Definition emit (ev : Event) (s : St) : St :=
  {| db := db s; trace := ev :: trace s |}.

Definition not_search (ev : Event) : Prop :=
  match ev with
  | EvOpskinsSearch _ => False
  | _ => True
  end.

Section Guard.

Variables (env : Env) (sp : gmap string Z) (base : list Event).

(** No call follows a search that trips the guard. *)
Definition quiet (new : list Event) : Prop :=
  forall after upto,
    new = after ++ upto -> after <> [] -> upto <> [] ->
    guard_hit env sp (upto ++ base) = false.

Definition good (s : St) : Prop :=
  exists new, trace s = new ++ base /\ quiet new.

(** Good, and the guard is not tripped by the last call made since [base]:
    the run may go on. *)
Definition fresh (s : St) : Prop :=
  good s /\ (trace s <> base -> guard_hit env sp (trace s) = false).

Definition stays_fresh (s s' : St) : Prop := fresh s -> fresh s'.

(** The outcome of a run: its trace is good, and if its last call trips
    the guard then its result is [r0]. *)
Definition ends_with {A} (r0 : Res A) (p : Res A * St) : Prop :=
  good (snd p)
  /\ (trace (snd p) <> base -> guard_hit env sp (trace (snd p)) = true ->
      fst p = r0).

End Guard.

(** The cheapest AK-47 on sale costs 500 cents, five times its safe
    price. *)
Definition pricey : Env :=
  with_search
    (fun _ _ => inr [{| sale_id := 9; amount := 500; market_name := "AK-47" |}])
    calm.

Definition with_buy
    (f : list Event -> Z -> Z -> JsVal + (list Z * Z)) (e : Env) : Env :=
  {| steamID := steamID e; clock := clock e;
     getUserInventoryContents := getUserInventoryContents e;
     getUserDetails := getUserDetails e; send := send e;
     acceptConfirmationForObject := acceptConfirmationForObject e;
     opskins_getBalance := opskins_getBalance e;
     opskins_search := opskins_search e;
     opskins_buyItems := f;
     opskins_withdraw := opskins_withdraw e;
     opskins_scan := opskins_scan e;
     opskins_getLowestPrices := opskins_getLowestPrices e;
     opskins_getListingLimit := opskins_getListingLimit e |}.

(** The one listing found is gone by the time it is bought. *)
Definition stale_listing : Env :=
  with_buy (fun _ _ _ => inl (JsError "Sale no longer available")) calm.

(** Every row of the withdrawal has left the unclaimed state. *)
Definition claimed_by_a_merchant (withdrawalId : Z) (d : Db) : Prop :=
  forall t, t ∈ trade_withdrawals d -> trade_id t = withdrawalId ->
            merchant_steam_id t <> Some 1.

(** * Notions used by the further properties *)

(** ** Calls and results *)

Definition is_send (ev : Event) : bool :=
  match ev with
  | EvSendOffer _ => true
  | _ => false
  end.

(** The calls made between two states all satisfy [P]. *)
Definition emits (P : Event -> Prop) (st st' : St) : Prop :=
  extends P (trace st) (trace st').

(** Every value the computation may return satisfies [Q]. *)
Definition returns {A} (Q : A -> Prop) (m : M A) : Prop :=
  forall st, match fst (m st) with Ok a => Q a | _ => True end.

(** The [users] table is as it was. *)
Definition same_users (st st' : St) : Prop := users (db st') = users (db st).

(** ** Offers *)

(** An offer of the withdrawal workflow asks for no item and gives at
    least one and at most [MAX_WITHDRAWAL_SIZE] items, of pairwise
    different names. *)
Definition withdrawal_call (ev : Event) : Prop :=
  match ev with
  | EvSendOffer o =>
      their_items o = []
      /\ my_items o <> []
      /\ (length (my_items o) <= MAX_WITHDRAWAL_SIZE)%nat
      /\ NoDup (map market_hash_name (my_items o))
  | _ => True
  end.

(** The event credits a balance: a deposit offer accepted from a
    completable state. *)
Definition crediting (op : Op) : Prop :=
  match op with
  | Offer_changed offer oldState =>
      itemsToReceive offer <> []
      /\ offer_state offer = Accepted
      /\ oldState ∈ COMPLETABLE_STATES
  | _ => False
  end.

(** ** The life of a row *)

(** What an operation may do to a row of table [tb]: the identity, the
    owner, the items and the amounts stay; a time stamp that is set stays
    set; a claim that is made stays as it is. *)
Definition row_kept (tb : Table) (t t' : Trade) : Prop :=
  trade_id t' = trade_id t
  /\ row_app_id t' = row_app_id t
  /\ user_steam_id t' = user_steam_id t
  /\ _item_names t' = _item_names t
  /\ _total t' = _total t
  /\ _bonus t' = _bonus t
  /\ cancelled_at t' = cancelled_at t
  /\ (is_Some (offered_at t) -> is_Some (offered_at t'))
  /\ (is_Some (completed_at t) -> is_Some (completed_at t'))
  /\ (is_Some (failed_at t) -> is_Some (failed_at t'))
  /\ match tb with
     | trade_deposits_tbl =>
         is_Some (acknowledged_at t) ->
         acknowledged_at t' = acknowledged_at t
         /\ merchant_steam_id t' = merchant_steam_id t
     | trade_withdrawals_tbl =>
         acknowledged_at t' = acknowledged_at t
         /\ (merchant_steam_id t <> Some 1 ->
             merchant_steam_id t' = merchant_steam_id t)
     end.

Definition lifecycle (st st' : St) : Prop :=
  forall tb, Forall2 (row_kept tb) (table tb (db st)) (table tb (db st')).

Definition no_call (ev : Event) : Prop := False.

(** ** Cached prices *)

(** The price of a cache row in cents, as [_getDbCentPrices] rounds it. *)
Definition cents (r : PriceCacheRow) : Z := Math_round (base_price_usd r * 100)%Q.

(** The row is one that [_getDbCentPrices(minPrice, maxPrice)] selects
    from the store. *)
Definition selected (minPrice maxPrice : Q) (d : Db) (r : PriceCacheRow) : Prop :=
  r ∈ steam_item_price_cache d
  /\ blacklisted r = false
  /\ (minPrice <= base_price_usd r)%Q
  /\ (base_price_usd r <= maxPrice)%Q.

(** ** What the inventory fetch and the sourcing return *)

(** The items are as many as the asset ids asked for, and each carries
    one of these ids. *)
Definition requested (assetIds : list string) (items : list InvItem) : Prop :=
  length items = length assetIds
  /\ Forall (fun item => assetid item ∈ assetIds) items.

(** The result of sourcing [n] items for the [names] of a withdrawal:
    the names left are among [names]; the items are none, or [n] items of
    pairwise different names, all among [names], none of them left. *)
Definition sourced (names : list string) (n : nat)
    (r : list InvItem * list string) : Prop :=
  snd r ⊆ names
  /\ (fst r = []
      \/ (length (fst r) = n
          /\ NoDup (map market_hash_name (fst r))
          /\ Forall (fun item => market_hash_name item ∈ names) (fst r)
          /\ Forall (fun item => market_hash_name item ∉ snd r) (fst r))).

(** ** The offer of a deposit *)

(** A computation started in a state that satisfies [I] ends in a state
    related to it by [R]. *)
Definition preserves_from {A} (I : St -> Prop) (R : St -> St -> Prop) (m : M A)
  : Prop :=
  forall st, I st -> R st (snd (m st)).

(** The asset ids of the item rows of a deposit. *)
Definition deposit_asset_ids (items : list TradeItem) (depositId : Z) : list string :=
  map steam_asset_id
      (List.filter (fun i => bool_decide (item_trade_id i = depositId)) items).

(** The calls of the deposit workflow: Steam only, and an offer that
    gives nothing away and asks for the items of the deposit. *)
Definition deposit_call (assetIds : list string) (ev : Event) : Prop :=
  match ev with
  | EvGetUserInventoryContents _ | EvWebLogOn | EvGetUserDetails _ => True
  | EvSendOffer o => my_items o = [] /\ requested assetIds (their_items o)
  | _ => False
  end.

(** The calls made are those of a deposit with these asset ids, and the
    item rows of the deposits are as they were. *)
Definition asking (assetIds : list string) (st st' : St) : Prop :=
  emits (deposit_call assetIds) st st'
  /\ trade_deposit_items (db st') = trade_deposit_items (db st).

(** ** What is put on sale *)

(** A listing request made for [items] under the listing limit [liimt]:
    it is not empty and not longer than the limit; it lists asset ids of
    [items], in their order, each item at most once; and every entry
    carries the application and context of the configuration. *)
Definition put_on_sale (config : Config) (items : list InvItem) (liimt : Z)
    (listItems : list ToListItem) : Prop :=
  listItems <> []
  /\ Z.of_nat (length listItems) <= liimt
  /\ sublist (map li_assetid listItems) (map assetid items)
  /\ Forall (fun li => li_appid li = app_id config
                       /\ li_contextid li = context_id config) listItems.



(** An item of some inventory that Steam reports for the account. *)
Definition held (env : Env) (steamId : Z) (item : InvItem) : Prop :=
  exists tr inv,
    getUserInventoryContents env tr steamId = inr inv /\ item ∈ inv.

(** Every listed entry is an item the account holds whose name
    satisfies [ok]. *)
Definition lists_only (env : Env) (steamId : Z) (ok : string -> Prop)
    (ev : Event) : Prop :=
  match ev with
  | EvOpskinsListItems listItems =>
      Forall (fun li => exists item,
                held env steamId item
                /\ assetid item = li_assetid li
                /\ ok (market_hash_name item)) listItems
  | _ => True
  end.

(** The calls made list only such items, and the withdrawals are as
    they were. *)
Definition listing_only (env : Env) (steamId : Z) (ok : string -> Prop)
    (st st' : St) : Prop :=
  emits (lists_only env steamId ok) st st'
  /\ trade_withdrawals (db st') = trade_withdrawals (db st).


(** ** Purchases *)

(** The balance that OPSkins reported last on a trace (most recent call
    first): by the last purchase that went through or, before any, by the
    last balance query. *)
Fixpoint last_balance (env : Env) (tr : list Event) : option Z :=
  match tr with
  | [] => None
  | EvOpskinsGetBalance :: before =>
      match opskins_getBalance env before with
      | inr balance => Some balance
      | inl _ => last_balance env before
      end
  | EvOpskinsBuyItems saleid total :: before =>
      match opskins_buyItems env before saleid total with
      | inr (_, balance) => Some balance
      | inl _ => last_balance env before
      end
  | _ :: before => last_balance env before
  end.

(** The sale is a listing that a search for one of [names] returned: it
    bears the name searched for and [total] is its listed price. *)
Definition found (env : Env) (names : list string) (saleid total : Z) : Prop :=
  exists tr name results r,
    name ∈ names
    /\ opskins_search env tr name = inr results
    /\ r ∈ results
    /\ sale_id r = saleid /\ amount r = total /\ market_name r = name.

(** A purchase made after the calls [before] is of such a listing and
    costs no more than the balance reported last. *)
Definition buy_ok (env : Env) (names : list string) (ev : Event)
    (before : list Event) : Prop :=
  match ev with
  | EvOpskinsBuyItems saleid total =>
      found env names saleid total
      /\ exists balance,
           last_balance env before = Some balance /\ total <= balance
  | _ => True
  end.

Fixpoint affordable (env : Env) (names : list string) (new base : list Event)
  : Prop :=
  match new with
  | [] => True
  | ev :: rest =>
      buy_ok env names ev (rest ++ base) /\ affordable env names rest base
  end.

(** Every purchase made between the two states is [buy_ok] where it is
    made. *)
Definition buys_within (env : Env) (names : list string) (st st' : St) : Prop :=
  exists new, trace st' = new ++ trace st /\ affordable env names new (trace st).

(** The running balance of the purchase loop is the balance reported
    last. *)
Definition in_step (env : Env) (balance : Z) (st : St) : Prop :=
  last_balance env (trace st) = Some balance.

(** From a state that satisfies [Pre], the computation ends in a state
    related to it by [R] that satisfies [Q] of the value returned, or [E]
    when it throws. *)
Definition triple {A} (R : St -> St -> Prop) (Pre : St -> Prop) (m : M A)
    (Q : A -> St -> Prop) (E : St -> Prop) : Prop :=
  forall st, Pre st ->
    R st (snd (m st))
    /\ match fst (m st) with
       | Ok a => Q a (snd (m st))
       | Throw _ => E (snd (m st))
       | Pending => True
       end.

(** * Re-pricing the sales: [relistOpskinsItems] *)

(** A sale as [getSales] reports it; [last_updated] is in seconds. *)
Module OpskinsSale.
Record t : Type := {
  id : Z;
  name : string;
  price : Z;
  last_updated : Z
}.
End OpskinsSale.

Definition editMax : Z := 500.

(** [sale.last_updated > 0 ? sale.last_updated : sales.list_time]: the
    alternative reads [list_time] of the array [sales], which is
    [undefined] ([None]). *)
Definition updated (sale : OpskinsSale.t) : option Z :=
  if 0 <? OpskinsSale.last_updated sale then Some (OpskinsSale.last_updated sale)
  else None.

(** [diff >= 3600], with [diff = timestamp - updated]; the difference
    with [undefined] is [NaN], which no comparison accepts. *)
Definition idle (timestamp : Z) (sale : OpskinsSale.t) : bool :=
  match updated sale with
  | Some u => 3600 <=? timestamp - u
  | None => false
  end.

(** The [for] loop over the sales, from index [i] on; [now i] is what
    [Date.now()] reads in iteration [i], in milliseconds. *)
Fixpoint relist_loop (now : nat -> Z) (opPriceData : gmap string PriceEntry)
    (sales : list OpskinsSale.t) (i : nat) (items : gmap Z Z) (willEdit : Z)
  : gmap Z Z * Z :=
  match sales with
  | [] => (items, willEdit)
  | sale :: rest =>
    if willEdit =? editMax then (items, willEdit)
    else
      let timestamp := now i / 1000 in
      if idle timestamp sale then
        match opPriceData !! OpskinsSale.name sale with
        | Some entry =>
          if negb (price entry =? OpskinsSale.price sale) then
            relist_loop now opPriceData rest (S i)
              (<[OpskinsSale.id sale := price entry - 1]> items) (willEdit + 1)
          else relist_loop now opPriceData rest (S i) items willEdit
        | None => relist_loop now opPriceData rest (S i) items willEdit
        end
      else relist_loop now opPriceData rest (S i) items willEdit
  end.

(** What [relistOpskinsItems] passes to [editPrices], given what
    [getLowestPrices] and [getSales] answer; [None] when [editPrices] is
    not called. *)
Definition relistOpskinsItems (config : Config)
    (lowestPrices : JsVal + gmap string PriceEntry)
    (getSales : JsVal + list OpskinsSale.t) (now : nat -> Z)
  : option (gmap Z Z) :=
  match truthy (opskins_key config) with
  | None => None
  | Some _ =>
    match lowestPrices with
    | inl _ => None
    | inr opPriceData =>
      match getSales with
      | inl _ => None
      | inr sales =>
        let '(items, willEdit) := relist_loop now opPriceData sales 0 ∅ 0 in
        if 0 <? willEdit then Some items else None
      end
    end
  end.

(** The sale is one the loop re-prices when it reads the time
    [timestamp]: updated before, idle for an hour, and priced otherwise
    than the lowest price of its name. *)
Definition repriced (opPriceData : gmap string PriceEntry) (timestamp : Z)
    (sale : OpskinsSale.t) (p : Z) : Prop :=
  0 < OpskinsSale.last_updated sale
  /\ 3600 <= timestamp - OpskinsSale.last_updated sale
  /\ exists entry,
       opPriceData !! OpskinsSale.name sale = Some entry
       /\ price entry <> OpskinsSale.price sale
       /\ p = price entry - 1.

(** Two sales of the AK-47, both at 320 cents while the lowest price is
    300: one updated at second 1000, one never updated. *)
Definition two_sales : list OpskinsSale.t :=
  [{| OpskinsSale.id := 11; OpskinsSale.name := "AK-47";
      OpskinsSale.price := 320; OpskinsSale.last_updated := 1000 |};
   {| OpskinsSale.id := 12; OpskinsSale.name := "AK-47";
      OpskinsSale.price := 320; OpskinsSale.last_updated := 0 |}].

Definition ak47_lowest : gmap string PriceEntry :=
  {[ "AK-47" := {| price := 300; quantity := 400 |} ]}.

(** * The rows an event touches *)

(** Between the two states the rows of table [tb] keep their place and
    their trade id, and only rows whose trade id satisfies [P] change;
    the other trade table, the item rows and the price cache are as they
    were. *)
Definition touches (tb : Table) (P : Z -> Prop) (st st' : St) : Prop :=
  Forall2 (fun t t' => trade_id t' = trade_id t
                       /\ (~ P (trade_id t) -> t' = t))
          (table tb (db st)) (table tb (db st'))
  /\ (forall tb', tb' <> tb -> table tb' (db st') = table tb' (db st))
  /\ trade_deposit_items (db st') = trade_deposit_items (db st)
  /\ trade_withdrawal_items (db st') = trade_withdrawal_items (db st)
  /\ steam_item_price_cache (db st') = steam_item_price_cache (db st).

(** The trade table an offer event works on. *)
Definition table_of (offer : TradeOffer) : Table :=
  match itemsToReceive offer with
  | _ :: _ => trade_deposits_tbl
  | [] => trade_withdrawals_tbl
  end.

(** The trade ids of the rows of [tb] that were offered as [offerId]. *)
Definition offered_as (tb : Table) (offerId : string) (d : Db) (id : Z) : Prop :=
  exists t, t ∈ table tb d /\ steam_offer_id t = Some offerId /\ trade_id t = id.

(** * How often the marketplace is asked *)

Definition is_search (ev : Event) : bool :=
  match ev with
  | EvOpskinsSearch _ => true
  | _ => false
  end.

Definition is_buy (ev : Event) : bool :=
  match ev with
  | EvOpskinsBuyItems _ _ => true
  | _ => false
  end.

(** At most [k] of the calls made between the two states are of kind [P]. *)
Definition counted (P : Event -> bool) (k : nat) (st st' : St) : Prop :=
  exists new, trace st' = new ++ trace st /\ (length (List.filter P new) <= k)%nat.

(** The computation makes at most [k] calls of kind [P]. *)
Definition costs {A} (P : Event -> bool) (k : nat) (m : M A) : Prop :=
  forall st, counted P k st (snd (m st)).

(** * The Steam session: the [webSession] and [sessionExpired] handlers *)

Inductive SessionEvent : Type := webSession | sessionExpired.

(** One event: the new value of [_sessionHasExpired], and whether the
    handler calls [webLogOn]. *)
Definition session_event (_sessionHasExpired : bool) (ev : SessionEvent)
  : bool * bool :=
  match ev with
  | webSession => (false, false)
  | sessionExpired =>
      if _sessionHasExpired then (true, false) else (true, true)
  end.

(** The number of [webLogOn] calls the handlers make over the events. *)
Fixpoint logons (_sessionHasExpired : bool) (events : list SessionEvent) : nat :=
  match events with
  | [] => 0
  | ev :: rest =>
      let '(flag, logon) := session_event _sessionHasExpired ev in
      (if logon then 1 else 0) + logons flag rest
  end.

Definition sessions (events : list SessionEvent) : nat :=
  length (List.filter (fun ev => match ev with webSession => true | _ => false end)
                      events).

(** * The offers on record *)

(** What an operation may do to the offer columns of a row: leave them,
    or write what Steam answered to an offer that was sent. *)
Definition offer_recorded (t t' : Trade) : Prop :=
  (offered_at t' = offered_at t /\ steam_offer_id t' = steam_offer_id t)
  \/ exists env offer tr sent,
       send env tr offer = inr sent
       /\ offered_at t' = Some (sent_created sent)
       /\ steam_offer_id t' = Some (sent_id sent).

Definition offers_from_steam (st st' : St) : Prop :=
  forall tb, Forall2 offer_recorded (table tb (db st)) (table tb (db st')).

(** * Completion *)

(** The event is the acceptance of an offer, from a completable state. *)
Definition accepting (op : Op) : Prop :=
  match op with
  | Offer_changed offer oldState =>
      offer_state offer = Accepted /\ oldState ∈ COMPLETABLE_STATES
  | _ => False
  end.

(** No trade row has its [completed_at] changed. *)
Definition same_completion (st st' : St) : Prop :=
  forall tb, map completed_at (table tb (db st'))
             = map completed_at (table tb (db st)).

(** * Properties *)

(** ** Tables and statements *)

#[local] Arguments sql_update : simpl never.
#[local] Arguments sql_returning : simpl never.

Lemma St_eta (st : St) : {| db := db st; trace := trace st |} = st.
Proof. by destruct st. Qed.

Lemma with_table_same (tb : Table) (d : Db) : with_table tb (table tb d) d = d.
Proof. by destruct tb, d. Qed.

Lemma table_with_table (tb : Table) (rows : list Trade) (d : Db) :
  table tb (with_table tb rows d) = rows.
Proof. by destruct tb. Qed.

Lemma sql_update_no_match {R} (cond : R -> bool) (set : R -> R) (rows : list R) :
  (forall r, r ∈ rows -> cond r = false) ->
  sql_update cond set rows = rows /\ sql_returning cond set rows = [].
Proof.
  unfold sql_update, sql_returning.
  induction rows as [|r rows IH]; intros Hno; [done|].
  cbn. rewrite (Hno r) by apply list_elem_of_here.
  destruct IH as [IH1 IH2].
  - intros r' Hr'. apply Hno. by apply list_elem_of_further.
  - by rewrite IH1, IH2.
Qed.

Lemma sql_returning_match {R} (cond : R -> bool) (set : R -> R) (rows : list R) r' :
  r' ∈ sql_returning cond set rows ->
  exists r, r ∈ rows /\ cond r = true /\ r' = set r.
Proof.
  unfold sql_returning. intros Hin.
  apply list_elem_of_fmap in Hin as (r & -> & Hr).
  apply list_elem_of_In, filter_In in Hr as [Hr Hc].
  exists r. by rewrite list_elem_of_In.
Qed.

Lemma update_trades_no_match (tb : Table) cond set (st : St) :
  (forall t, t ∈ table tb (db st) -> cond t = false) ->
  update_trades tb cond set st = (Ok [], st).
Proof.
  intros Hno. unfold update_trades.
  destruct (sql_update_no_match cond set _ Hno) as [-> ->].
  by rewrite with_table_same, St_eta.
Qed.

(** ** The claim of a deposit (C3) *)

Lemma acknowledgeDeposit_acknowledged config env merchant depositId st :
  acknowledged depositId (db st) ->
  acknowledgeDeposit config env merchant depositId st = (Ok None, st).
Proof.
  intros Hack. unfold acknowledgeDeposit, new_Date, oneOrNone, bind.
  rewrite update_trades_no_match; [done|].
  intros t Ht. cbn in Ht.
  destruct (bool_decide (trade_id t = depositId)) eqn:Hid; [|done].
  apply bool_decide_eq_true in Hid. specialize (Hack t Ht Hid).
  destruct (acknowledged_at t); [|done].
  by rewrite andb_false_r.
Qed.

Lemma startDeposit_acknowledged config env depositId st :
  acknowledged depositId (db st) ->
  startDeposit config env depositId st = (Ok tt, st).
Proof.
  intros Hack. unfold startDeposit.
  destruct (steamID env) as [merchant|]; [|done].
  unfold bind at 1. by rewrite acknowledgeDeposit_acknowledged.
Qed.

Lemma filter_unique_key {R} (key : R -> Z) (cond : R -> bool) (k : Z)
    (rows : list R) :
  NoDup (map key rows) ->
  (forall r, cond r = true -> key r = k) ->
  List.filter cond rows = []
  \/ exists r, List.filter cond rows = [r] /\ r ∈ rows /\ cond r = true.
Proof.
  intros Hnd Hk. induction rows as [|r rows IH]; [by left|].
  cbn in Hnd. apply NoDup_cons in Hnd as [Hr Hnd].
  cbn. destruct (cond r) eqn:Hc.
  - right. exists r. split_and!; [|apply list_elem_of_here|done].
    f_equal. destruct (IH Hnd) as [->|(r' & _ & Hin & Hc')]; [done|].
    exfalso. apply Hr. apply list_elem_of_fmap. exists r'.
    by rewrite (Hk r Hc), (Hk r' Hc').
  - destruct (IH Hnd) as [->|(r' & -> & Hin & Hc')]; [by left|].
    right. exists r'. split_and!; [done|by apply list_elem_of_further|done].
Qed.

Lemma sql_update_key {R} (key : R -> Z) (cond : R -> bool) (set : R -> R)
    (rows : list R) :
  (forall r, key (set r) = key r) ->
  map key (sql_update cond set rows) = map key rows.
Proof.
  intros Hkey. unfold sql_update. rewrite <- list_fmap_compose.
  apply list_fmap_ext. intros i r _. cbn. by destruct (cond r).
Qed.

Lemma NoDup_key_inj {R} (key : R -> Z) (rows : list R) r1 r2 :
  NoDup (map key rows) -> r1 ∈ rows -> r2 ∈ rows -> key r1 = key r2 -> r1 = r2.
Proof.
  induction rows as [|r rows IH]; intros Hnd H1 H2 Hk.
  - by apply elem_of_nil in H1.
  - cbn in Hnd. apply NoDup_cons in Hnd as [Hr Hnd].
    apply elem_of_cons in H1 as [->|H1]; apply elem_of_cons in H2 as [->|H2].
    + done.
    + exfalso. apply Hr. rewrite Hk. apply list_elem_of_fmap. by exists r2.
    + exfalso. apply Hr. rewrite <- Hk. apply list_elem_of_fmap. by exists r1.
    + by apply IH.
Qed.

Lemma acknowledgeDeposit_cases config env merchant depositId st :
  NoDup (map trade_id (trade_deposits (db st))) ->
  let '(r, st') := acknowledgeDeposit config env merchant depositId st in
  NoDup (map trade_id (trade_deposits (db st')))
  /\ ((r = Ok None /\ st' = st)
      \/ (exists t, r = Ok (Some t) /\ acknowledged depositId (db st'))).
Proof.
  intros Hnd.
  unfold acknowledgeDeposit, new_Date, oneOrNone, bind, update_trades. cbn.
  set (cond := fun t : Trade => _ && _ && _).
  set (upd := set_acknowledged _ _).
  assert (Hkey : forall r, cond r = true -> trade_id r = depositId).
  { intros r Hr. unfold cond in Hr.
    apply andb_prop in Hr as [Hr _]. apply andb_prop in Hr as [Hr _].
    by apply bool_decide_eq_true in Hr. }
  destruct (filter_unique_key trade_id cond depositId _ Hnd Hkey)
    as [Hnil|(t0 & Hone & Hin & Hc)].
  - assert (Hno : forall r, r ∈ trade_deposits (db st) -> cond r = false).
    { intros r Hr. destruct (cond r) eqn:Hc; [|done].
      assert (Hf : In r (List.filter cond (trade_deposits (db st)))).
      { apply filter_In. by rewrite <- list_elem_of_In. }
      rewrite Hnil in Hf. destruct Hf. }
    destruct (sql_update_no_match cond upd _ Hno) as [Hu Hr].
    rewrite Hr, Hu. cbn.
    split; [done|left; split; [done|by destruct st as [[]]]].
  - unfold sql_returning. rewrite Hone. cbn. split.
    + by rewrite (sql_update_key trade_id).
    + right. eexists. split; [done|].
      intros t' Ht' Hid Hnone. cbn in Ht'.
      unfold sql_update in Ht'. apply list_elem_of_fmap in Ht' as (t & -> & Ht).
      destruct (cond t) eqn:Hct; [done|].
      assert (t = t0) as ->.
      { apply (NoDup_key_inj trade_id (trade_deposits (db st))); try done.
        by rewrite (Hkey t0 Hc). }
      congruence.
Qed.

#[local] Arguments acknowledgeDeposit : simpl never.

Lemma claim_all_acknowledged ms depositId st :
  acknowledged depositId (db st) ->
  List.filter claim_granted (fst (claim_all ms depositId st)) = [].
Proof.
  intros Hack. induction ms as [|m ms IH]; [done|].
  cbn. rewrite acknowledgeDeposit_acknowledged by done.
  destruct (claim_all ms depositId st) as [rs st'']. cbn in *. done.
Qed.

(** C3.  The claim of a deposit is a compare-and-set on the acknowledgment
    column.  With [id] the key of [trade_deposits]: of any number of claims
    of one deposit, made one after the other by any merchants, at most one
    is granted; and on a deposit that is already acknowledged the claim
    reports no row, and [startDeposit] returns with the store and the
    trace as they were (nothing written, no call made, no offer). *)
Theorem deposit_claim_compare_and_set (ms : list Merchant) (m : Merchant)
    (depositId : Z) (st : St) :
  NoDup (map trade_id (trade_deposits (db st))) ->
  (length (List.filter claim_granted (fst (claim_all ms depositId st))) <= 1)%nat
  /\ (acknowledged depositId (db st) ->
      acknowledgeDeposit (m_config m) (m_env m) (m_steam_id m) depositId st
        = (Ok None, st)
      /\ startDeposit (m_config m) (m_env m) depositId st = (Ok tt, st)).
Proof.
  intros Hnd. split.
  - revert st Hnd. induction ms as [|m' ms IH]; intros st Hnd; [cbn; lia|].
    cbn.
    pose proof (acknowledgeDeposit_cases (m_config m') (m_env m')
                  (m_steam_id m') depositId st Hnd) as Hc.
    destruct (acknowledgeDeposit _ _ _ _ st) as [r st'].
    destruct Hc as [Hnd' [[-> ->]|(t & -> & Hack)]].
    + specialize (IH st Hnd).
      destruct (claim_all ms depositId st) as [rs st'']. cbn in *. done.
    + pose proof (claim_all_acknowledged ms depositId st' Hack) as Hnone.
      destruct (claim_all ms depositId st') as [rs st'']. cbn in *.
      rewrite Hnone. cbn. lia.
  - intros Hack. split.
    + by apply acknowledgeDeposit_acknowledged.
    + by apply startDeposit_acknowledged.
Qed.

Lemma deposit_claim_witness :
  (length (List.filter claim_granted
             (fst (claim_all [merchant_900; merchant_901] 1 deposit_world))) <= 1)%nat
  /\ startDeposit cfg calm 1 deposit_world = (Ok tt, deposit_world).
Proof.
  destruct (deposit_claim_compare_and_set [merchant_900; merchant_901]
              merchant_900 1 deposit_world) as [H1 H2].
  - apply NoDup_singleton.
  - split; [exact H1|]. apply H2.
    intros t Ht _. apply list_elem_of_singleton in Ht as ->. done.
Defined.

(** Two merchants race for the unclaimed deposit 1: the first is granted
    the row, the second is told there is none. *)
Example deposit_claimed_once :
  map claim_granted
      (fst (claim_all [merchant_900; merchant_901] 1 new_deposit_world))
  = [true; false].
Proof. reflexivity. Qed.

(** ** Computations and what they preserve *)

Section Preserves.

Context (R : St -> St -> Prop) `{!PreOrder R}.

Lemma preserves_ret {A} (a : A) : preserves R (ret a).
Proof. intros st. reflexivity. Qed.

Lemma preserves_throw {A} e : preserves R (@throw A e).
Proof. intros st. reflexivity. Qed.

Lemma preserves_lift_res {A} (r : Res A) : preserves R (lift_res r).
Proof. intros st. reflexivity. Qed.

Lemma preserves_settle {A} (o : option A) : preserves R (settle o).
Proof. intros st. destruct o; reflexivity. Qed.

Lemma preserves_read_db : preserves R read_db.
Proof. intros st. reflexivity. Qed.

Lemma preserves_new_Date env : preserves R (new_Date env).
Proof. intros st. reflexivity. Qed.

Lemma preserves_bind {A B} (m : M A) (k : A -> M B) :
  preserves R m -> (forall a, preserves R (k a)) -> preserves R (bind m k).
Proof.
  intros Hm Hk st. unfold bind. specialize (Hm st).
  destruct (m st) as [[a|e|] st']; cbn in *; [|done..].
  etrans; [exact Hm|apply Hk].
Qed.

Lemma preserves_try_catch {A} (m : M A) (h : JsVal -> M A) :
  preserves R m -> (forall e, preserves R (h e)) -> preserves R (try_catch m h).
Proof.
  intros Hm Hh st. unfold try_catch. specialize (Hm st).
  destruct (m st) as [[a|e|] st']; cbn in *; [done| |done].
  etrans; [exact Hm|apply Hh].
Qed.

Lemma preserves_detached {A} (m : M A) :
  preserves R m -> preserves R (detached m).
Proof. intros Hm st. apply Hm. Qed.

Lemma preserves_in_callback {A} (m : M A) :
  preserves R m -> preserves R (in_callback m).
Proof.
  intros Hm st. unfold in_callback. specialize (Hm st).
  by destruct (m st) as [[a|e|] st'].
Qed.

Lemma preserves_select {X} (rows : Db -> list X) cond :
  preserves R (select rows cond).
Proof. intros st. reflexivity. Qed.

End Preserves.

(** One step of a proof that a computation preserves a relation: split
    the computation at its head, case on what it branches on. *)
Ltac preserves_step :=
  lazymatch goal with
  | |- preserves _ (bind _ _) =>
      apply preserves_bind; [try apply _ .. | intros ?]
  | |- preserves _ (try_catch _ _) =>
      apply preserves_try_catch; [try apply _ .. | intros ?]
  | |- preserves _ (ret _) => apply preserves_ret; apply _
  | |- preserves _ (throw _) => apply preserves_throw; apply _
  | |- preserves _ (lift_res _) => apply preserves_lift_res; apply _
  | |- preserves _ (settle _) => apply preserves_settle; apply _
  | |- preserves _ read_db => apply preserves_read_db; apply _
  | |- preserves _ (new_Date _) => apply preserves_new_Date; apply _
  | |- preserves _ (select _ _) => apply preserves_select; apply _
  | |- preserves _ (detached _) => apply preserves_detached
  | |- preserves _ (in_callback _) => apply preserves_in_callback
  | |- preserves _ (match ?x with _ => _ end) => destruct x
  | |- preserves _ (one _) => unfold one
  | |- preserves _ (oneOrNone _) => unfold oneOrNone
  | |- preserves _ (many _) => unfold many
  | |- preserves _ (manyOrNone _) => unfold manyOrNone
  | |- preserves _ (none _) => unfold none
  | |- preserves _ (call_async _ _) => unfold call_async
  end.

(** *** The store is untouched by the bridge and by the inventory fetches *)

#[local] Instance same_db_preorder : PreOrder same_db.
Proof.
  split; [by intros st|].
  intros a b c Hab Hbc. unfold same_db in *. congruence.
Qed.

Lemma same_db_call {X} ev (answer : list Event -> X) :
  preserves same_db (call ev answer).
Proof. by intros st. Qed.

Ltac same_db_auto :=
  repeat first
    [ by apply same_db_call
    | preserves_step ].

Lemma same_db_getDbCentPrices lo hi :
  preserves same_db (_getDbCentPrices lo hi).
Proof. unfold _getDbCentPrices. same_db_auto. Qed.

Lemma same_db_listItemsToOpskins config env items :
  preserves same_db (_listItemsToOpskins config env items).
Proof.
  unfold _listItemsToOpskins, _listItems.
  same_db_auto; by apply same_db_getDbCentPrices.
Qed.

Lemma same_db_list_after_acquisition config env :
  preserves same_db (list_after_acquisition config env).
Proof.
  unfold list_after_acquisition, getUserInventoryAsync, _reconnectToSteam,
    _currentWithdrawalsItems.
  same_db_auto; by apply same_db_listItemsToOpskins.
Qed.

(** ** Completion of a deposit (C2) *)

Lemma balances_sql_update steamId total bonus (us : list User) :
  map balance
    (List.filter (fun u => bool_decide (steam_id u = steamId))
       (sql_update (fun u => bool_decide (steam_id u = steamId))
                   (add_balance total bonus) us))
  = map (fun b => b + total + bonus)
      (map balance (List.filter (fun u => bool_decide (steam_id u = steamId)) us)).
Proof.
  unfold sql_update. induction us as [|u us IH]; [done|].
  cbn. destruct (bool_decide (steam_id u = steamId)) eqn:Hu; cbn.
  - rewrite Hu. cbn. by rewrite IH.
  - by rewrite Hu.
Qed.

Lemma completeDeposit_ignored config env offer oldState st :
  oldState ∉ COMPLETABLE_STATES ->
  completeDeposit config env offer oldState st = (Ok tt, st).
Proof.
  intros Hold. unfold completeDeposit. by rewrite bool_decide_eq_true_2.
Qed.

(** C2, as the code has it.  When an offer reaches [Accepted] from
    [Active] or [CreatedNeedsConfirmation], the balance of the owner of
    its deposit grows by the total plus the bonus; and an event whose prior
    state is neither of the two is ignored: nothing is written and no call
    is made.  Nothing else guards the credit. *)
Theorem deposit_credit config env offer oldState deposit st :
  oldState ∈ COMPLETABLE_STATES ->
  offer_state offer = Accepted ->
  List.filter (fun t => col_eq (steam_offer_id t) (offer_id offer))
              (trade_deposits (db st)) = [deposit] ->
  balances (user_steam_id deposit)
           (db (snd (completeDeposit config env offer oldState st)))
  = map (fun b => b + _total deposit + _bonus deposit)
        (balances (user_steam_id deposit) (db st))
  /\ forall offer' oldState' st',
       oldState' ∉ COMPLETABLE_STATES ->
       completeDeposit config env offer' oldState' st' = (Ok tt, st').
Proof.
  intros Hold Hacc Hsel. split; [|intros; by apply completeDeposit_ignored].
  unfold completeDeposit.
  rewrite bool_decide_eq_false_2 by (intros Hn; by apply Hn).
  unfold bind at 1. unfold one, select, bind at 1, read_db, bind at 1, ret.
  rewrite Hsel, Hacc.
  unfold bind at 1, update_users. unfold bind at 1, new_Date.
  unfold bind at 1, none, bind at 1, update_trades, ret.
  match goal with
  | |- context [list_after_acquisition config env ?s] =>
      pose proof (same_db_list_after_acquisition config env s) as Hdb;
      destruct (list_after_acquisition config env s) as [r st2]
  end.
  unfold same_db in Hdb. cbn in Hdb. cbn. rewrite Hdb.
  unfold balances. cbn. apply balances_sql_update.
Qed.

Lemma deposit_credit_witness :
  balances 7 (db (snd (completeDeposit cfg calm (offer_1 Accepted) Active
                         deposit_world))) = [105].
Proof.
  destruct (deposit_credit cfg calm (offer_1 Accepted) Active offered_deposit
              deposit_world) as [H _].
  - vm_compute. apply list_elem_of_here.
  - reflexivity.
  - reflexivity.
  - exact H.
Defined.

(** C2, as stated, fails: the same transition delivered twice (prior state
    [Active] both times) credits Alice twice. *)
Lemma deposit_credited_twice :
  let once :=
    snd (completeDeposit cfg calm (offer_1 Accepted) Active deposit_world) in
  let twice := snd (completeDeposit cfg calm (offer_1 Accepted) Active once) in
  balances 7 (db deposit_world) = [0]
  /\ balances 7 (db once) = [0 + 100 + 5]
  /\ balances 7 (db twice) = [210].
Proof. vm_compute. done. Qed.

(** ** The lock of a withdrawal (C4) *)

(** C4.  The lock of a withdrawal is granted only if some unclaimed row of
    the withdrawal has a total that the OPSkins balance covers; and when
    the balance is below the total of every row of the withdrawal, the
    update matches nothing, the lock resolves to false, and
    [startWithdrawal] ends there: the store is as it was and the balance
    query is the only call made. *)
Theorem withdrawal_lock_needs_balance config env withdrawalId merchant st :
  (fst (_lockWithdrawal config env withdrawalId merchant st) = Ok true ->
   exists balance t,
     opskins_getBalance env (trace st) = inr balance
     /\ t ∈ trade_withdrawals (db st)
     /\ trade_id t = withdrawalId
     /\ merchant_steam_id t = Some 1
     /\ _total t <= balance)
  /\ (forall balance,
        opskins_getBalance env (trace st) = inr balance ->
        (forall t, t ∈ trade_withdrawals (db st) ->
                   trade_id t = withdrawalId -> balance < _total t) ->
        let asked := {| db := db st; trace := EvOpskinsGetBalance :: trace st |} in
        _lockWithdrawal config env withdrawalId merchant st = (Ok false, asked)
        /\ startWithdrawal config env withdrawalId st
           = (Ok tt, match steamID env with Some _ => asked | None => st end)).
Proof.
  split.
  - unfold _lockWithdrawal, in_callback, bind at 1, call. cbn.
    destruct (opskins_getBalance env (trace st)) as [err|balance]; [done|].
    unfold oneOrNone, bind, update_trades. cbn.
    set (cond := fun t : Trade => _ && _ && _ && _).
    destruct (sql_returning cond _ _) as [|t' [|? ?]] eqn:Hret; cbn; [done| |done].
    destruct (bool_decide (trade_id t' = withdrawalId)); cbn; [|done].
    intros _.
    assert (Hin : t' ∈ sql_returning cond (set_merchant merchant)
                         (trade_withdrawals (db st)))
      by (rewrite Hret; apply list_elem_of_here).
    apply sql_returning_match in Hin as (t & Ht & Hc & _).
    unfold cond in Hc.
    apply andb_prop in Hc as [Hc _]. apply andb_prop in Hc as [Hc Htot].
    apply andb_prop in Hc as [Hid Hm].
    apply bool_decide_eq_true in Hid. apply Z.leb_le in Htot.
    exists balance, t. split_and!; try done.
    unfold col_eq in Hm. destruct (merchant_steam_id t) as [x|]; [|done].
    apply bool_decide_eq_true in Hm. by subst.
  - intros balance Hbal Hlow asked.
    assert (Hlock : forall m,
               _lockWithdrawal config env withdrawalId m st = (Ok false, asked)).
    { intros m. unfold _lockWithdrawal, in_callback, bind at 1, call.
      cbn [fst snd]. rewrite Hbal.
      unfold oneOrNone, bind.
      rewrite update_trades_no_match; [done|].
      intros t Ht. cbn in Ht.
      destruct (bool_decide (trade_id t = withdrawalId)) eqn:Hid; [|done].
      apply bool_decide_eq_true in Hid. specialize (Hlow t Ht Hid).
      replace (_total t <=? balance) with false by (symmetry; apply Z.leb_gt; lia).
      by rewrite andb_false_r. }
    split; [done|].
    unfold startWithdrawal. destruct (steamID env) as [m|]; [|done].
    unfold bind at 1. by rewrite Hlock.
Qed.

Lemma withdrawal_lock_witness :
  startWithdrawal cfg calm 3 (withdrawal_world ["AK-47"] 5000)
  = (Ok tt, {| db := db (withdrawal_world ["AK-47"] 5000);
               trace := [EvOpskinsGetBalance] |}).
Proof.
  destruct (withdrawal_lock_needs_balance cfg calm 3 900
              (withdrawal_world ["AK-47"] 5000)) as [_ H].
  destruct (H 1000) as [_ H2].
  - reflexivity.
  - intros t Ht _. apply list_elem_of_singleton in Ht as ->. reflexivity.
  - exact H2.
Defined.

(** ** The inventory fetch of a deposit (C7) *)

(** C7 does not hold of the code.  When the first fetch fails, the branch
    that retries drops what the retry returns: [items] stays empty, the
    length test fails, and the fetch throws although the retry has found
    every requested asset. *)
Theorem fetch_retry_is_lost env steamId assetIds st err :
  getUserInventoryContents env (trace st) steamId = inl err ->
  assetIds <> [] ->
  (exists e, fst (_fetchInventoryItems env steamId assetIds true st) = Throw e)
  /\ forall inv,
       getUserInventoryContents env
         (EvWebLogOn :: EvGetUserInventoryContents steamId :: trace st) steamId
         = inr inv ->
       length (List.filter (fun item => bool_decide (assetid item ∈ assetIds)) inv)
         = length assetIds ->
       fst (_fetchInventoryItems env steamId assetIds true st)
         = Throw (JsError "One or more requested items do not exist in inventory").
Proof.
  intros Hfirst Hne.
  destruct assetIds as [|a assetIds]; [done|].
  unfold _fetchInventoryItems, _fetchInventoryItems_body, getUserInventoryAsync,
    _reconnectToSteam, call_async, call, try_catch, bind, throw, ret.
  cbn. rewrite Hfirst. cbn.
  destruct (getUserInventoryContents env
              (EvWebLogOn :: EvGetUserInventoryContents steamId :: trace st)
              steamId) as [err2|inv] eqn:Hsecond; cbn.
  - split; [eauto|done].
  - case_bool_decide as Hl; cbn.
    + split; [eauto|]. by intros inv' [= <-] Hall.
    + split; [eauto|done].
Qed.

Lemma fetch_retry_is_lost_witness :
  fst (_fetchInventoryItems stale_once 7 ["a1"; "a2"] true new_deposit_world)
  = Throw (JsError "One or more requested items do not exist in inventory").
Proof.
  destruct (fetch_retry_is_lost stale_once 7 ["a1"; "a2"] new_deposit_world
              (JsError "Not Logged In")) as [_ H]; [reflexivity|done|].
  apply (H [ak47; awp]); reflexivity.
Defined.

(** The deposit of the example fails for good although the retry found
    both assets; no offer is sent. *)
Example stale_session_fails_deposit :
  let st' := snd (startDeposit cfg stale_once 1 new_deposit_world) in
  failures trade_deposits_tbl 1 (db st')
    = [(Some 3, Some "One or more requested items do not exist in inventory")]
  /\ trace st' = [EvGetUserInventoryContents 7; EvWebLogOn;
                  EvGetUserInventoryContents 7].
Proof. vm_compute. done. Qed.

(** ** Listing after an acquisition (C9, C10) *)

Lemma getDbCentPrices_pure lo hi st :
  exists prices,
    forall tr, _getDbCentPrices lo hi {| db := db st; trace := tr |}
               = (Ok prices, {| db := db st; trace := tr |}).
Proof.
  unfold _getDbCentPrices, manyOrNone, select, bind, read_db, ret. cbn.
  destruct (List.filter _ _); eauto.
Qed.

Lemma getDbCentPrices_safe_prices st :
  _getDbCentPrices 0%Q 10000%Q st = (Ok (safe_prices (db st)), st).
Proof.
  destruct (getDbCentPrices_pure 0%Q 10000%Q st) as [prices H].
  unfold safe_prices. rewrite H. cbn. destruct st as [d tr]. apply H.
Qed.

Lemma undervalued_cents op sp :
  Qle_bool (inject_Z (price op)) (inject_Z sp * 0.65)%Q = true
  <-> undervalued op sp.
Proof. unfold undervalued. apply Qle_bool_iff. Qed.

Lemma ceil_105 (a : Z) :
  21 * a <= 20 * Math_ceil (inject_Z a * 1.05)%Q < 21 * a + 20.
Proof.
  unfold Math_ceil, Qceiling, Qfloor, Qopp, Qmult, inject_Z. cbn.
  Z.div_mod_to_equations. lia.
Qed.

Lemma ceil_1 (a : Z) : Math_ceil (inject_Z a * 1)%Q = a.
Proof.
  unfold Math_ceil, Qceiling, Qfloor, Qopp, Qmult, inject_Z. cbn.
  Z.div_mod_to_equations. lia.
Qed.

Lemma listing_price_by_rule op sp :
  priced_by_rule op sp
    (listing_price op sp (if quantity op <=? 12 then 1.05%Q else 1%Q)).
Proof.
  unfold priced_by_rule, listing_price.
  destruct (Qle_bool _ _) eqn:Hu.
  - left. by rewrite <- undervalued_cents.
  - right.
    assert (~ undervalued op sp) as Hn
      by (rewrite <- undervalued_cents; congruence).
    destruct (quantity op <=? 12) eqn:Hq.
    + left. apply Z.leb_le in Hq. do 3 (split; [done|]). apply ceil_105.
    + right. apply Z.leb_gt in Hq. split; [done|]. split; [lia|]. apply ceil_1.
Qed.

Lemma listing_loop_by_rule config liimt op sp all items acc l :
  (forall x, x ∈ items -> x ∈ all) ->
  Forall (listed_by_rule op sp all) acc ->
  listing_loop config liimt op sp items acc = Ok l ->
  Forall (listed_by_rule op sp all) l.
Proof.
  revert acc. induction items as [|item items IH]; intros acc Hsub Hacc Hrun.
  - cbn in Hrun. by injection Hrun as <-.
  - cbn in Hrun. destruct (_ <? liimt); [|by injection Hrun as <-].
    destruct (op !! market_hash_name item) as [entry|] eqn:Hop; [|done].
    destruct (sp !! market_hash_name item) as [safe|] eqn:Hsp.
    + eapply IH; [| |exact Hrun].
      * intros x Hx. apply Hsub. by apply list_elem_of_further.
      * apply Forall_app. split; [done|]. apply Forall_singleton.
        exists item, entry, safe. split_and!; try done.
        -- apply Hsub, list_elem_of_here.
        -- apply listing_price_by_rule.
    + eapply IH; [|done|exact Hrun].
      intros x Hx. apply Hsub. by apply list_elem_of_further.
Qed.

(** What one run of [_listItemsToOpskins] does, path by path. *)
Lemma listItemsToOpskins_run config env items st :
  _listItemsToOpskins config env items st =
  let asked tr := {| db := db st; trace := tr |} in
  let tr1 := EvOpskinsGetLowestPrices :: trace st in
  let tr2 := EvOpskinsGetListingLimit :: tr1 in
  match opskins_getLowestPrices env (trace st) with
  | inl _ => (Ok tt, asked tr1)
  | inr opPriceData =>
    let '(errll, liimt) := opskins_getListingLimit env tr1 in
    if negb (is_null errll) || (liimt <=? 0) then (Ok tt, asked tr2)
    else
      match safe_prices (db st) with
      | None => (Ok tt, asked tr2)
      | Some spPriceData =>
        match listing_loop config liimt opPriceData spPriceData items [] with
        | Ok [] => (Ok tt, asked tr2)
        | Ok listItems => (Ok tt, asked (EvOpskinsListItems listItems :: tr2))
        | Throw e => (Throw e, asked tr2)
        | Pending => (Pending, asked tr2)
        end
      end
  end.
Proof.
  unfold _listItemsToOpskins, bind at 1, call at 1. cbn [fst snd].
  destruct (opskins_getLowestPrices env (trace st)) as [err|opPriceData]; [done|].
  unfold bind at 1, call at 1. cbn [trace db].
  destruct (opskins_getListingLimit env _) as [errll liimt].
  destruct (negb (is_null errll) || (liimt <=? 0)); [done|].
  unfold bind at 1. rewrite getDbCentPrices_safe_prices. cbn [db].
  destruct (safe_prices (db st)) as [spPriceData|]; [|done].
  unfold bind, lift_res.
  by destruct (listing_loop _ _ _ _ _ _) as [[|li l]| |].
Qed.

(** C9, as the code has it.  Every item that one run of
    list-after-acquisition puts on sale has an external and a safe price
    and is priced by the rule: the safe price when the external lowest
    price is at most 65% of it; otherwise the external lowest price times
    1.05 rounded up when at most 12 are on sale, so less than one cent
    above 1.05 times that price; otherwise the external lowest price. *)
Theorem listing_prices_follow_rule config env items st listItems tr :
  trace (snd (_listItemsToOpskins config env items st))
    = EvOpskinsListItems listItems :: tr ->
  exists opPriceData spPriceData,
    opskins_getLowestPrices env (trace st) = inr opPriceData
    /\ safe_prices (db st) = Some spPriceData
    /\ Forall (listed_by_rule opPriceData spPriceData items) listItems.
Proof.
  rewrite listItemsToOpskins_run. cbn zeta.
  destruct (opskins_getLowestPrices env (trace st)) as [err|opPriceData]; [done|].
  destruct (opskins_getListingLimit env _) as [errll liimt].
  destruct (negb (is_null errll) || (liimt <=? 0)); [done|].
  destruct (safe_prices (db st)) as [spPriceData|]; [|done].
  destruct (listing_loop _ _ _ _ _ _) as [[|li l]| |] eqn:Hloop; try done.
  cbn. intros [= <- <-].
  exists opPriceData, spPriceData. split_and!; [done..|].
  by eapply listing_loop_by_rule.
Qed.

Lemma listing_loop_throws config liimt op sp pre item post acc :
  (forall x, x ∈ pre -> is_Some (op !! market_hash_name x)) ->
  Z.of_nat (length acc + length pre) < liimt ->
  op !! market_hash_name item = None ->
  listing_loop config liimt op sp (pre ++ item :: post) acc
  = Throw (TypeError_undefined "quantity").
Proof.
  revert acc. induction pre as [|x pre IH]; intros acc Hpre Hlim Hnone.
  - cbn. rewrite Hnone.
    by replace (Z.of_nat (length acc) <? liimt) with true
      by (symmetry; apply Z.ltb_lt; lia).
  - cbn [app listing_loop].
    replace (Z.of_nat (length acc) <? liimt) with true
      by (symmetry; apply Z.ltb_lt; cbn in Hlim; lia).
    destruct (Hpre x) as [entry Hentry]; [apply list_elem_of_here|].
    rewrite Hentry.
    assert (Hpre' : forall y, y ∈ pre -> is_Some (op !! market_hash_name y))
      by (intros y Hy; apply Hpre; by apply list_elem_of_further).
    destruct (sp !! market_hash_name x).
    + apply IH; [done| |done]. rewrite length_app. cbn in *. lia.
    + apply IH; [done| |done]. cbn in *. lia.
Qed.

Lemma listing_loop_visits_priced config liimt op sp items acc l :
  listing_loop config liimt op sp items acc = Ok l ->
  Z.of_nat (length l) < liimt ->
  Forall (fun x => is_Some (op !! market_hash_name x)) items
  /\ map li_assetid l
     = map li_assetid acc
       ++ map assetid
            (List.filter (fun x => bool_decide (is_Some (sp !! market_hash_name x)))
                         items).
Proof.
  revert acc. induction items as [|item items IH]; intros acc Hrun Hlim.
  - cbn in Hrun. injection Hrun as <-. cbn. by rewrite app_nil_r.
  - cbn in Hrun. destruct (_ <? liimt) eqn:Hlt.
    2:{ injection Hrun as <-. apply Z.ltb_ge in Hlt. lia. }
    destruct (op !! market_hash_name item) as [entry|] eqn:Hop; [|done].
    cbn [List.filter].
    destruct (sp !! market_hash_name item) as [safe|] eqn:Hsp.
    + destruct (IH _ Hrun Hlim) as [Hall Hmap]. split.
      * apply Forall_cons. split; [by rewrite Hop|done].
      * rewrite Hmap, map_app. cbn. by rewrite <- app_assoc.
    + destruct (IH _ Hrun Hlim) as [Hall Hmap]. split.
      * apply Forall_cons. split; [by rewrite Hop|done].
      * by rewrite Hmap.
Qed.

Lemma listing_prices_witness :
  exists opPriceData spPriceData,
    opskins_getLowestPrices scarce [] = inr opPriceData
    /\ safe_prices (db deposit_world) = Some spPriceData
    /\ Forall (listed_by_rule opPriceData spPriceData [awp])
         [{| li_appid := 730; li_contextid := 2; li_assetid := "a2";
             li_price := 11 |}].
Proof.
  apply (listing_prices_follow_rule cfg scarce [awp] deposit_world _
           [EvOpskinsGetListingLimit; EvOpskinsGetLowestPrices]).
  vm_compute. reflexivity.
Defined.

(** C9, as stated, fails on its bound: with 12 AWPs on sale from 10 cents
    and a safe price of 10 cents, the AWP is not undervalued and is listed
    at 11 cents, above 1.05 times 10. *)
Lemma listing_price_above_bound :
  trace (snd (_listItemsToOpskins cfg scarce [awp] deposit_world))
  = [EvOpskinsListItems
       [{| li_appid := 730; li_contextid := 2; li_assetid := "a2";
           li_price := 11 |}];
     EvOpskinsGetListingLimit; EvOpskinsGetLowestPrices]
  /\ ~ undervalued {| price := 10; quantity := 12 |} 10
  /\ (1.05 * inject_Z 10 < inject_Z 11)%Q.
Proof.
  split; [by vm_compute|]. split.
  - unfold undervalued. apply Qlt_not_le. by vm_compute.
  - by vm_compute.
Qed.

(** C10.  In list-after-acquisition, when the loop reaches an item whose
    name is not in the external price data, it reads [quantity] of the
    missing entry and throws: nothing is listed, the item is not skipped.
    The existence test that follows is never decided by the external
    side: a loop that runs through all items found an external price for
    each, and skipped exactly those without a safe price. *)
Theorem listing_throws_before_guard config env st opPriceData liimt
    spPriceData pre item post :
  opskins_getLowestPrices env (trace st) = inr opPriceData ->
  opskins_getListingLimit env (EvOpskinsGetLowestPrices :: trace st)
    = (None, liimt) ->
  safe_prices (db st) = Some spPriceData ->
  (forall x, x ∈ pre -> is_Some (opPriceData !! market_hash_name x)) ->
  Z.of_nat (length pre) < liimt ->
  opPriceData !! market_hash_name item = None ->
  _listItemsToOpskins config env (pre ++ item :: post) st
  = (Throw (TypeError_undefined "quantity"),
     {| db := db st;
        trace := EvOpskinsGetListingLimit :: EvOpskinsGetLowestPrices :: trace st |})
  /\ forall items acc listItems,
       listing_loop config liimt opPriceData spPriceData items acc = Ok listItems ->
       Z.of_nat (length listItems) < liimt ->
       Forall (fun x => is_Some (opPriceData !! market_hash_name x)) items
       /\ map li_assetid listItems
          = map li_assetid acc
            ++ map assetid
                 (List.filter
                    (fun x => bool_decide (is_Some (spPriceData !! market_hash_name x)))
                    items).
Proof.
  intros Hop Hlimit Hsp Hpre Hlen Hnone. split.
  - rewrite listItemsToOpskins_run. cbn zeta. rewrite Hop, Hlimit, Hsp. cbn.
    replace (liimt <=? 0) with false by (symmetry; apply Z.leb_gt; lia).
    by rewrite listing_loop_throws.
  - intros items acc listItems. apply listing_loop_visits_priced.
Qed.

Lemma listing_throws_witness :
  _listItemsToOpskins cfg calm [ak47; awp] deposit_world
  = (Throw (TypeError_undefined "quantity"),
     {| db := db deposit_world;
        trace := [EvOpskinsGetListingLimit; EvOpskinsGetLowestPrices] |}).
Proof.
  apply (listing_throws_before_guard cfg calm deposit_world
           {[ "AK-47" := {| price := 300; quantity := 400 |} ]} 10
           (default ∅ (safe_prices (db deposit_world))) [ak47] awp []).
  - reflexivity.
  - reflexivity.
  - by vm_compute.
  - intros x Hx. apply list_elem_of_singleton in Hx as ->.
    exists {| price := 300; quantity := 400 |}. by vm_compute.
  - reflexivity.
  - by vm_compute.
Defined.

(** ** What never writes to the store *)

Ltac unfold_calls :=
  unfold waitAsync, getUserDetailsAsync, sendOfferAsync, confirmOfferAsync,
    getUserInventoryAsync, _reconnectToSteam, _withdrawOpskinsItems,
    _checkOpskinsUserInventory, _searchOpskins, _buyOpskinsItem, _listItems,
    _currentWithdrawalsItems.

Lemma same_db_fetchInventoryItems env steamId assetIds retry :
  preserves same_db (_fetchInventoryItems env steamId assetIds retry).
Proof.
  unfold _fetchInventoryItems, _fetchInventoryItems_body. unfold_calls.
  same_db_auto.
Qed.

Lemma same_db_search_attempts env item :
  preserves same_db (search_attempts env item).
Proof. unfold search_attempts. unfold_calls. same_db_auto. Qed.

Lemma same_db_buy_attempts env item results balance purchases :
  preserves same_db (buy_attempts env item results balance purchases).
Proof. unfold buy_attempts, buy_one. unfold_calls. same_db_auto. Qed.

Lemma same_db_buy_loop env sp names n i searches balance purchases :
  preserves same_db (buy_loop env sp names n i searches balance purchases).
Proof.
  revert i searches balance purchases.
  induction n as [|n IH]; intros i searches balance purchases; cbn [buy_loop].
  - same_db_auto.
  - destruct (searches <? RPM * 4); [|same_db_auto].
    destruct (sp !! js_key (names !! i)); [|same_db_auto].
    apply preserves_bind; [apply _|apply same_db_search_attempts|].
    intros [[|r0 results]|]; [same_db_auto| |apply IH].
    destruct (too_expensive r0 _); [same_db_auto|].
    apply preserves_bind; [apply _|apply same_db_buy_attempts|].
    intros [balance' purchases'].
    apply preserves_bind; [apply _| |intros _; apply IH].
    unfold_calls. same_db_auto.
Qed.

Lemma same_db_fetch_with_relogin env merchant :
  preserves same_db (fetch_with_relogin env merchant).
Proof. unfold fetch_with_relogin. unfold_calls. same_db_auto. Qed.

Lemma same_db_buyPlaceholderItems config env withdrawalItems names merchant :
  preserves same_db (_buyPlaceholderItems config env withdrawalItems names merchant).
Proof.
  unfold _buyPlaceholderItems.
  destruct (truthy (opskins_key config)); [|same_db_auto].
  apply preserves_in_callback.
  apply preserves_bind; [apply _|by apply same_db_call|].
  intros [err|balance]; [same_db_auto|].
  apply preserves_bind; [apply _|apply same_db_getDbCentPrices|].
  intros [sp|]; [|same_db_auto].
  apply preserves_bind; [apply _|apply same_db_buy_loop|].
  intros [purchases|]; [|same_db_auto].
  destruct (_ && _); [|same_db_auto].
  unfold_calls.
  same_db_auto; try apply same_db_fetch_with_relogin.
  all: destruct (take_requested _ _); same_db_auto.
Qed.

Lemma same_db_listAgainItems config env names :
  preserves same_db (_listAgainItems config env names).
Proof.
  unfold _listAgainItems. unfold_calls.
  same_db_auto; by apply same_db_listItemsToOpskins.
Qed.

Create HintDb samedb discriminated.
#[local] Hint Resolve same_db_call same_db_getDbCentPrices
  same_db_listItemsToOpskins same_db_list_after_acquisition
  same_db_fetchInventoryItems same_db_buyPlaceholderItems
  same_db_listAgainItems : samedb.

(** ** Failure records (C8) *)

#[local] Instance failure_kept_or_set_preorder : PreOrder failure_kept_or_set.
Proof.
  split.
  - intros t. split; [done|by left].
  - intros a b c [Hid1 H1] [Hid2 H2]. split; [congruence|].
    destruct H2 as [[Hf Hd]|Hset]; [|by right].
    destruct H1 as [[Hf1 Hd1]|Hset1]; [left; split; congruence|].
    right. by rewrite Hf, Hd.
Qed.

#[local] Instance failures_coupled_preorder : PreOrder failures_coupled.
Proof.
  split.
  - intros st tb. reflexivity.
  - intros a b c Hab Hbc tb. etrans; [apply Hab|apply Hbc].
Qed.

Lemma preserves_weaken (R R' : St -> St -> Prop) {A} (m : M A) :
  (forall st st', R st st' -> R' st st') -> preserves R m -> preserves R' m.
Proof. intros Himp Hm st. apply Himp, Hm. Qed.

Lemma coupled_same_db {A} (m : M A) :
  preserves same_db m -> preserves failures_coupled m.
Proof.
  apply preserves_weaken. intros st st' Hdb tb. rewrite Hdb. reflexivity.
Qed.

Lemma coupled_update_trades tb cond set :
  (forall t, failure_kept_or_set t (set t)) ->
  preserves failures_coupled (update_trades tb cond set).
Proof.
  intros Hset st tb'. cbn.
  assert (Hupd : Forall2 failure_kept_or_set (table tb (db st))
                   (sql_update cond set (table tb (db st)))).
  { unfold sql_update. apply Forall2_fmap_r, Forall_Forall2_diag, Forall_forall.
    intros t _. cbn. destruct (cond t); [apply Hset|reflexivity]. }
  destruct tb, tb'; cbn in *; first [exact Hupd|reflexivity].
Qed.

Lemma coupled_update_users cond set :
  preserves failures_coupled (update_users cond set).
Proof. intros st tb. destruct tb; reflexivity. Qed.

Lemma kept_set_acknowledged now m t : failure_kept_or_set t (set_acknowledged now m t).
Proof. split; [done|by left]. Qed.
Lemma kept_set_merchant m t : failure_kept_or_set t (set_merchant m t).
Proof. split; [done|by left]. Qed.
Lemma kept_set_offered created id t : failure_kept_or_set t (set_offered created id t).
Proof. split; [done|by left]. Qed.
Lemma kept_set_completed now t : failure_kept_or_set t (set_completed now t).
Proof. split; [done|by left]. Qed.
Lemma kept_set_failed now message t : failure_kept_or_set t (set_failed now message t).
Proof. split; [done|right; split; eauto]. Qed.

#[local] Hint Resolve kept_set_acknowledged kept_set_merchant kept_set_offered
  kept_set_completed kept_set_failed : samedb.

Ltac coupled_auto :=
  repeat first
    [ apply coupled_same_db; solve [eauto with samedb]
    | apply coupled_update_trades; solve [eauto with samedb]
    | apply coupled_update_users
    | preserves_step ].

Lemma coupled_fail env tb id e : preserves failures_coupled (fail env tb id e).
Proof. unfold fail. coupled_auto. Qed.

#[local] Hint Resolve coupled_fail : samedb.

Ltac coupled_workflow :=
  unfold failDeposit, failWithdrawal; unfold_calls;
  repeat first
    [ apply coupled_fail
    | coupled_auto ].

Lemma coupled_startDeposit config env id :
  preserves failures_coupled (startDeposit config env id).
Proof. unfold startDeposit, acknowledgeDeposit. coupled_workflow. Qed.

Lemma coupled_completeDeposit config env offer oldState :
  preserves failures_coupled (completeDeposit config env offer oldState).
Proof. unfold completeDeposit. coupled_workflow. Qed.

Lemma coupled_startWithdrawal config env id :
  preserves failures_coupled (startWithdrawal config env id).
Proof. unfold startWithdrawal, _lockWithdrawal. coupled_workflow. Qed.

Lemma coupled_completeWithdrawal env offer oldState :
  preserves failures_coupled (completeWithdrawal env offer oldState).
Proof. unfold completeWithdrawal. coupled_workflow. Qed.

Lemma coupled_handle config env op :
  preserves failures_coupled (handle config env op).
Proof.
  destruct op as [id|id|offer oldState]; cbn.
  - apply coupled_startDeposit.
  - apply coupled_startWithdrawal.
  - unfold sentOfferChanged. destruct (itemsToReceive offer).
    + apply coupled_completeWithdrawal.
    + apply coupled_completeDeposit.
Qed.

Lemma coupled_handle_all events st : failures_coupled st (handle_all events st).
Proof.
  revert st. induction events as [|[[config env] op] events IH]; intros st.
  - reflexivity.
  - cbn. etrans; [apply coupled_handle|apply IH].
Qed.

(** C8, as the code has it.  [failed_at] and [failure_details] are written
    together: whatever events the core handles, in whatever worlds, every
    trade row ends with its failure record as it was or with both fields
    set, so no row ever holds one field without the other.  The update is
    unconditional: the record is not write-once. *)
Theorem failure_record_written_together events st :
  failures_coupled st (handle_all events st)
  /\ forall tb,
       Forall whole_failure_record (table tb (db st)) ->
       Forall whole_failure_record (table tb (db (handle_all events st))).
Proof.
  pose proof (coupled_handle_all events st) as Hc. split; [done|].
  intros tb Hwhole. specialize (Hc tb).
  induction Hc as [|t t' l l' [_ Hrow] _ IH]; [done|].
  apply Forall_cons in Hwhole as [Ht Hl].
  apply Forall_cons. split; [|by apply IH].
  unfold whole_failure_record in *.
  destruct Hrow as [[-> ->]|[? ?]]; [done|]. by split.
Qed.

Lemma failure_record_witness :
  Forall whole_failure_record
    (trade_deposits
       (db (handle_all [(cfg, calm, Offer_changed (offer_1 Declined) Active)]
                       deposit_world))).
Proof.
  apply (failure_record_written_together
           [(cfg, calm, Offer_changed (offer_1 Declined) Active)]
           deposit_world) with (tb := trade_deposits_tbl).
  apply Forall_singleton. split; intros [x Hx]; discriminate Hx.
Defined.

(** C8, as stated, fails: the failure record of a trade is overwritten by
    a later failure event.  The decline of offer 1 delivered a second
    time moves [failed_at]; an expiry delivered after the decline changes
    the details as well. *)
Lemma failure_record_overwritten :
  let declined := (cfg, calm, Offer_changed (offer_1 Declined) Active) in
  let again := (cfg, later, Offer_changed (offer_1 Declined) Active) in
  let expired := (cfg, later, Offer_changed (offer_1 Expired) Active) in
  failures trade_deposits_tbl 1 (db (handle_all [declined] deposit_world))
    = [(Some 0, Some "Trade offer declined")]
  /\ failures trade_deposits_tbl 1 (db (handle_all [declined; again] deposit_world))
    = [(Some 99, Some "Trade offer declined")]
  /\ failures trade_deposits_tbl 1 (db (handle_all [declined; expired] deposit_world))
    = [(Some 99, Some "Trade offer expired")].
Proof. vm_compute. done. Qed.

(** ** The size limit of a withdrawal (C5) *)

Lemma extends_refl P base : extends P base base.
Proof. by exists []. Qed.

Lemma extends_cons P base ev tr :
  P ev -> extends P base tr -> extends P base (ev :: tr).
Proof.
  intros Hev (new & -> & Hnew). exists (ev :: new). split; [done|].
  by apply Forall_cons.
Qed.

Lemma lockWithdrawal_effect config env withdrawalId merchant st :
  trace (snd (_lockWithdrawal config env withdrawalId merchant st))
    = EvOpskinsGetBalance :: trace st
  /\ trade_withdrawal_items (db (snd (_lockWithdrawal config env withdrawalId merchant st)))
     = trade_withdrawal_items (db st)
  /\ users (db (snd (_lockWithdrawal config env withdrawalId merchant st)))
     = users (db st).
Proof.
  unfold _lockWithdrawal, in_callback, oneOrNone, bind, call, update_trades, ret.
  cbn. destruct (opskins_getBalance env (trace st)); [done|]. cbn.
  destruct (sql_returning _ _ _) as [|t [|? ?]]; cbn; try done.
  by destruct (bool_decide (trade_id t = withdrawalId)).
Qed.

Lemma fail_effect env tb id e st :
  fail env tb id e st
  = (Ok tt,
     {| db := with_table tb
                (sql_update (fun t => bool_decide (trade_id t = id))
                            (set_failed (clock env (trace st)) (errMessage e))
                            (table tb (db st)))
                (db st);
        trace := trace st |}).
Proof. unfold fail, new_Date, none, bind, update_trades, ret. by destruct e. Qed.

(** With more than three item rows, whatever the outside answers: the
    balance query of the lock is the only OPSkins call, and what follows
    it are the calls of the profile check. *)
Lemma over_limit_calls config env withdrawalId st :
  (MAX_WITHDRAWAL_SIZE < length (requested_items withdrawalId (db st)))%nat ->
  trace (snd (startWithdrawal config env withdrawalId st)) = trace st
  \/ extends profile_call (EvOpskinsGetBalance :: trace st)
       (trace (snd (startWithdrawal config env withdrawalId st))).
Proof.
  intros Hcount. unfold startWithdrawal.
  destruct (steamID env) as [merchant|]; [|by left]. right.
  unfold bind at 1.
  destruct (lockWithdrawal_effect config env withdrawalId merchant st)
    as (Htr & Hitems & _).
  destruct (_lockWithdrawal config env withdrawalId merchant st)
    as [[[]| |] st1]; cbn [fst snd negb] in *;
    try (unfold ret; cbn; rewrite Htr; apply extends_refl).
  unfold requested_items in Hcount. rewrite <- Hitems in Hcount.
  rewrite <- Htr. clear Htr Hitems.
  unfold oneOrNone, one, many, select, read_db, failWithdrawal.
  unfold_calls. unfold call_async, call.
  unfold bind, try_catch, ret, throw. cbn.
  repeat first
    [ rewrite fail_effect; cbn
    | apply extends_refl
    | apply extends_cons; [exact I|]
    | match goal with
      | |- context [bool_decide (?l = [])] =>
          destruct l eqn:?; [cbn in Hcount; lia|]; cbn
      | |- context [bool_decide (MAX_WITHDRAWAL_SIZE < ?n)%nat] =>
          rewrite (bool_decide_eq_true_2 (MAX_WITHDRAWAL_SIZE < n)%nat)
            by (cbn in Hcount |- *; lia); cbn
      | |- context [match ?x with _ => _ end] =>
          lazymatch x with
          | context [match _ with _ => _ end] => fail
          | _ => destruct x eqn:?; cbn
          end
      end ].
Qed.

Lemma filter_unique_row {R} (key : R -> Z) (cond : R -> bool) (k : Z)
    (rows : list R) (w : R) :
  NoDup (map key rows) ->
  (forall r, cond r = true -> key r = k) ->
  w ∈ rows -> cond w = true ->
  List.filter cond rows = [w].
Proof.
  intros Hnd Hk Hw Hc.
  assert (Hin : In w (List.filter cond rows))
    by (apply filter_In; by rewrite <- list_elem_of_In).
  destruct (filter_unique_key key cond k rows Hnd Hk) as [Hnil|(r & Hone & _)].
  - rewrite Hnil in Hin. destruct Hin.
  - rewrite Hone in Hin |- *. destruct Hin as [->|[]]. done.
Qed.

Lemma sql_update_elem {R} (cond : R -> bool) (set : R -> R) (rows : list R) r :
  r ∈ rows -> cond r = true -> set r ∈ sql_update cond set rows.
Proof.
  intros Hr Hc. unfold sql_update. apply list_elem_of_fmap.
  exists r. by rewrite Hc.
Qed.

Section LockGranted.

Context (config : Config) (env : Env) (withdrawalId merchant balance : Z)
        (st : St) (w : Trade).
Hypothesis Hbalance : opskins_getBalance env (trace st) = inr balance.
Hypothesis Hkey : NoDup (map trade_id (trade_withdrawals (db st))).
Hypothesis Hrow : w ∈ trade_withdrawals (db st).
Hypothesis Hid : trade_id w = withdrawalId.
Hypothesis Hunclaimed : merchant_steam_id w = Some 1.
Hypothesis Hcovered : _total w <= balance.
Hypothesis Happ : row_app_id w = app_id config.

#[local] Abbreviation cond := (lock_cond config withdrawalId balance).
#[local] Abbreviation claimed := (locked config withdrawalId merchant balance st).

Lemma lock_cond_row : cond w = true.
Proof.
  unfold lock_cond. rewrite Hunclaimed. cbn.
  rewrite !bool_decide_eq_true_2 by done.
  replace (_total w <=? balance) with true by (symmetry; by apply Z.leb_le).
  done.
Qed.

Lemma lock_cond_key r : cond r = true -> trade_id r = withdrawalId.
Proof.
  unfold lock_cond. intros Hr.
  do 3 apply andb_prop in Hr as [Hr _]. by apply bool_decide_eq_true in Hr.
Qed.

Lemma lock_granted :
  _lockWithdrawal config env withdrawalId merchant st = (Ok true, claimed).
Proof.
  unfold _lockWithdrawal, in_callback, bind at 1, call. cbn [fst snd].
  rewrite Hbalance. unfold oneOrNone, bind, update_trades.
  fold cond. unfold sql_returning at 1. cbn [table db trace].
  rewrite (filter_unique_row trade_id cond withdrawalId _ w Hkey
             lock_cond_key Hrow lock_cond_row).
  cbn. by rewrite bool_decide_eq_true_2.
Qed.

Lemma locked_row_selected :
  List.filter (fun t => bool_decide (trade_id t = withdrawalId)
                        && col_eq (merchant_steam_id t) merchant)
              (trade_withdrawals (db claimed))
  = [set_merchant merchant w].
Proof.
  apply (filter_unique_row trade_id _ withdrawalId).
  - cbn. by rewrite (sql_update_key trade_id).
  - intros r Hr. apply andb_prop in Hr as [Hr _].
    by apply bool_decide_eq_true in Hr.
  - cbn. apply sql_update_elem; [done|apply lock_cond_row].
  - cbn. by rewrite !bool_decide_eq_true_2.
Qed.

Lemma locked_row_by_id :
  List.filter (fun t => bool_decide (trade_id t = withdrawalId))
              (trade_withdrawals (db claimed))
  = [set_merchant merchant w].
Proof.
  apply (filter_unique_row trade_id _ withdrawalId).
  - cbn. by rewrite (sql_update_key trade_id).
  - intros r Hr. by apply bool_decide_eq_true in Hr.
  - cbn. apply sql_update_elem; [done|apply lock_cond_row].
  - cbn. by rewrite bool_decide_eq_true_2.
Qed.

End LockGranted.

(** *** Running a computation step by step *)

Lemma bind_run {A B} (m : M A) (k : A -> M B) st a st1 :
  m st = (Ok a, st1) -> bind m k st = k a st1.
Proof. intros H. unfold bind. by rewrite H. Qed.

Lemma one_select {R} (rows : Db -> list R) cond st r :
  List.filter cond (rows (db st)) = [r] ->
  one (select rows cond) st = (Ok r, st).
Proof. intros H. unfold one, select, bind, read_db, ret. by rewrite H. Qed.

Lemma oneOrNone_select {R} (rows : Db -> list R) cond st r :
  List.filter cond (rows (db st)) = [r] ->
  oneOrNone (select rows cond) st = (Ok (Some r), st).
Proof. intros H. unfold oneOrNone, select, bind, read_db, ret. by rewrite H. Qed.

Lemma many_select {R} (rows : Db -> list R) cond st :
  List.filter cond (rows (db st)) <> [] ->
  many (select rows cond) st = (Ok (List.filter cond (rows (db st))), st).
Proof.
  intros H. unfold many, select, bind, read_db, ret.
  by destruct (List.filter cond (rows (db st))).
Qed.

(** The profile check of both workflows, when the profile is obtained. *)
Lemma details_run env url st them :
  profile env (trace st) url = Some them ->
  exists tr,
    try_catch
      (d <- getUserDetailsAsync env (createOffer url) ;; ret (inr d))
      (fun _ =>
         _reconnectToSteam ;;;
         try_catch
           (d <- getUserDetailsAsync env (createOffer url) ;; ret (inr d))
           (fun e => ret (inl e))) st
    = (Ok (inr them), {| db := db st; trace := tr |})
    /\ extends profile_call (trace st) tr.
Proof.
  unfold profile, try_catch, bind, getUserDetailsAsync, _reconnectToSteam,
    call_async, call, bind, throw, ret. cbn.
  destruct (getUserDetails env (trace st) url) as [err|d]; cbn.
  - destruct (getUserDetails env _ url) as [err2|d]; cbn; [done|].
    intros [= ->]. eexists. split; [done|].
    repeat (apply extends_cons; [exact I|]). apply extends_refl.
  - intros [= ->]. eexists. split; [done|].
    repeat (apply extends_cons; [exact I|]). apply extends_refl.
Qed.

Lemma failures_after_fail env tb id e st rows :
  List.filter (fun t => bool_decide (trade_id t = id)) (table tb (db st)) = rows ->
  failures tb id (db (snd (fail env tb id e st)))
  = map (fun _ => (Some (clock env (trace st)), Some (errMessage e))) rows.
Proof.
  intros <-. rewrite fail_effect. unfold failures. cbn [snd db].
  rewrite table_with_table. unfold sql_update.
  induction (table tb (db st)) as [|t rows IH]; [done|].
  cbn. destruct (bool_decide (trade_id t = id)) eqn:Ht; cbn.
  - rewrite Ht. cbn. by rewrite IH.
  - by rewrite Ht.
Qed.

Lemma over_limit_fails config env withdrawalId st merchant balance w u url them :
  (MAX_WITHDRAWAL_SIZE < length (requested_items withdrawalId (db st)))%nat ->
  steamID env = Some merchant ->
  opskins_getBalance env (trace st) = inr balance ->
  NoDup (map trade_id (trade_withdrawals (db st))) ->
  w ∈ trade_withdrawals (db st) ->
  trade_id w = withdrawalId ->
  merchant_steam_id w = Some 1 ->
  _total w <= balance ->
  row_app_id w = app_id config ->
  List.filter (fun x => bool_decide (steam_id x = user_steam_id w))
              (users (db st)) = [u] ->
  truthy (trade_link_url u) = Some url ->
  profile env (EvOpskinsGetBalance :: trace st) url = Some them ->
  probation them = false ->
  escrowDays them = 0 ->
  exists final,
    startWithdrawal config env withdrawalId st = (Ok tt, final)
    /\ failures trade_withdrawals_tbl withdrawalId (db final)
       = [(Some (clock env (trace final)), Some count_limit_message)].
Proof.
  intros Hcount Hsteam Hbal Hkey Hrow Hid Hunc Hcov Happ Huser Hurl Hprof
    Hprob Hesc.
  unfold startWithdrawal. rewrite Hsteam.
  erewrite bind_run by (by apply (lock_granted _ _ _ _ balance _ w)).
  cbn [negb].
  erewrite bind_run
    by (apply oneOrNone_select; by apply (locked_row_selected _ _ _ balance _ w)).
  cbv beta iota. unfold locked.
  erewrite bind_run by (apply one_select; exact Huser).
  cbv beta iota. rewrite Hurl.
  match goal with
  | |- context [bind (try_catch _ _) _ ?s] =>
      destruct (details_run env url s them Hprof) as (tr & Hrun & _)
  end.
  erewrite bind_run by exact Hrun.
  cbv beta iota. rewrite Hprob, Hesc.
  rewrite bool_decide_eq_true_2 by done. cbn [negb].
  unfold requested_items in Hcount.
  erewrite bind_run.
  2:{ apply many_select. cbn. intros Hnil. rewrite Hnil in Hcount.
      cbn in Hcount. lia. }
  cbn [db trade_withdrawal_items with_table].
  rewrite bool_decide_eq_false_2
    by (intros Hnil; rewrite Hnil in Hcount; cbn in Hcount; lia).
  rewrite bool_decide_eq_true_2 by exact Hcount.
  unfold failWithdrawal.
  eexists. split; [apply fail_effect|].
  change (trade_id (set_merchant merchant w)) with (trade_id w). rewrite Hid.
  match goal with
  | |- failures _ _ (db {| db := with_table _ (sql_update _ (set_failed _ (errMessage ?e)) _) (db ?s);
                          trace := _ |}) = _ =>
      pose proof (failures_after_fail env trade_withdrawals_tbl withdrawalId e s
                    [set_merchant merchant w]) as Hf
  end.
  rewrite fail_effect in Hf. cbn [snd trace] in Hf |- *.
  apply Hf.
  by apply (locked_row_by_id config _ merchant balance st w).
Qed.

(** C5, as the code has it.  For a withdrawal with more than three item
    rows: whatever the outside answers, the only OPSkins call is the
    balance query of the lock, followed by nothing but the calls of the
    profile check (no search, no purchase, no offer sent); and when the
    steps before the size test pass (the merchant is connected, the lock
    is granted, the user has a trade link, the profile is obtained and
    shows neither probation nor escrow) the withdrawal is failed with the
    count-limit message. *)
Theorem withdrawal_over_limit config env withdrawalId st :
  (MAX_WITHDRAWAL_SIZE < length (requested_items withdrawalId (db st)))%nat ->
  (trace (snd (startWithdrawal config env withdrawalId st)) = trace st
   \/ extends profile_call (EvOpskinsGetBalance :: trace st)
        (trace (snd (startWithdrawal config env withdrawalId st))))
  /\ forall merchant balance w u url them,
       steamID env = Some merchant ->
       opskins_getBalance env (trace st) = inr balance ->
       NoDup (map trade_id (trade_withdrawals (db st))) ->
       w ∈ trade_withdrawals (db st) ->
       trade_id w = withdrawalId ->
       merchant_steam_id w = Some 1 ->
       _total w <= balance ->
       row_app_id w = app_id config ->
       List.filter (fun x => bool_decide (steam_id x = user_steam_id w))
                   (users (db st)) = [u] ->
       truthy (trade_link_url u) = Some url ->
       profile env (EvOpskinsGetBalance :: trace st) url = Some them ->
       probation them = false ->
       escrowDays them = 0 ->
       exists final,
         startWithdrawal config env withdrawalId st = (Ok tt, final)
         /\ failures trade_withdrawals_tbl withdrawalId (db final)
            = [(Some (clock env (trace final)), Some count_limit_message)].
Proof.
  intros Hcount. split.
  - by apply over_limit_calls.
  - intros. by eapply over_limit_fails.
Qed.

Lemma withdrawal_over_limit_witness :
  exists final,
    startWithdrawal cfg calm 3 four_items = (Ok tt, final)
    /\ failures trade_withdrawals_tbl 3 (db final)
       = [(Some (clock calm (trace final)), Some count_limit_message)].
Proof.
  destruct (withdrawal_over_limit cfg calm 3 four_items) as [_ H].
  - vm_compute. lia.
  - apply (H 900 1000
             (new_trade 3 7 ["AK-47"; "AK-47"; "AK-47"; "AWP"] (Some 1) 300 0)
             alice "https://trade/alice"
             {| probation := false; escrowDays := 0 |});
      try reflexivity.
    + apply NoDup_singleton.
    + apply list_elem_of_here.
    + by vm_compute.
Defined.

(** C5, as stated, fails twice over.  The withdrawal of four items is
    failed with the count-limit message only after the lock has queried
    the OPSkins balance; and for a user without a trade link the message
    is that of the trade link, not that of the limit. *)
Lemma over_limit_after_balance_query :
  let st' := snd (startWithdrawal cfg calm 3 four_items) in
  let st'' := snd (startWithdrawal cfg calm 3 four_items_no_link) in
  failures trade_withdrawals_tbl 3 (db st')
    = [(Some 2, Some "Please choose a maximum of 3 items.")]
  /\ trace st' = [EvGetUserDetails "https://trade/alice"; EvOpskinsGetBalance]
  /\ List.filter marketplace_call (trace st') = [EvOpskinsGetBalance]
  /\ failures trade_withdrawals_tbl 3 (db st'')
    = [(Some 1, Some "Please set your Trade URL to proceed")].
Proof. vm_compute. done. Qed.

(** ** Sourcing of a withdrawal (C6) *)

Lemma bind_throw {A B} (m : M A) (k : A -> M B) st e st1 :
  m st = (Throw e, st1) -> bind m k st = (Throw e, st1).
Proof. intros H. unfold bind. by rewrite H. Qed.

Lemma in_callback_throw {A} (m : M A) st e st1 :
  m st = (Throw e, st1) -> in_callback m st = (Pending, st1).
Proof. intros H. unfold in_callback. by rewrite H. Qed.

Lemma search_attempts_first env item st results :
  opskins_search env (trace st) item = inr results ->
  search_attempts env item st
  = (Ok (Some results), {| db := db st; trace := EvOpskinsSearch item :: trace st |}).
Proof.
  intros H. unfold search_attempts, try_catch, _searchOpskins, call_async, call,
    bind, ret. cbn. by rewrite H.
Qed.

(** C6 does not hold of the code.  When the search for the first
    requested name succeeds with no listing, the loop reads [amount] of
    [results[0]] before the test of [results.length]: the exception is
    lost in the balance callback and the sourcing promise never settles,
    with no purchase made. *)
Theorem sourcing_never_settles config env withdrawalItems names merchant st
    key balance sp safe :
  truthy (opskins_key config) = Some key ->
  opskins_getBalance env (trace st) = inr balance ->
  safe_prices (db st) = Some sp ->
  withdrawalItems <> [] ->
  sp !! js_key (names !! 0%nat) = Some safe ->
  opskins_search env (EvOpskinsGetBalance :: trace st) (js_key (names !! 0%nat))
    = inr [] ->
  _buyPlaceholderItems config env withdrawalItems names merchant st
  = (Pending,
     {| db := db st;
        trace := EvOpskinsSearch (js_key (names !! 0%nat))
                 :: EvOpskinsGetBalance :: trace st |}).
Proof.
  intros Hkey Hbal Hsp Hitems Hsafe Hsearch.
  unfold _buyPlaceholderItems. rewrite Hkey.
  apply in_callback_throw with (e := TypeError_undefined "amount").
  erewrite bind_run by reflexivity. rewrite Hbal.
  erewrite bind_run by apply getDbCentPrices_safe_prices.
  cbn [db]. rewrite Hsp.
  apply bind_throw.
  destruct withdrawalItems as [|i0 items]; [done|].
  cbn [length buy_loop]. cbn [Z.ltb Z.mul RPM Z.compare Pos.mul].
  replace (0 <? RPM * 4) with true by reflexivity.
  rewrite Hsafe.
  erewrite bind_run by (apply search_attempts_first; exact Hsearch).
  reflexivity.
Qed.

Lemma sourcing_never_settles_witness :
  _buyPlaceholderItems cfg sold_out (requested_items 3 (db one_item))
    ["AK-47"] 900 one_item
  = (Pending,
     {| db := db one_item;
        trace := [EvOpskinsSearch "AK-47"; EvOpskinsGetBalance] |}).
Proof.
  apply (sourcing_never_settles cfg sold_out (requested_items 3 (db one_item))
           ["AK-47"] 900 one_item "key" 1000
           (default ∅ (safe_prices (db one_item))) 100).
  - reflexivity.
  - reflexivity.
  - by vm_compute.
  - by vm_compute.
  - by vm_compute.
  - reflexivity.
Defined.

(** The withdrawal of the example stalls: no failure is recorded, the
    compensating scan is not made. *)
Example empty_search_stalls_withdrawal :
  let '(r, st') := startWithdrawal cfg sold_out 3 one_item in
  r = Pending
  /\ failures trade_withdrawals_tbl 3 (db st') = [(None, None)]
  /\ trace st' = [EvOpskinsSearch "AK-47"; EvOpskinsGetBalance;
                  EvGetUserDetails "https://trade/alice"; EvOpskinsGetBalance].
Proof. vm_compute. done. Qed.

(** The loop ends with fewer purchases than items (or has given up):
    nothing is imported and the empty list is returned. *)
Lemma sourcing_all_or_nothing config env withdrawalItems names merchant st
    key balance sp looped st1 :
  truthy (opskins_key config) = Some key ->
  opskins_getBalance env (trace st) = inr balance ->
  safe_prices (db st) = Some sp ->
  buy_loop env sp names (length withdrawalItems) 0 0 balance []
           {| db := db st; trace := EvOpskinsGetBalance :: trace st |}
    = (Ok looped, st1) ->
  match looped with
  | Some purchases => length purchases <> length withdrawalItems
  | None => True
  end ->
  _buyPlaceholderItems config env withdrawalItems names merchant st
  = (Ok ([], names), st1).
Proof.
  intros Hkey Hbal Hsp Hloop Hshort.
  unfold _buyPlaceholderItems. rewrite Hkey.
  unfold in_callback.
  erewrite bind_run by reflexivity. rewrite Hbal.
  erewrite bind_run by apply getDbCentPrices_safe_prices.
  cbn [db]. rewrite Hsp.
  erewrite bind_run by exact Hloop.
  destruct looped as [purchases|]; [|done].
  rewrite (bool_decide_eq_false_2 (length withdrawalItems = length purchases))
    by congruence.
  by rewrite andb_false_r.
Qed.

(** ** The purchase guard (C1) *)

Lemma too_expensive_spec r0 safe :
  too_expensive r0 safe = true
  <-> 400 <= amount r0 /\ (inject_Z safe * 1.05 <= inject_Z (amount r0))%Q.
Proof.
  unfold too_expensive. rewrite andb_true_iff, Z.leb_le, Qle_bool_iff. done.
Qed.

Section GuardProofs.

Context (env : Env) (sp : gmap string Z) (base : list Event).

#[local] Abbreviation good := (good env sp base).
#[local] Abbreviation fresh := (fresh env sp base).
#[local] Abbreviation stays_fresh := (stays_fresh env sp base).

Lemma fresh_emit s ev : fresh s -> good (emit ev s).
Proof.
  intros [(new & Htr & Hquiet) Hlast].
  exists (ev :: new). split; [cbn; by rewrite Htr|].
  intros after upto Heq Hafter Hupto.
  destruct after as [|ev' after]; [done|]. injection Heq as <- Hnew.
  destruct after as [|ev'' after].
  - cbn in Hnew. subst upto. rewrite <- Htr. apply Hlast.
    rewrite Htr. intros Habs.
    apply (f_equal length) in Habs. rewrite length_app in Habs.
    destruct new; [done|cbn in Habs; lia].
  - by apply (Hquiet (ev'' :: after) upto).
Qed.

Lemma fresh_emit_calm s ev : fresh s -> not_search ev -> fresh (emit ev s).
Proof.
  intros Hs Hev. split; [by apply fresh_emit|].
  intros _. cbn. by destruct ev.
Qed.

Lemma fresh_good s : fresh s -> good s.
Proof. by intros [? _]. Qed.

#[local] Instance stays_fresh_preorder : PreOrder stays_fresh.
Proof.
  split; [intros s Hs; exact Hs|].
  intros a b c Hab Hbc Ha. apply Hbc, Hab, Ha.
Qed.

Lemma calm_call {X} ev (answer : list Event -> X) :
  not_search ev -> preserves stays_fresh (call ev answer).
Proof. intros Hev s Hs. by apply fresh_emit_calm. Qed.

Lemma calm_same_db {A} (m : M A) :
  (forall s, trace (snd (m s)) = trace s) -> preserves stays_fresh m.
Proof.
  intros Htr s [(new & Hnew & Hq) Hlast].
  split; [exists new|]; rewrite Htr; done.
Qed.

Ltac calm_auto :=
  repeat first
    [ apply calm_call; exact I
    | preserves_step ].

Lemma calm_getDbCentPrices lo hi : preserves stays_fresh (_getDbCentPrices lo hi).
Proof. unfold _getDbCentPrices. calm_auto. Qed.

Lemma calm_buy_attempts item results balance purchases :
  preserves stays_fresh (buy_attempts env item results balance purchases).
Proof. unfold buy_attempts, buy_one. unfold_calls. calm_auto. Qed.

Lemma calm_fetch_with_relogin merchant :
  preserves stays_fresh (fetch_with_relogin env merchant).
Proof. unfold fetch_with_relogin. unfold_calls. calm_auto. Qed.

Lemma fresh_failed_search s item e :
  fresh s -> opskins_search env (trace s) item = inl e ->
  fresh (emit (EvOpskinsSearch item) s).
Proof.
  intros Hs Hfail. split; [by apply fresh_emit|].
  intros _. cbn. by rewrite Hfail.
Qed.

(** The search of one iteration: if it yields results, the guard is
    tripped on the trace exactly when the test of the loop says so;
    otherwise the run may go on. *)
Lemma search_attempts_spec item s :
  fresh s ->
  good (snd (search_attempts env item s))
  /\ match fst (search_attempts env item s) with
     | Ok (Some results) =>
         guard_hit env sp (trace (snd (search_attempts env item s)))
         = match results, sp !! item with
           | r0 :: _, Some safe => too_expensive r0 safe
           | _, _ => false
           end
     | _ => fresh (snd (search_attempts env item s))
     end.
Proof.
  intros Hs.
  unfold search_attempts, try_catch, _searchOpskins, waitAsync, call_async,
    call, bind, throw, ret. cbn.
  destruct (opskins_search env (trace s) item) as [e1|res1] eqn:H1; cbn.
  2:{ split; [by apply (fresh_emit s)|]. by rewrite H1. }
  pose proof (fresh_failed_search s item e1 Hs H1) as Hs1.
  pose proof (fresh_emit_calm _ (EvWait 1) Hs1 I) as Hs2.
  destruct (opskins_search env (EvWait 1 :: EvOpskinsSearch item :: trace s) item)
    as [e2|res2] eqn:H2; cbn.
  2:{ split; [by apply (fresh_emit _ _ Hs2)|]. by rewrite H2. }
  pose proof (fresh_failed_search _ item e2 Hs2 H2) as Hs3.
  pose proof (fresh_emit_calm _ (EvWait 2) Hs3 I) as Hs4.
  destruct (opskins_search env
              (EvWait 2 :: EvOpskinsSearch item :: EvWait 1
                 :: EvOpskinsSearch item :: trace s) item)
    as [e3|res3] eqn:H3; cbn.
  2:{ split; [by apply (fresh_emit _ _ Hs4)|]. by rewrite H3. }
  pose proof (fresh_failed_search _ item e3 Hs4 H3) as Hs5.
  split; [by apply fresh_good|done].
Qed.

(** A run that may go on never ends on a tripped guard. *)
Lemma fresh_ends {A} (s : St) (r r0 : Res A) :
  fresh s -> ends_with env sp base r0 (r, s).
Proof.
  intros [Hg Hlast]. split; [done|]. cbn. intros Hne Hhit.
  rewrite Hlast in Hhit by done. discriminate Hhit.
Qed.

Lemma calm_ends {A} (m : M A) (s : St) (r0 : Res A) :
  preserves stays_fresh m -> fresh s -> ends_with env sp base r0 (m s).
Proof.
  intros Hm Hs. specialize (Hm s Hs).
  destruct (m s) as [r s']. by apply fresh_ends.
Qed.

Lemma ends_with_fresh {A} (r0 : Res A) r s :
  ends_with env sp base r0 (r, s) -> r <> r0 -> fresh s.
Proof.
  intros [Hg Hhit] Hr. split; [done|]. cbn in *. intros Hne.
  destruct (guard_hit env sp (trace s)) eqn:Hh; [|done].
  by specialize (Hhit Hne eq_refl).
Qed.

Lemma buy_loop_spec names n i searches balance purchases s :
  fresh s ->
  ends_with env sp base (Ok None)
    (buy_loop env sp names n i searches balance purchases s).
Proof.
  revert i searches balance purchases s.
  induction n as [|n IH]; intros i searches balance purchases s Hs;
    cbn [buy_loop].
  { by apply fresh_ends. }
  destruct (searches <? RPM * 4); [|by apply fresh_ends].
  destruct (sp !! js_key (names !! i)) as [safe|] eqn:Hsafe;
    [|by apply fresh_ends].
  unfold bind at 1.
  destruct (search_attempts_spec (js_key (names !! i)) s Hs) as [Hg Hm].
  destruct (search_attempts env (js_key (names !! i)) s)
    as [[[[|r0 rest]|]| |] s1]; cbn [fst snd] in *.
  - split; [done|]. cbn. intros _ Hhit. rewrite Hm in Hhit. discriminate Hhit.
  - rewrite Hsafe in Hm.
    destruct (too_expensive r0 safe) eqn:Hguard; [by split|].
    assert (Hs1 : fresh s1) by (by split).
    unfold bind at 1.
    pose proof (calm_buy_attempts (names !! i) (r0 :: rest) balance purchases
                  s1 Hs1) as Hs2.
    destruct (buy_attempts env (names !! i) (r0 :: rest) balance purchases s1)
      as [[[balance' purchases']| |] s2]; cbn [fst snd] in *;
      [|by apply fresh_ends..].
    unfold bind at 1.
    destruct (searches + 1 =? RPM).
    + apply IH. by apply (fresh_emit_calm s2 (EvWait 60)).
    + by apply IH.
  - by apply IH.
  - by apply fresh_ends.
  - by apply fresh_ends.
Qed.

Lemma buyPlaceholderItems_spec config withdrawalItems names merchant s :
  fresh s ->
  safe_prices (db s) = Some sp ->
  ends_with env sp base (Ok ([], names))
    (_buyPlaceholderItems config env withdrawalItems names merchant s).
Proof.
  intros Hs Hsp. unfold _buyPlaceholderItems.
  destruct (truthy (opskins_key config)); [|by apply fresh_ends].
  unfold in_callback, bind at 1, call. cbn [fst snd].
  assert (Hs1 : fresh (emit EvOpskinsGetBalance s))
    by (by apply fresh_emit_calm).
  fold (emit EvOpskinsGetBalance s).
  destruct (opskins_getBalance env (trace s)) as [err|balance];
    [by apply fresh_ends|].
  unfold bind at 1. rewrite getDbCentPrices_safe_prices.
  cbn [db emit]. rewrite Hsp. fold (emit EvOpskinsGetBalance s).
  unfold bind at 1.
  pose proof (buy_loop_spec names (length withdrawalItems) 0 0 balance []
                (emit EvOpskinsGetBalance s) Hs1) as Hloop.
  destruct (buy_loop env sp names (length withdrawalItems) 0 0 balance []
              (emit EvOpskinsGetBalance s)) as [[[purchases|]| |] s2].
  - apply ends_with_fresh in Hloop; [|done].
    destruct (_ && _); [|by apply fresh_ends].
    match goal with
    | |- context [match ?m s2 with _ => _ end] =>
        assert (Hcalm : preserves stays_fresh m)
    end.
    { unfold_calls. calm_auto; try apply calm_fetch_with_relogin.
      all: destruct (take_requested _ _); calm_auto. }
    match goal with
    | |- context [match ?m s2 with _ => _ end] =>
        specialize (Hcalm s2 Hloop); destruct (m s2) as [[?| |] s3]
    end; cbn [fst snd] in *; by apply fresh_ends.
  - destruct Hloop as [Hg _]. by split.
  - destruct Hloop as [Hg Hhit]. split; [done|]. cbn in *.
    intros Hne Hh. by specialize (Hhit Hne Hh).
  - destruct Hloop as [Hg Hhit]. split; [done|]. cbn in *.
    intros Hne Hh. by specialize (Hhit Hne Hh).
Qed.

End GuardProofs.

Lemma suffix_of_new (base new after upto : list Event) :
  new ++ base = after ++ upto ->
  (length base < length upto)%nat ->
  exists mid, mid <> [] /\ upto = mid ++ base /\ new = after ++ mid.
Proof.
  intros Heq Hlen.
  apply app_eq_app in Heq as [l [[-> ->]|[-> ->]]].
  - exists l. split; [|done]. intros ->. cbn in Hlen. lia.
  - rewrite length_app in Hlen. lia.
Qed.

(** C1, as the code has it.  In one run of purchase-and-import, once a
    search of the run is answered with a cheapest listing whose price is
    at least 400 cents and at least 1.05 times the cached safe price of
    the name searched for, that search is the last call of the run (so the
    listing is not bought) and the run resolves to the empty list.  The
    threshold of 400 is on the price of the listing; no quantity is
    read. *)
Theorem purchase_guard config env withdrawalItems names merchant st sp :
  safe_prices (db st) = Some sp ->
  (forall after upto,
     trace (snd (_buyPlaceholderItems config env withdrawalItems names merchant st))
       = after ++ upto ->
     (length (trace st) < length upto)%nat ->
     guard_hit env sp upto = true ->
     after = []
     /\ fst (_buyPlaceholderItems config env withdrawalItems names merchant st)
        = Ok ([], names))
  /\ forall r0 safe,
       too_expensive r0 safe = true
       <-> 400 <= amount r0 /\ (inject_Z safe * 1.05 <= inject_Z (amount r0))%Q.
Proof.
  intros Hsp. split; [|apply too_expensive_spec].
  assert (Hfresh : fresh env sp (trace st) st).
  { split; [|done]. exists []. split; [done|].
    intros after upto Heq Hafter _. by destruct after. }
  destruct (buyPlaceholderItems_spec env sp (trace st) config withdrawalItems
              names merchant st Hfresh Hsp) as [(new & Hnew & Hquiet) Hhit].
  intros after upto Htr Hlen Hguard.
  rewrite Hnew in Htr.
  destruct (suffix_of_new _ _ _ _ Htr Hlen) as (mid & Hmid & -> & ->).
  destruct after as [|ev after].
  - split; [done|]. apply Hhit.
    + rewrite Hnew. cbn. intros Habs. apply (f_equal length) in Habs.
      rewrite length_app in Habs. destruct mid; [done|cbn in Habs; lia].
    + by rewrite Hnew.
  - rewrite (Hquiet (ev :: after) mid) in Hguard; done.
Qed.

Lemma purchase_guard_witness :
  fst (_buyPlaceholderItems cfg pricey (requested_items 3 (db one_item))
         ["AK-47"] 900 one_item)
  = Ok ([], ["AK-47"]).
Proof.
  destruct (purchase_guard cfg pricey (requested_items 3 (db one_item))
              ["AK-47"] 900 one_item
              (default ∅ (safe_prices (db one_item)))) as [H _].
  - by vm_compute.
  - apply (H [] [EvOpskinsSearch "AK-47"; EvOpskinsGetBalance]).
    + by vm_compute.
    + cbn. lia.
    + by vm_compute.
Defined.

(** C1, as stated, fails: the cheapest AK-47 costs 300 cents, three times
    its cached safe price of 100, OPSkins reports 400 of them on sale, and
    the purchase proceeds: the listing is bought and the item is returned. *)
Lemma cheap_listing_is_bought :
  let '(r, st') :=
    _buyPlaceholderItems cfg calm (requested_items 3 (db one_item))
      ["AK-47"] 900 one_item in
  opskins_search calm [EvOpskinsGetBalance] "AK-47"
    = inr [{| sale_id := 9; amount := 300; market_name := "AK-47" |}]
  /\ (safe_prices (db one_item) ≫= (.!! "AK-47")) = Some 100
  /\ (1.05 * inject_Z 100 < inject_Z 300)%Q
  /\ (opskins_getLowestPrices calm [] =
        inr {[ "AK-47" := {| price := 300; quantity := 400 |} ]})
  /\ r = Ok ([ak47], [])
  /\ trace st' = [EvGetUserInventoryContents 900; EvWait 2;
                  EvOpskinsWithdraw [Some 77]; EvOpskinsBuyItems 9 300;
                  EvOpskinsSearch "AK-47"; EvOpskinsGetBalance].
Proof. vm_compute. done. Qed.

(** ** Further checks of the model *)

(** The lock of a withdrawal that a merchant already holds is refused and
    writes nothing. *)
Lemma claimed_withdrawal_not_locked config env withdrawalId merchant st balance :
  opskins_getBalance env (trace st) = inr balance ->
  claimed_by_a_merchant withdrawalId (db st) ->
  _lockWithdrawal config env withdrawalId merchant st
  = (Ok false, emit EvOpskinsGetBalance st).
Proof.
  intros Hbal Hclaimed.
  unfold _lockWithdrawal, in_callback, bind at 1, call. cbn [fst snd].
  rewrite Hbal. unfold oneOrNone, bind.
  rewrite update_trades_no_match; [done|].
  intros t Ht. cbn in Ht.
  destruct (bool_decide (trade_id t = withdrawalId)) eqn:Hid; [|done].
  apply bool_decide_eq_true in Hid. specialize (Hclaimed t Ht Hid).
  unfold col_eq. destruct (merchant_steam_id t) as [m|]; [|done].
  rewrite bool_decide_eq_false_2 by congruence. done.
Qed.

(** A deposit on the good path: claimed, both assets found, offered. *)
Example deposit_is_offered :
  let st' := snd (startDeposit cfg calm 1 new_deposit_world) in
  map (fun t => (merchant_steam_id t, acknowledged_at t, offered_at t,
                 steam_offer_id t, failed_at t))
      (trade_deposits (db st'))
    = [(Some 900, Some 0, Some 5, Some "offer-1", None)]
  /\ trace st' = [EvSendOffer {| offer_url := "https://trade/alice";
                                 their_items := [ak47; awp]; my_items := [] |};
                  EvGetUserDetails "https://trade/alice";
                  EvGetUserInventoryContents 7].
Proof. vm_compute. done. Qed.

(** A withdrawal whose only listing is gone when bought: the shortfall is
    recorded as a failure, then the OPSkins inventory is scanned and the
    relisting is started; no offer is sent. *)
Example shortfall_is_recorded :
  let '(r, st') := startWithdrawal cfg stale_listing 3 one_item in
  r = Ok tt
  /\ failures trade_withdrawals_tbl 3 (db st')
     = [(Some 5, Some "Failed to complete withdrawal, please try again later.")]
  /\ trace st' = [EvOpskinsListItems
                    [{| li_appid := 730; li_contextid := 2; li_assetid := "a1";
                        li_price := 300 |}];
                  EvOpskinsGetListingLimit; EvOpskinsGetLowestPrices;
                  EvGetUserInventoryContents 900;
                  EvOpskinsGetInventory ["AK-47"];
                  EvOpskinsBuyItems 9 300; EvOpskinsSearch "AK-47";
                  EvOpskinsGetBalance;
                  EvGetUserDetails "https://trade/alice"; EvOpskinsGetBalance].
Proof. vm_compute. done. Qed.

(** The withdrawal on the good path: bought, imported, offered, confirmed. *)
Example withdrawal_is_offered :
  let '(r, st') := startWithdrawal cfg calm 3 one_item in
  r = Ok tt
  /\ map (fun t => (merchant_steam_id t, offered_at t, steam_offer_id t, failed_at t))
         (trade_withdrawals (db st'))
     = [(Some 900, Some 5, Some "offer-1", None)]
  /\ head (trace st') = Some (EvAcceptConfirmation "offer-1").
Proof. vm_compute. done. Qed.

(** * Further properties *)

(** ** The bridge and the fetches under any relation that calls keep *)

Section Bridge.

Context (R : St -> St -> Prop) `{!PreOrder R}.
Hypothesis R_call :
  forall X ev (answer : list Event -> X),
    is_send ev = false -> preserves R (call ev answer).

Ltac bridge_auto :=
  repeat first
    [ apply R_call; reflexivity
    | preserves_step ].

Lemma bridge_getDbCentPrices lo hi : preserves R (_getDbCentPrices lo hi).
Proof. unfold _getDbCentPrices. bridge_auto. Qed.

Lemma bridge_listItemsToOpskins config env items :
  preserves R (_listItemsToOpskins config env items).
Proof.
  unfold _listItemsToOpskins, _listItems.
  bridge_auto; apply bridge_getDbCentPrices.
Qed.

Lemma bridge_list_after_acquisition config env :
  preserves R (list_after_acquisition config env).
Proof.
  unfold list_after_acquisition. unfold_calls.
  bridge_auto; apply bridge_listItemsToOpskins.
Qed.

Lemma bridge_listAgainItems config env names :
  preserves R (_listAgainItems config env names).
Proof.
  unfold _listAgainItems. unfold_calls.
  bridge_auto; apply bridge_listItemsToOpskins.
Qed.

Lemma bridge_fetchInventoryItems env steamId assetIds retry :
  preserves R (_fetchInventoryItems env steamId assetIds retry).
Proof.
  unfold _fetchInventoryItems, _fetchInventoryItems_body. unfold_calls.
  bridge_auto.
Qed.

Lemma bridge_search_attempts env item : preserves R (search_attempts env item).
Proof. unfold search_attempts. unfold_calls. bridge_auto. Qed.

Lemma bridge_buy_attempts env item results balance purchases :
  preserves R (buy_attempts env item results balance purchases).
Proof. unfold buy_attempts, buy_one. unfold_calls. bridge_auto. Qed.

Lemma bridge_buy_loop env sp names n i searches balance purchases :
  preserves R (buy_loop env sp names n i searches balance purchases).
Proof.
  revert i searches balance purchases.
  induction n as [|n IH]; intros i searches balance purchases; cbn [buy_loop].
  - bridge_auto.
  - destruct (searches <? RPM * 4); [|bridge_auto].
    destruct (sp !! js_key (names !! i)); [|bridge_auto].
    apply preserves_bind; [apply _|apply bridge_search_attempts|].
    intros [[|r0 results]|]; [bridge_auto| |apply IH].
    destruct (too_expensive r0 _); [bridge_auto|].
    apply preserves_bind; [apply _|apply bridge_buy_attempts|].
    intros [balance' purchases'].
    apply preserves_bind; [apply _| |intros _; apply IH].
    unfold_calls. bridge_auto.
Qed.

Lemma bridge_fetch_with_relogin env merchant :
  preserves R (fetch_with_relogin env merchant).
Proof. unfold fetch_with_relogin. unfold_calls. bridge_auto. Qed.

Lemma bridge_buyPlaceholderItems config env withdrawalItems names merchant :
  preserves R (_buyPlaceholderItems config env withdrawalItems names merchant).
Proof.
  unfold _buyPlaceholderItems.
  destruct (truthy (opskins_key config)); [|bridge_auto].
  apply preserves_in_callback.
  apply preserves_bind; [apply _|by apply R_call|].
  intros [err|balance]; [bridge_auto|].
  apply preserves_bind; [apply _|apply bridge_getDbCentPrices|].
  intros [sp|]; [|bridge_auto].
  apply preserves_bind; [apply _|apply bridge_buy_loop|].
  intros [purchases|]; [|bridge_auto].
  destruct (_ && _); [|bridge_auto].
  unfold_calls.
  bridge_auto; try apply bridge_fetch_with_relogin.
  all: destruct (take_requested _ _); bridge_auto.
Qed.

End Bridge.

(** ** Calls of the workflows *)

#[local] Instance emits_preorder P : PreOrder (emits P).
Proof.
  split.
  - intros st. apply extends_refl.
  - intros a b c (n1 & H1 & F1) (n2 & H2 & F2). exists (n2 ++ n1). split.
    + by rewrite H2, H1, app_assoc.
    + by apply Forall_app.
Qed.

Lemma emits_call P {X} ev (answer : list Event -> X) :
  P ev -> preserves (emits P) (call ev answer).
Proof. intros Hev st. exists [ev]. split; [done|]. by apply Forall_singleton. Qed.

Lemma emits_silent P {A} (m : M A) :
  (forall st, trace (snd (m st)) = trace st) -> preserves (emits P) m.
Proof. intros H st. unfold emits. rewrite H. apply extends_refl. Qed.

Lemma emits_update_trades P tb cond set :
  preserves (emits P) (update_trades tb cond set).
Proof. by apply emits_silent. Qed.

Lemma emits_update_users P cond set : preserves (emits P) (update_users cond set).
Proof. by apply emits_silent. Qed.

Lemma emits_fail P env tb id e : preserves (emits P) (fail env tb id e).
Proof. apply emits_silent. intros st. by rewrite fail_effect. Qed.

Ltac emits_auto :=
  unfold failDeposit, failWithdrawal; unfold_calls;
  repeat first
    [ apply emits_fail
    | apply emits_update_trades
    | apply emits_update_users
    | apply emits_call; cbn; solve [done | split; done]
    | preserves_step ].

(** ** Balances *)

#[local] Instance same_users_preorder : PreOrder same_users.
Proof.
  split; [by intros st|].
  intros a b c Hab Hbc. unfold same_users in *. congruence.
Qed.

Lemma same_users_call {X} ev (answer : list Event -> X) :
  is_send ev = false -> preserves same_users (call ev answer).
Proof. by intros _ st. Qed.

Lemma same_users_any_call {X} ev (answer : list Event -> X) :
  preserves same_users (call ev answer).
Proof. by intros st. Qed.

Lemma same_users_update_trades tb cond set :
  preserves same_users (update_trades tb cond set).
Proof. intros st. by destruct tb. Qed.

Lemma same_users_fail env tb id e : preserves same_users (fail env tb id e).
Proof. intros st. rewrite fail_effect. by destruct tb. Qed.

Ltac same_users_auto :=
  unfold failDeposit, failWithdrawal; unfold_calls;
  repeat first
    [ apply same_users_fail
    | apply same_users_update_trades
    | apply (bridge_buyPlaceholderItems _ (@same_users_call))
    | apply (bridge_listAgainItems _ (@same_users_call))
    | apply same_users_any_call
    | preserves_step ].

Lemma same_users_startDeposit config env id :
  preserves same_users (startDeposit config env id).
Proof.
  unfold startDeposit, acknowledgeDeposit, _fetchInventoryItems,
    _fetchInventoryItems_body.
  same_users_auto.
Qed.

Lemma same_users_startWithdrawal config env id :
  preserves same_users (startWithdrawal config env id).
Proof. unfold startWithdrawal, _lockWithdrawal. same_users_auto. Qed.

Lemma same_users_completeWithdrawal env offer oldState :
  preserves same_users (completeWithdrawal env offer oldState).
Proof. unfold completeWithdrawal. same_users_auto. Qed.

Lemma same_users_completeDeposit config env offer oldState :
  ~ (offer_state offer = Accepted /\ oldState ∈ COMPLETABLE_STATES) ->
  preserves same_users (completeDeposit config env offer oldState).
Proof.
  intros Hnot. unfold completeDeposit.
  case_bool_decide as Hold; [same_users_auto|].
  try apply dec_stable in Hold.
  destruct (offer_state offer) eqn:Hstate;
    try (exfalso; apply Hnot; by split); same_users_auto.
Qed.

(** X1.  Only the acceptance of a deposit changes a balance: any other event
    the core handles (a deposit or a withdrawal to start, an offer event
    of a withdrawal, an offer event of a deposit other than its
    acceptance from a completable state) leaves the [users] table as it
    was, in every outside world. *)
Theorem only_accepted_deposit_credits config env op st :
  ~ crediting op ->
  users (db (snd (handle config env op st))) = users (db st).
Proof.
  intros Hnot. destruct op as [id|id|offer oldState]; cbn [handle].
  - apply same_users_startDeposit.
  - apply same_users_startWithdrawal.
  - unfold sentOfferChanged. cbn in Hnot.
    destruct (itemsToReceive offer) as [|i items].
    + apply same_users_completeWithdrawal.
    + apply same_users_completeDeposit. intros [? ?]. apply Hnot. done.
Qed.

Lemma only_accepted_deposit_credits_witness :
  users (db (snd (handle cfg calm (Offer_changed (offer_1 Declined) Active)
                    deposit_world)))
  = [alice].
Proof.
  apply (only_accepted_deposit_credits cfg calm
           (Offer_changed (offer_1 Declined) Active) deposit_world).
  intros (_ & Habs & _). discriminate Habs.
Defined.

(** ** Offer events that call nobody *)

Lemma no_call_same_trace st st' : emits no_call st st' -> trace st' = trace st.
Proof. intros (new & -> & Hnew). destruct new as [|ev new]; [done|]. by inv Hnew. Qed.

Lemma quiet_completeWithdrawal env offer oldState :
  preserves (emits no_call) (completeWithdrawal env offer oldState).
Proof. unfold completeWithdrawal. emits_auto. Qed.

Lemma quiet_completeDeposit config env offer oldState :
  ~ (offer_state offer = Accepted /\ oldState ∈ COMPLETABLE_STATES) ->
  preserves (emits no_call) (completeDeposit config env offer oldState).
Proof.
  intros Hnot. unfold completeDeposit.
  case_bool_decide as Hold; [emits_auto|].
  try apply dec_stable in Hold.
  destruct (offer_state offer) eqn:Hstate;
    try (exfalso; apply Hnot; by split); emits_auto.
Qed.

(** X2.  An offer event other than the acceptance of a deposit is settled in
    the store alone: handling it calls neither Steam nor OPSkins.  In
    particular the completion of a withdrawal never starts a listing. *)
Theorem offer_event_calls_nobody config env offer oldState st :
  ~ crediting (Offer_changed offer oldState) ->
  trace (snd (sentOfferChanged config env offer oldState st)) = trace st.
Proof.
  intros Hnot. apply no_call_same_trace. unfold sentOfferChanged. cbn in Hnot.
  destruct (itemsToReceive offer) as [|i items].
  - apply quiet_completeWithdrawal.
  - apply quiet_completeDeposit. intros [? ?]. apply Hnot. done.
Qed.

Lemma offer_event_calls_nobody_witness :
  trace (snd (sentOfferChanged cfg calm (offer_1 Expired) Active deposit_world))
  = [].
Proof.
  apply (offer_event_calls_nobody cfg calm (offer_1 Expired) Active deposit_world).
  intros (_ & Habs & _). discriminate Habs.
Defined.

(** ** The life of a row *)

#[local] Instance row_kept_preorder tb : PreOrder (row_kept tb).
Proof.
  split.
  - intros t. unfold row_kept. destruct tb; split_and!; done.
  - intros a b c Hab Hbc. unfold row_kept in *.
    destruct Hab as (?&?&?&?&?&?&?&Ho&Hc&Hf&Hclaim).
    destruct Hbc as (?&?&?&?&?&?&?&Ho'&Hc'&Hf'&Hclaim').
    split_and!; try congruence; try (intros; eauto).
    destruct tb.
    + intros Hack. destruct (Hclaim Hack) as [Ha Hm].
      rewrite <- Ha in Hack. destruct (Hclaim' Hack) as [Ha' Hm'].
      split; congruence.
    + destruct Hclaim as [Ha Hm], Hclaim' as [Ha' Hm']. split; [congruence|].
      intros Hne. rewrite <- (Hm Hne). apply Hm'. by rewrite (Hm Hne).
Qed.

#[local] Instance lifecycle_preorder : PreOrder lifecycle.
Proof.
  split.
  - intros st tb. reflexivity.
  - intros a b c Hab Hbc tb. etrans; [apply Hab|apply Hbc].
Qed.

Lemma lifecycle_call {X} ev (answer : list Event -> X) :
  is_send ev = false -> preserves lifecycle (call ev answer).
Proof. intros _ st tb. reflexivity. Qed.

Lemma lifecycle_any_call {X} ev (answer : list Event -> X) :
  preserves lifecycle (call ev answer).
Proof. intros st tb. reflexivity. Qed.

Lemma lifecycle_update_users cond set :
  preserves lifecycle (update_users cond set).
Proof. intros st tb. destruct tb; reflexivity. Qed.

Lemma lifecycle_update_trades tb cond set :
  (forall t, cond t = true -> row_kept tb t (set t)) ->
  preserves lifecycle (update_trades tb cond set).
Proof.
  intros Hset st tb'. cbn.
  assert (Hupd : Forall2 (row_kept tb) (table tb (db st))
                   (sql_update cond set (table tb (db st)))).
  { unfold sql_update. apply Forall2_fmap_r, Forall_Forall2_diag, Forall_forall.
    intros t _. cbn. destruct (cond t) eqn:Hc; [by apply Hset|reflexivity]. }
  destruct tb, tb'; cbn in *; first [exact Hupd|reflexivity].
Qed.

Lemma row_kept_acknowledged now m t :
  is_null (acknowledged_at t) = true ->
  row_kept trade_deposits_tbl t (set_acknowledged now m t).
Proof.
  intros Hnull. unfold row_kept. cbn. split_and!; try done.
  intros [x Hx]. rewrite Hx in Hnull. discriminate Hnull.
Qed.

Lemma row_kept_merchant m t :
  col_eq (merchant_steam_id t) 1 = true ->
  row_kept trade_withdrawals_tbl t (set_merchant m t).
Proof.
  intros Hone. unfold row_kept. cbn. split_and!; try done.
  intros Hne. exfalso. apply Hne. unfold col_eq in Hone.
  destruct (merchant_steam_id t) as [x|]; [|done].
  apply bool_decide_eq_true in Hone. by subst.
Qed.

Lemma row_kept_offered tb created id t : row_kept tb t (set_offered created id t).
Proof. unfold row_kept. cbn. destruct tb; split_and!; eauto. Qed.

Lemma row_kept_completed tb now t : row_kept tb t (set_completed now t).
Proof. unfold row_kept. cbn. destruct tb; split_and!; eauto. Qed.

Lemma row_kept_failed tb now message t : row_kept tb t (set_failed now message t).
Proof. unfold row_kept. cbn. destruct tb; split_and!; eauto. Qed.

Lemma lifecycle_fail env tb id e : preserves lifecycle (fail env tb id e).
Proof.
  unfold fail.
  repeat first
    [ apply lifecycle_update_trades; intros; apply row_kept_failed
    | preserves_step ].
Qed.

Ltac lifecycle_auto :=
  unfold failDeposit, failWithdrawal; unfold_calls;
  repeat first
    [ apply lifecycle_fail
    | apply lifecycle_update_users
    | apply lifecycle_update_trades; intros ? ?;
      first [ apply row_kept_offered | apply row_kept_completed ]
    | apply (bridge_buyPlaceholderItems _ (@lifecycle_call))
    | apply (bridge_listAgainItems _ (@lifecycle_call))
    | apply (bridge_list_after_acquisition _ (@lifecycle_call))
    | apply lifecycle_any_call
    | preserves_step ].

Lemma lifecycle_acknowledgeDeposit config env m id :
  preserves lifecycle (acknowledgeDeposit config env m id).
Proof.
  unfold acknowledgeDeposit, oneOrNone.
  apply preserves_bind; [apply _|lifecycle_auto|]. intros now.
  apply preserves_bind; [apply _| |intros ?; lifecycle_auto].
  apply lifecycle_update_trades. intros t Hc.
  apply andb_prop in Hc as [_ Hnull]. by apply row_kept_acknowledged.
Qed.

Lemma lifecycle_lockWithdrawal config env id m :
  preserves lifecycle (_lockWithdrawal config env id m).
Proof.
  unfold _lockWithdrawal, oneOrNone. apply preserves_in_callback.
  apply preserves_bind; [apply _|apply lifecycle_any_call|].
  intros [err|balance]; [lifecycle_auto|].
  apply preserves_bind; [apply _| |intros ?; lifecycle_auto].
  apply preserves_bind; [apply _| |intros ?; lifecycle_auto].
  apply lifecycle_update_trades. intros t Hc.
  do 2 apply andb_prop in Hc as [Hc _]. apply andb_prop in Hc as [_ Hone].
  by apply row_kept_merchant.
Qed.

Lemma lifecycle_startDeposit config env id :
  preserves lifecycle (startDeposit config env id).
Proof.
  unfold startDeposit.
  destruct (steamID env); [|lifecycle_auto].
  apply preserves_bind; [apply _|apply lifecycle_acknowledgeDeposit|].
  intros ?. unfold _fetchInventoryItems, _fetchInventoryItems_body.
  lifecycle_auto.
Qed.

Lemma lifecycle_startWithdrawal config env id :
  preserves lifecycle (startWithdrawal config env id).
Proof.
  unfold startWithdrawal.
  destruct (steamID env); [|lifecycle_auto].
  apply preserves_bind; [apply _|apply lifecycle_lockWithdrawal|].
  intros ?. lifecycle_auto.
Qed.

Lemma lifecycle_handle config env op : preserves lifecycle (handle config env op).
Proof.
  destruct op as [id|id|offer oldState]; cbn.
  - apply lifecycle_startDeposit.
  - apply lifecycle_startWithdrawal.
  - unfold sentOfferChanged, completeWithdrawal, completeDeposit.
    destruct (itemsToReceive offer); lifecycle_auto.
Qed.

(** X3.  Whatever events the core handles, in whatever worlds: no row of the
    two trade tables is added or removed; the identity, owner, item names
    and amounts of a row never change; a time stamp ([offered_at],
    [completed_at], [failed_at]) that is set stays set; the
    acknowledgment and merchant of an acknowledged deposit stay as they
    are; and the merchant of a withdrawal that has left the unclaimed
    state (merchant 1) never changes again. *)
Theorem rows_keep_their_life events st : lifecycle st (handle_all events st).
Proof.
  revert st. induction events as [|[[config env] op] events IH]; intros st.
  - reflexivity.
  - cbn. etrans; [apply lifecycle_handle|apply IH].
Qed.

(** ** Cached prices *)


Lemma cent_prices_fold_keeps results (acc : gmap string Z) name :
  (exists p, acc !! name = Some p /\ 0 < p) ->
  exists p,
    fold_left
      (fun (dbPrices : gmap string Z) result =>
         let price := Math_round (base_price_usd result * 100)%Q in
         if 0 <? price then <[cache_market_hash_name result := price]> dbPrices
         else dbPrices)
      results acc !! name = Some p /\ 0 < p.
Proof.
  revert acc. induction results as [|r results IH]; intros acc Hacc; [done|].
  cbn. apply IH. destruct (0 <? _) eqn:Hpos; [|done].
  destruct (decide (cache_market_hash_name r = name)) as [Heq|Hne].
  - subst name. rewrite lookup_insert_eq. eexists. split; [done|].
    by apply Z.ltb_lt.
  - by rewrite lookup_insert_ne.
Qed.

Lemma cent_prices_fold_complete results (acc : gmap string Z) r :
  r ∈ results -> 0 < cents r ->
  exists p,
    fold_left
      (fun (dbPrices : gmap string Z) result =>
         let price := Math_round (base_price_usd result * 100)%Q in
         if 0 <? price then <[cache_market_hash_name result := price]> dbPrices
         else dbPrices)
      results acc !! cache_market_hash_name r = Some p /\ 0 < p.
Proof.
  intros Hin Hpos. revert acc.
  induction results as [|r' results IH]; intros acc; [by apply elem_of_nil in Hin|].
  apply elem_of_cons in Hin as [<-|Hin]; [|by apply IH].
  cbn [fold_left]. apply cent_prices_fold_keeps. cbv zeta. fold (cents r).
  destruct (0 <? cents r) eqn:Hlt; [|apply Z.ltb_ge in Hlt; lia].
  exists (cents r). by rewrite lookup_insert_eq.
Qed.

Lemma selected_filter lo hi d r :
  r ∈ List.filter
        (fun r => negb (blacklisted r)
                  && Qle_bool lo (base_price_usd r)
                  && Qle_bool (base_price_usd r) hi)
        (steam_item_price_cache d)
  <-> selected lo hi d r.
Proof.
  unfold selected. rewrite list_elem_of_In, filter_In, <- list_elem_of_In.
  rewrite !andb_true_iff, negb_true_iff, !Qle_bool_iff. tauto.
Qed.



(** X5.  Every row that the query selects and whose rounded cent price is
    positive gives its name a positive price in the answer of
    [_getDbCentPrices]; the answer is then not [null]. *)
Theorem cent_price_for_every_row minPrice maxPrice st r :
  selected minPrice maxPrice (db st) r ->
  0 < cents r ->
  exists prices p,
    _getDbCentPrices minPrice maxPrice st = (Ok (Some prices), st)
    /\ prices !! cache_market_hash_name r = Some p /\ 0 < p.
Proof.
  intros Hsel Hpos. apply selected_filter in Hsel.
  unfold _getDbCentPrices, manyOrNone, select, bind, read_db, ret.
  cbv beta iota. cbn [fst].
  destruct (List.filter _ _) as [|r0 rows] eqn:Hrows;
    [by apply elem_of_nil in Hsel|].
  destruct (cent_prices_fold_complete (r0 :: rows) ∅ r Hsel Hpos) as (p&Hp&?).
  eexists _, p. split_and!; [reflexivity|exact Hp|done].
Qed.

Lemma cent_price_for_every_row_witness :
  exists prices p,
    _getDbCentPrices 0%Q 10000%Q deposit_world = (Ok (Some prices), deposit_world)
    /\ prices !! "AWP" = Some p /\ 0 < p.
Proof.
  apply (cent_price_for_every_row 0%Q 10000%Q deposit_world
           {| cache_market_hash_name := "AWP"; base_price_usd := 0.1;
              blacklisted := false |}).
  - unfold selected. cbn. split_and!; [|reflexivity|done|done].
    right. left.
  - vm_compute. reflexivity.
Defined.

(** ** What a computation returns *)

Lemma returns_ret {A} (Q : A -> Prop) a : Q a -> returns Q (ret a).
Proof. intros Ha st. exact Ha. Qed.

Lemma returns_throw {A} (Q : A -> Prop) e : returns Q (throw e).
Proof. intros st. exact I. Qed.

Lemma returns_weaken {A} (P Q : A -> Prop) (m : M A) :
  (forall a, P a -> Q a) -> returns P m -> returns Q m.
Proof.
  intros Himp Hm st. specialize (Hm st). destruct (fst (m st)); auto.
Qed.

Lemma returns_bind_of {A B} (P : A -> Prop) (Q : B -> Prop) (m : M A)
    (k : A -> M B) :
  returns P m -> (forall a, P a -> returns Q (k a)) -> returns Q (bind m k).
Proof.
  intros Hm Hk st. unfold bind. specialize (Hm st).
  destruct (m st) as [[a|e|] st']; cbn in *; [|done..].
  by apply Hk.
Qed.

Lemma returns_bind {A B} (Q : B -> Prop) (m : M A) (k : A -> M B) :
  (forall a, returns Q (k a)) -> returns Q (bind m k).
Proof.
  intros Hk. apply (returns_bind_of (fun _ => True)); [|auto].
  intros st. by destruct (fst (m st)).
Qed.

Lemma returns_try_catch {A} (Q : A -> Prop) (m : M A) (h : JsVal -> M A) :
  returns Q m -> (forall e, returns Q (h e)) -> returns Q (try_catch m h).
Proof.
  intros Hm Hh st. unfold try_catch. specialize (Hm st).
  destruct (m st) as [[a|e|] st']; cbn in *; [done| |done].
  apply Hh.
Qed.

Lemma returns_in_callback {A} (Q : A -> Prop) (m : M A) :
  returns Q m -> returns Q (in_callback m).
Proof.
  intros Hm st. unfold in_callback. specialize (Hm st).
  by destruct (m st) as [[a|e|] st'].
Qed.

(** A relation is carried through a bind whose continuation may rely on
    what the first computation returns. *)
Lemma preserves_bind_of {A B} (R : St -> St -> Prop) `{!PreOrder R}
    (P : A -> Prop) (m : M A) (k : A -> M B) :
  preserves R m -> returns P m -> (forall a, P a -> preserves R (k a)) ->
  preserves R (bind m k).
Proof.
  intros Hm Hret Hk st. unfold bind. specialize (Hm st). specialize (Hret st).
  destruct (m st) as [[a|e|] st']; cbn in *; [|done..].
  etrans; [exact Hm|by apply Hk].
Qed.

Ltac returns_step :=
  lazymatch goal with
  | |- returns _ (ret _) => apply returns_ret
  | |- returns _ (throw _) => apply returns_throw
  | |- returns _ (try_catch _ _) => apply returns_try_catch; [|intros ?]
  | |- returns _ (in_callback _) => apply returns_in_callback
  | |- returns _ (bind _ _) => apply returns_bind; intros ?
  | |- returns _ (match ?x with _ => _ end) => destruct x eqn:?
  | |- returns _ (if ?b then _ else _) => destruct b eqn:?
  end.

(** ** The inventory fetch *)

Lemma returns_fetchInventoryItems_body env self steamId assetIds retry :
  returns (requested assetIds)
          (_fetchInventoryItems_body env self steamId assetIds retry).
Proof.
  unfold _fetchInventoryItems_body.
  apply (returns_bind_of (Forall (fun item => assetid item ∈ assetIds))).
  - apply returns_try_catch.
    + apply returns_bind. intros inv. apply returns_ret.
      apply Forall_forall. intros item Hin.
      apply list_elem_of_In, filter_In in Hin as [_ Hin].
      by apply bool_decide_eq_true in Hin.
    + intros e. apply returns_bind. intros _.
      destruct (negb retry); [apply returns_throw|].
      apply returns_bind. intros _. by apply returns_ret.
  - intros items Hitems. case_bool_decide as Hlen; [apply returns_throw|].
    apply returns_ret. split; [|done].
    by destruct (decide (length items = length assetIds)).
Qed.


(** ** What the sourcing returns *)

Lemma take_requested_fold names items taken rest :
  rest ⊆ names ->
  NoDup (map market_hash_name taken) ->
  Forall (fun item => market_hash_name item ∈ names) taken ->
  Forall (fun item => market_hash_name item ∉ rest) taken ->
  let r :=
    fold_left
      (fun (acc : list InvItem * list string) item =>
         let '(itemsfiltred, names) := acc in
         if bool_decide (market_hash_name item ∈ names) then
           (itemsfiltred ++ [item],
            List.filter
              (fun name => negb (bool_decide (name = market_hash_name item)))
              names)
         else acc)
      items (taken, rest) in
  snd r ⊆ names
  /\ NoDup (map market_hash_name (fst r))
  /\ Forall (fun item => market_hash_name item ∈ names) (fst r)
  /\ Forall (fun item => market_hash_name item ∉ snd r) (fst r).
Proof.
  revert taken rest. induction items as [|item items IH];
    intros taken rest Hrest Hdup Hin Hout; [done|].
  cbn [fold_left]. case_bool_decide as Hitem; [|by apply IH].
  assert (Hfilter : forall name,
            name ∈ List.filter
                     (fun name => negb (bool_decide (name = market_hash_name item)))
                     rest
            <-> name ∈ rest /\ name <> market_hash_name item).
  { intros name. rewrite list_elem_of_In, filter_In, <- list_elem_of_In.
    rewrite negb_true_iff, bool_decide_eq_false. done. }
  apply IH.
  - intros name Hname. apply Hfilter in Hname as [Hname _]. by apply Hrest.
  - rewrite map_app. apply NoDup_app. split_and!; [done| |apply NoDup_singleton].
    intros name Hname Hname'. apply list_elem_of_singleton in Hname' as ->.
    apply list_elem_of_fmap in Hname as (item' & Heq & Hitem').
    rewrite Forall_forall in Hout. apply (Hout item' Hitem').
    by rewrite <- Heq.
  - apply Forall_app. split; [done|]. apply Forall_singleton. by apply Hrest.
  - apply Forall_app. split.
    + eapply Forall_impl; [exact Hout|]. intros item' Hnot Hname.
      apply Hfilter in Hname as [Hname _]. by apply Hnot.
    + apply Forall_singleton. intros Hname. by apply Hfilter in Hname as [_ ?].
Qed.

Lemma take_requested_sourced items names :
  let r := take_requested items names in
  snd r ⊆ names
  /\ NoDup (map market_hash_name (fst r))
  /\ Forall (fun item => market_hash_name item ∈ names) (fst r)
  /\ Forall (fun item => market_hash_name item ∉ snd r) (fst r).
Proof.
  unfold take_requested. apply take_requested_fold; [done|constructor|done..].
Qed.

Lemma sourced_nothing names n : sourced names n ([], names).
Proof. split; [done|by left]. Qed.

Lemma returns_buyPlaceholderItems config env withdrawalItems names merchant :
  returns (sourced names (length withdrawalItems))
          (_buyPlaceholderItems config env withdrawalItems names merchant).
Proof.
  unfold _buyPlaceholderItems.
  repeat first
    [ apply returns_ret, sourced_nothing
    | lazymatch goal with
      | |- returns _ (let '(_, _) := take_requested ?items ?names in _) =>
          pose proof (take_requested_sourced items names) as Htaken;
          destruct (take_requested items names) as [taken rest] eqn:?;
          cbn [fst snd] in Htaken; destruct Htaken as (Hrest & Hdup & Hin & Hout)
      end
    | returns_step ].
  - split; [done|by left].
  - split; [done|]. right. cbn [fst snd].
    match goal with
    | H : _ || _ = false |- _ => apply orb_false_iff in H as [_ Hlen]
    end.
    apply negb_false_iff, bool_decide_eq_true in Hlen. by split_and!.
Qed.


(** X8.  An offer the withdrawal workflow sends asks the user for no item and
    gives at least one and at most three items of the merchant, no two of
    the same name; this holds in every store and every outside world. *)
Theorem withdrawal_offer_shape config env withdrawalId st :
  emits withdrawal_call st (snd (startWithdrawal config env withdrawalId st)).
Proof.
  revert st. change (preserves (emits withdrawal_call)
                       (startWithdrawal config env withdrawalId)).
  assert (Hcall : forall X ev (answer : list Event -> X),
             is_send ev = false -> preserves (emits withdrawal_call) (call ev answer)).
  { intros X ev answer Hev. apply emits_call. by destruct ev. }
  unfold startWithdrawal, _lockWithdrawal.
  unfold failWithdrawal. unfold_calls.
  repeat first
    [ apply emits_fail
    | apply emits_update_trades
    | lazymatch goal with
      | |- preserves _ (bind (_buyPlaceholderItems _ _ ?items ?names _) _) =>
          apply (preserves_bind_of _ (sourced names (length items)));
          [ apply (bridge_buyPlaceholderItems _ Hcall)
          | apply returns_buyPlaceholderItems
          | intros [myItems names'] Hsourced ]
      | |- preserves _ (match ?x with _ => _ end) => destruct x eqn:?
      end
    | apply (bridge_listAgainItems _ Hcall)
    | apply emits_call; cbn; solve [done | split; done]
    | preserves_step ].
  apply emits_call. cbn.
  destruct Hsourced as [_ [Hnone|(Hlen & Hdup & _)]]; [done|].
  cbn [fst] in Hlen, Hdup.
  match goal with
  | H : bool_decide (_ < _)%nat = false |- _ =>
      apply bool_decide_eq_false in H; rename H into Hmax
  end.
  cbn [length] in Hlen. split_and!; [done|done|lia|done].
Qed.

(** X9.  A withdrawal that has more item rows than different names (it asks
    for some name twice) is never served by [_buyPlaceholderItems]: the
    final filter takes one inventory item per name, so the count check
    fails and the promise resolves with no item, whatever was bought. *)
Theorem same_name_twice_is_never_sourced config env withdrawalItems names merchant :
  (length (remove_dups names) < length withdrawalItems)%nat ->
  returns (fun r => fst r = [])
          (_buyPlaceholderItems config env withdrawalItems names merchant).
Proof.
  intros Hfew. eapply returns_weaken; [|apply returns_buyPlaceholderItems].
  intros [items rest] [_ [Hnone|(Hlen & Hdup & Hin & _)]]; [done|].
  cbn [fst] in *. exfalso.
  assert (Hsub : map market_hash_name items ⊆+ remove_dups names).
  { apply NoDup_submseteq; [done|]. intros name Hname.
    apply elem_of_remove_dups.
    apply list_elem_of_fmap in Hname as (item & -> & Hitem).
    rewrite Forall_forall in Hin. by apply Hin. }
  apply submseteq_length in Hsub. rewrite length_map in Hsub. lia.
Qed.

Lemma same_name_twice_is_never_sourced_witness :
  returns (fun r => fst r = [])
    (_buyPlaceholderItems cfg calm
       [{| item_trade_id := 2; steam_asset_id := "a1" |};
        {| item_trade_id := 2; steam_asset_id := "a2" |}]
       ["AK-47"; "AK-47"] 900).
Proof.
  apply (same_name_twice_is_never_sourced cfg calm
           [{| item_trade_id := 2; steam_asset_id := "a1" |};
            {| item_trade_id := 2; steam_asset_id := "a2" |}]
           ["AK-47"; "AK-47"] 900).
  vm_compute. lia.
Defined.

(** ** The offer of a deposit *)

Section From.

Context {I : St -> Prop} {R : St -> St -> Prop} `{!PreOrder R}.
Hypothesis I_stable : forall st st', I st -> R st st' -> I st'.

Lemma from_preserves {A} (m : M A) : preserves R m -> preserves_from I R m.
Proof. intros Hm st _. apply Hm. Qed.

Lemma from_bind {A B} (m : M A) (k : A -> M B) :
  preserves_from I R m -> (forall a, preserves_from I R (k a)) ->
  preserves_from I R (bind m k).
Proof.
  intros Hm Hk st Hst. unfold bind. specialize (Hm st Hst).
  destruct (m st) as [[a|e|] st']; cbn in *; [|done..].
  etrans; [exact Hm|]. apply Hk. by apply (I_stable st).
Qed.

End From.

#[local] Instance asking_preorder assetIds : PreOrder (asking assetIds).
Proof.
  split.
  - intros st. split; reflexivity.
  - intros a b c [Hab Hab'] [Hbc Hbc']. split; [by etrans|congruence].
Qed.

Lemma asking_call assetIds {X} ev (answer : list Event -> X) :
  deposit_call assetIds ev -> preserves (asking assetIds) (call ev answer).
Proof. intros Hev st. split; [by apply emits_call|done]. Qed.

Lemma asking_update_trades assetIds tb cond set :
  preserves (asking assetIds) (update_trades tb cond set).
Proof. intros st. split; [apply emits_update_trades|by destruct tb]. Qed.

Lemma asking_fail assetIds env tb id e :
  preserves (asking assetIds) (fail env tb id e).
Proof.
  intros st. split; [apply emits_fail|]. rewrite fail_effect. by destruct tb.
Qed.

Ltac asking_auto :=
  unfold failDeposit; unfold_calls;
  repeat first
    [ apply asking_fail
    | apply asking_update_trades
    | apply asking_call; cbn; solve [done]
    | preserves_step ].

Lemma asking_deposit_items assetIds items depositId {B}
    (k : list TradeItem -> M B) :
  preserves_from (fun st => trade_deposit_items (db st) = items)
    (asking assetIds)
    (k (List.filter (fun i => bool_decide (item_trade_id i = depositId)) items)) ->
  preserves_from (fun st => trade_deposit_items (db st) = items)
    (asking assetIds)
    (bind (many (select trade_deposit_items
                   (fun i => bool_decide (item_trade_id i = depositId)))) k).
Proof.
  intros Hk st Hst. specialize (Hk st Hst).
  unfold many, select, read_db, ret, throw. repeat unfold bind. cbn.
  rewrite Hst. destruct (List.filter _ items); [reflexivity|exact Hk].
Qed.

Lemma returns_fetched env steamId assetIds retry :
  returns (fun r : JsVal + list InvItem =>
             match r with
             | inl _ => True
             | inr items => requested assetIds items
             end)
    (try_catch
       (items <- _fetchInventoryItems env steamId assetIds retry ;; ret (inr items))
       (fun e => ret (inl e))).
Proof.
  apply returns_try_catch; [|intros e; by apply returns_ret].
  eapply returns_bind_of; [apply returns_fetchInventoryItems_body|].
  intros items Hitems. by apply returns_ret.
Qed.

(** X10.  The deposit workflow calls Steam only (inventory, re-login, profile,
    offer), never OPSkins; and an offer it sends holds no item of the
    merchant and asks for as many items as the deposit has item rows in
    the store, each with the asset id of one of these rows.  This holds in
    every store and every outside world. *)
Theorem deposit_offer_asks_the_deposit config env depositId st :
  emits (deposit_call (deposit_asset_ids (trade_deposit_items (db st)) depositId))
        st (snd (startDeposit config env depositId st)).
Proof.
  set (items := trade_deposit_items (db st)).
  set (assetIds := deposit_asset_ids items depositId).
  assert (Hstable : forall s s' : St,
             trade_deposit_items (db s) = items -> asking assetIds s s' ->
             trade_deposit_items (db s') = items).
  { intros s s' Hs [_ Hs']. congruence. }
  enough (Hfrom : preserves_from (fun st => trade_deposit_items (db st) = items)
                    (asking assetIds) (startDeposit config env depositId))
    by (by apply Hfrom).
  unfold startDeposit.
  destruct (steamID env) as [merchant|]; [|apply from_preserves; asking_auto].
  apply (from_bind Hstable).
  { apply from_preserves. unfold acknowledgeDeposit. asking_auto. }
  intros [deposit|]; [|apply from_preserves; asking_auto].
  apply (from_bind Hstable); [apply from_preserves; asking_auto|]. intros user.
  destruct (truthy (trade_link_url user)) as [url|];
    [|apply from_preserves; asking_auto].
  apply asking_deposit_items. apply from_preserves.
  fold (deposit_asset_ids items depositId). fold assetIds.
  eapply preserves_bind_of; [apply _| |apply returns_fetched|].
  { unfold _fetchInventoryItems, _fetchInventoryItems_body. asking_auto. }
  intros [e|theirItems] Hfetched; asking_auto.
Qed.

(** ** What is put on sale *)

Lemma listing_loop_within config liimt op sp items acc l :
  listing_loop config liimt op sp items acc = Ok l ->
  exists new,
    l = acc ++ new
    /\ sublist (map li_assetid new) (map assetid items)
    /\ Forall (fun li => li_appid li = app_id config
                         /\ li_contextid li = context_id config) new
    /\ Z.of_nat (length l) <= Z.max liimt (Z.of_nat (length acc)).
Proof.
  revert acc. induction items as [|item items IH]; intros acc Hrun.
  - cbn in Hrun. injection Hrun as <-. exists []. rewrite app_nil_r.
    split_and!; [done|done|done|lia].
  - cbn in Hrun. destruct (_ <? liimt) eqn:Hlim.
    + apply Z.ltb_lt in Hlim.
      destruct (op !! market_hash_name item) as [entry|]; [|done].
      destruct (sp !! market_hash_name item) as [safe|].
      * apply IH in Hrun as (new & -> & Hsub & Hcfg & Hlen).
        eexists (_ :: new). rewrite <- app_assoc. split_and!; [done| | |].
        -- cbn. by apply sublist_skip.
        -- by apply Forall_cons.
        -- rewrite !length_app in *. cbn [length] in *. lia.
      * apply IH in Hrun as (new & -> & Hsub & Hcfg & Hlen).
        exists new. split_and!; [done| |done|done].
        cbn. by apply sublist_cons.
    + injection Hrun as <-. exists []. rewrite app_nil_r.
      split_and!; [done|apply sublist_nil_l|done|lia].
Qed.

(** X11.  A listing request that one run of [_listItemsToOpskins] makes is not
    empty and not longer than the listing limit that OPSkins has just
    reported; it lists asset ids of the given items, in their order and
    each item at most once; and every entry carries the application and
    context of the configuration. *)
Theorem listing_within_limit config env items st listItems tr :
  trace (snd (_listItemsToOpskins config env items st))
    = EvOpskinsListItems listItems :: tr ->
  put_on_sale config items
    (snd (opskins_getListingLimit env (EvOpskinsGetLowestPrices :: trace st)))
    listItems.
Proof.
  rewrite listItemsToOpskins_run. cbn zeta.
  destruct (opskins_getLowestPrices env (trace st)) as [err|opPriceData]; [done|].
  destruct (opskins_getListingLimit env _) as [errll liimt].
  destruct (negb (is_null errll) || (liimt <=? 0)) eqn:Hlimit; [done|].
  apply orb_false_iff in Hlimit as [_ Hlimit]. apply Z.leb_gt in Hlimit.
  destruct (safe_prices (db st)) as [spPriceData|]; [|done].
  destruct (listing_loop _ _ _ _ _ _) as [[|li l]| |] eqn:Hloop; try done.
  cbn. intros [= <- <-].
  apply listing_loop_within in Hloop as (new & Hnew & Hsub & Hcfg & Hlen).
  cbn [app] in Hnew. subst new. cbn [length] in Hlen.
  split_and!; [done|cbn [length]; lia|done|done].
Qed.

Lemma listing_within_limit_witness :
  put_on_sale cfg [awp]
    (snd (opskins_getListingLimit scarce [EvOpskinsGetLowestPrices]))
    [{| li_appid := 730; li_contextid := 2; li_assetid := "a2";
        li_price := 11 |}].
Proof.
  apply (listing_within_limit cfg scarce [awp] deposit_world _
           [EvOpskinsGetListingLimit; EvOpskinsGetLowestPrices]).
  vm_compute. reflexivity.
Defined.

(** ** What is never put on sale *)

#[local] Instance listing_only_preorder env m ok : PreOrder (listing_only env m ok).
Proof.
  split.
  - intros st. split; reflexivity.
  - intros a b c [Hab Hab'] [Hbc Hbc']. split; [by etrans|congruence].
Qed.















(** ** Purchases *)

Section Triple.

Context {R : St -> St -> Prop} `{!PreOrder R}.

Lemma triple_ret {A} (Pre : St -> Prop) (a : A) (Q : A -> St -> Prop) E :
  (forall st, Pre st -> Q a st) -> triple R Pre (ret a) Q E.
Proof. intros HQ st Hst. split; [reflexivity|by apply HQ]. Qed.

Lemma triple_throw {A} (Pre : St -> Prop) e (Q : A -> St -> Prop) (E : St -> Prop) :
  (forall st, Pre st -> E st) -> triple R Pre (throw e) Q E.
Proof. intros HE st Hst. split; [reflexivity|by apply HE]. Qed.

Lemma triple_bind {A B} Pre (m : M A) (k : A -> M B) Mid Q E :
  triple R Pre m Mid E -> (forall a, triple R (Mid a) (k a) Q E) ->
  triple R Pre (bind m k) Q E.
Proof.
  intros Hm Hk st Hst. unfold bind. destruct (Hm st Hst) as [HR Hpost].
  destruct (m st) as [[a|e|] st']; cbn [fst snd] in *; [|done..].
  destruct (Hk a st' Hpost) as [HR' Hpost']. split; [by etrans|done].
Qed.

Lemma triple_try_catch {A} Pre (m : M A) (h : JsVal -> M A) Q E' E :
  triple R Pre m Q E' -> (forall e, triple R E' (h e) Q E) ->
  triple R Pre (try_catch m h) Q E.
Proof.
  intros Hm Hh st Hst. unfold try_catch. destruct (Hm st Hst) as [HR Hpost].
  destruct (m st) as [[a|e|] st']; cbn [fst snd] in *; [done| |done].
  destruct (Hh e st' Hpost) as [HR' Hpost']. split; [by etrans|done].
Qed.

Lemma triple_conseq {A} (Pre Pre' : St -> Prop) (m : M A)
    (Q Q' : A -> St -> Prop) (E E' : St -> Prop) :
  (forall st, Pre' st -> Pre st) ->
  (forall a st, Q a st -> Q' a st) ->
  (forall st, E st -> E' st) ->
  triple R Pre m Q E -> triple R Pre' m Q' E'.
Proof.
  intros HPre HQ HE Hm st Hst. destruct (Hm st (HPre st Hst)) as [HR Hpost].
  split; [done|]. destruct (fst (m st)); auto.
Qed.

Lemma triple_assume {A} (fact : Prop) (Pre Pre' : St -> Prop) (m : M A) Q E :
  (forall st, Pre' st -> Pre st /\ fact) ->
  (fact -> triple R Pre m Q E) ->
  triple R Pre' m Q E.
Proof. intros H Hm st Hst. destruct (H st Hst). by apply Hm. Qed.

Lemma triple_preserves {A} (m : M A) Pre Q E :
  triple R Pre m Q E -> preserves_from Pre R m.
Proof. intros Hm st Hst. by apply Hm. Qed.

End Triple.

Section Purchases.

Variables (env : Env) (names : list string).

#[local] Abbreviation within := (buys_within env names).

Lemma affordable_app new1 new2 base :
  affordable env names new1 (new2 ++ base) ->
  affordable env names new2 base ->
  affordable env names (new1 ++ new2) base.
Proof.
  induction new1 as [|ev new1 IH]; intros H1 H2; [done|].
  cbn in *. destruct H1 as [Hev H1]. rewrite <- app_assoc. by split; [|apply IH].
Qed.

#[local] Instance buys_within_preorder : PreOrder within.
Proof.
  split.
  - intros st. by exists [].
  - intros a b c (n1 & H1 & A1) (n2 & H2 & A2). exists (n2 ++ n1). split.
    + by rewrite H2, H1, app_assoc.
    + apply affordable_app; [by rewrite <- H1|done].
Qed.

Lemma within_call {X} ev (answer : list Event -> X) st :
  buy_ok env names ev (trace st) -> within st (snd (call ev answer st)).
Proof. intros Hev. exists [ev]. by split. Qed.

Lemma within_any_call {X} ev (answer : list Event -> X) :
  (forall saleid total, ev <> EvOpskinsBuyItems saleid total) ->
  preserves within (call ev answer).
Proof. intros Hev st. apply within_call. destruct ev; try done. by destruct (Hev saleid total). Qed.

Lemma within_silent {A} (m : M A) :
  (forall st, trace (snd (m st)) = trace st) -> preserves within m.
Proof. intros H st. exists []. by rewrite H. Qed.

(** A call that is no purchase and no balance query leaves the balance
    reported last as it is. *)
Lemma triple_other_call {X} ev (answer : list Event -> X) balance :
  (forall saleid total, ev <> EvOpskinsBuyItems saleid total) ->
  ev <> EvOpskinsGetBalance ->
  triple within (in_step env balance) (call ev answer)
    (fun x st => in_step env balance st /\ exists tr, x = answer tr)
    (in_step env balance).
Proof.
  intros Hbuy Hbal st Hst. split; [by apply within_any_call|]. cbn.
  split; [|by eexists]. unfold in_step in *. cbn.
  destruct ev; try done. by destruct (Hbuy saleid total).
Qed.

Lemma triple_waitAsync seconds balance :
  triple within (in_step env balance) (waitAsync seconds)
    (fun _ => in_step env balance) (in_step env balance).
Proof.
  unfold waitAsync. eapply triple_conseq; [| | |by apply triple_other_call];
    [done|by intros ? ? []|done].
Qed.

Lemma triple_searchOpskins item balance :
  triple within (in_step env balance) (_searchOpskins env item)
    (fun results st => in_step env balance st
                       /\ exists tr, opskins_search env tr item = inr results)
    (in_step env balance).
Proof.
  unfold _searchOpskins, call_async.
  eapply triple_bind; [by apply triple_other_call|].
  intros [e|results].
  - apply triple_throw. by intros st [Hst _].
  - apply triple_ret. intros st [Hst [tr Htr]]. split; [done|]. by exists tr.
Qed.

Lemma triple_search_attempts item balance :
  triple within (in_step env balance) (search_attempts env item)
    (fun r st => in_step env balance st
                 /\ match r with
                    | Some results =>
                        exists tr, opskins_search env tr item = inr results
                    | None => True
                    end)
    (in_step env balance).
Proof.
  assert (Hsearch :
    triple within (in_step env balance)
      (r <- _searchOpskins env item ;; ret (Some r))
      (fun r st => in_step env balance st
                   /\ match r with
                      | Some results =>
                          exists tr, opskins_search env tr item = inr results
                      | None => True
                      end)
      (in_step env balance)).
  { eapply triple_bind; [apply triple_searchOpskins|].
    intros results. by apply triple_ret. }
  unfold search_attempts.
  eapply triple_try_catch; [exact Hsearch|]. intros ?.
  eapply triple_bind; [apply triple_waitAsync|]. intros ?.
  eapply triple_try_catch; [exact Hsearch|]. intros ?.
  eapply triple_bind; [apply triple_waitAsync|]. intros ?.
  eapply triple_try_catch; [exact Hsearch|]. intros ?.
  by apply triple_ret.
Qed.

Lemma triple_buy_one r purchases balance :
  found env names (sale_id r) (amount r) ->
  amount r <= balance ->
  triple within (in_step env balance) (buy_one env r purchases)
    (fun bought => in_step env (fst bought)) (in_step env balance).
Proof.
  intros Hfound Hle st Hst.
  unfold buy_one, _buyOpskinsItem, call_async, call, ret, throw.
  repeat unfold bind. cbn [fst snd].
  split.
  - assert (Hbuy : within st {| db := db st;
                     trace := EvOpskinsBuyItems (sale_id r) (amount r) :: trace st |}).
    { exists [EvOpskinsBuyItems (sale_id r) (amount r)].
      split; [done|]. cbn. split; [|done]. split; [done|]. by exists balance. }
    destruct (opskins_buyItems env (trace st) (sale_id r) (amount r))
      as [e|[items balance']]; exact Hbuy.
  - unfold in_step in *.
    destruct (opskins_buyItems env (trace st) (sale_id r) (amount r))
      as [e|[items balance']] eqn:Hanswer; cbn; by rewrite Hanswer.
Qed.

Lemma triple_buy_attempts item results balance purchases :
  (forall r, r ∈ results -> item = Some (market_name r) ->
             found env names (sale_id r) (amount r)) ->
  triple within (in_step env balance)
    (buy_attempts env item results balance purchases)
    (fun bought => in_step env (fst bought)) (in_step env balance).
Proof.
  intros Hfound.
  assert (Hone : forall r, r ∈ results ->
            triple within (in_step env balance)
              (if buyable item balance r then buy_one env r purchases
               else ret (balance, purchases))
              (fun bought => in_step env (fst bought)) (in_step env balance)).
  { intros r Hr. destruct (buyable item balance r) eqn:Hbuyable.
    - apply andb_prop in Hbuyable as [Hle Hname].
      apply Z.leb_le in Hle. apply bool_decide_eq_true in Hname.
      apply triple_buy_one; [by apply Hfound|done].
    - by apply triple_ret. }
  assert (Hnth : forall n,
            triple within (in_step env balance)
              (match results !! n with
               | Some r =>
                 if buyable item balance r then buy_one env r purchases
                 else ret (balance, purchases)
               | None => ret (balance, purchases)
               end)
              (fun bought => in_step env (fst bought)) (in_step env balance)).
  { intros n. destruct (results !! n) as [r|] eqn:Hr; [|by apply triple_ret].
    apply Hone. by eapply list_elem_of_lookup_2. }
  unfold buy_attempts. destruct results as [|r0 results]; [by apply triple_ret|].
  pose proof (Hone r0 (list_elem_of_here _ _)) as H0.
  destruct (buyable item balance r0); [|exact H0].
  eapply triple_try_catch; [exact H0|]. intros ?.
  eapply triple_try_catch; [apply (Hnth 1%nat)|]. intros ?.
  eapply triple_try_catch; [apply (Hnth 2%nat)|]. intros ?.
  by apply triple_ret.
Qed.

Lemma triple_buy_loop sp n :
  forall i searches balance purchases,
    triple within (in_step env balance)
      (buy_loop env sp names n i searches balance purchases)
      (fun _ _ => True) (fun _ => True).
Proof.
  induction n as [|n IH]; intros i searches balance purchases;
    [by apply triple_ret|].
  cbn [buy_loop]. destruct (searches <? RPM * 4); [|by apply triple_ret].
  destruct (sp !! js_key (names !! i)) as [safe|]; [|by apply triple_ret].
  eapply triple_bind.
  { eapply triple_conseq;
      [| | |apply (triple_search_attempts (js_key (names !! i)) balance)];
      [done|intros a st H; exact H|done]. }
  intros [results|].
  - destruct results as [|r0 results]; [by apply triple_throw|].
    destruct (too_expensive r0 safe); [by apply triple_ret|].
    apply (triple_assume
             (exists tr, opskins_search env tr (js_key (names !! i))
                         = inr (r0 :: results))
             (in_step env balance));
      [by intros st [? ?]|intros [tr Htr]].
    eapply triple_bind.
    { eapply triple_conseq;
        [| | |apply (triple_buy_attempts (names !! i) (r0 :: results)
                       balance purchases)];
        [done|intros a st H; exact H|done|].
      intros r Hr Hname. exists tr, (market_name r), (r0 :: results), r.
      rewrite Hname in Htr. cbn [js_key] in Htr.
      split_and!; try done. by eapply list_elem_of_lookup_2. }
    intros [balance' purchases']. cbn [fst].
    eapply triple_bind.
    { instantiate (1 := fun _ => in_step env balance').
      destruct (searches + 1 =? RPM).
      - eapply triple_conseq; [| | |apply triple_waitAsync]; done.
      - by apply triple_ret. }
    intros ?. apply IH.
  - eapply triple_conseq; [| | |apply IH]; [by intros st [Hst _]|done..].
Qed.

End Purchases.

#[local] Existing Instance buys_within_preorder.

Lemma triple_of_preserves {A} (R : St -> St -> Prop) (Pre : St -> Prop) (m : M A) :
  preserves R m -> triple R Pre m (fun _ _ => True) (fun _ => True).
Proof. intros Hm st _. split; [apply Hm|]. by destruct (fst (m st)). Qed.

Lemma triple_getBalance env names :
  triple (buys_within env names) (fun _ => True)
    (call EvOpskinsGetBalance (opskins_getBalance env))
    (fun r st => match r with
                 | inr balance => in_step env balance st
                 | inl _ => True
                 end)
    (fun _ => True).
Proof.
  intros st _. split; [by apply within_call|]. cbn. unfold in_step. cbn.
  by destruct (opskins_getBalance env (trace st)).
Qed.

Lemma triple_getDbCentPrices env names lo hi balance :
  triple (buys_within env names) (in_step env balance) (_getDbCentPrices lo hi)
    (fun _ => in_step env balance) (fun _ => True).
Proof.
  intros st Hst. destruct (getDbCentPrices_pure lo hi st) as [prices Hrun].
  specialize (Hrun (trace st)). destruct st as [d tr]. cbn [db trace] in Hrun.
  rewrite Hrun. split; [reflexivity|done].
Qed.

(** X14.  Every purchase that [_buyPlaceholderItems] attempts is of a listing
    that a search for one of the names of the withdrawal returned, bears
    the name searched for, is made at the listed price, and costs no more
    than the balance OPSkins reported last: by the last purchase that
    went through or, before any, by the balance query that opens the
    run. *)
Theorem purchases_are_affordable config env withdrawalItems names merchant st :
  buys_within env names st
    (snd (_buyPlaceholderItems config env withdrawalItems names merchant st)).
Proof.
  revert st.
  change (preserves (buys_within env names)
            (_buyPlaceholderItems config env withdrawalItems names merchant)).
  unfold _buyPlaceholderItems.
  destruct (truthy (opskins_key config)); [|preserves_step].
  apply preserves_in_callback.
  enough (Htriple : triple (buys_within env names) (fun _ => True)
            (r <- call EvOpskinsGetBalance (opskins_getBalance env) ;;
             match r with
             | inl _ => ret ([], names)
             | inr balance =>
               spPriceData <- _getDbCentPrices 0%Q 10000%Q ;;
               match spPriceData with
               | None => ret ([], names)
               | Some spPriceData =>
                 looped <- buy_loop env spPriceData names (length withdrawalItems)
                                    0 0 balance [] ;;
                 match looped with
                 | None => ret ([], names)
                 | Some purchases =>
                   if negb (bool_decide (purchases = []))
                      && bool_decide (length withdrawalItems = length purchases)
                   then
                     success <- _withdrawOpskinsItems env purchases ;;
                     (if negb success then
                        waitAsync 2 ;;;
                        success <- _withdrawOpskinsItems env purchases ;;
                        if negb success then
                          waitAsync 2 ;;;
                          _withdrawOpskinsItems env purchases ;;; ret tt
                        else ret tt
                      else ret tt) ;;;
                     waitAsync 2 ;;;
                     items <- fetch_with_relogin env merchant ;;
                     items <-
                       match items with
                       | [] =>
                         waitAsync 2 ;;;
                         _withdrawOpskinsItems env purchases ;;;
                         fetch_with_relogin env merchant
                       | _ => ret items
                       end ;;
                     let '(itemsfiltred, names) := take_requested items names in
                     if bool_decide (itemsfiltred = [])
                        || negb (bool_decide
                                   (length withdrawalItems = length itemsfiltred))
                     then ret ([], names)
                     else ret (itemsfiltred, names)
                   else ret ([], names)
                 end
               end
             end)
            (fun _ _ => True) (fun _ => True))
    by (intros st; by apply Htriple).
  eapply triple_bind; [apply triple_getBalance|].
  intros [err|balance]; [by apply triple_ret|].
  eapply triple_bind; [apply triple_getDbCentPrices|].
  intros [spPriceData|]; [|by apply triple_ret].
  eapply triple_bind; [apply triple_buy_loop|].
  intros looped. apply triple_of_preserves.
  unfold fetch_with_relogin. unfold_calls.
  repeat first
    [ apply within_any_call; done
    | preserves_step ].
Qed.

(** * Re-pricing the sales *)

Lemma relist_loop_counts now op sales i items willEdit :
  willEdit <= editMax ->
  let r := relist_loop now op sales i items willEdit in
  willEdit <= snd r <= editMax
  /\ Z.of_nat (size (fst r)) <= Z.of_nat (size items) + (snd r - willEdit)
  /\ (forall k, is_Some (items !! k) -> is_Some (fst r !! k))
  /\ (willEdit < snd r -> fst r <> ∅).
Proof.
  revert i items willEdit. induction sales as [|sale sales IH];
    intros i items willEdit Hcap; cbn [relist_loop].
  - cbn. split_and!; [lia..|done|lia].
  - destruct (willEdit =? editMax) eqn:Hmax.
    { cbn. split_and!; [lia..|done|lia]. }
    apply Z.eqb_neq in Hmax. cbv zeta.
    destruct (idle _ sale); [|by apply IH].
    destruct (op !! OpskinsSale.name sale) as [entry|]; [|by apply IH].
    destruct (negb _); [|by apply IH].
    specialize (IH (S i) (<[OpskinsSale.id sale := price entry - 1]> items)
                   (willEdit + 1)).
    destruct IH as (Hw & Hsize & Hkeep & Hne); [lia|].
    split_and!; [lia|lia| | |].
    + etrans; [exact Hsize|].
      destruct (items !! OpskinsSale.id sale) eqn:Hk.
      * rewrite map_size_insert_Some; [lia|done].
      * rewrite map_size_insert_None; [lia|done].
    + intros k Hk. apply Hkeep.
      destruct (decide (OpskinsSale.id sale = k)) as [->|Hne'].
      * rewrite lookup_insert_eq. by eexists.
      * by rewrite lookup_insert_ne.
    + intros _ Hempty.
      destruct (Hkeep (OpskinsSale.id sale)) as [p Hp].
      * rewrite lookup_insert_eq. by eexists.
      * by rewrite Hempty, lookup_empty in Hp.
Qed.

Lemma relist_loop_sound now op sales i items willEdit k p :
  fst (relist_loop now op sales i items willEdit) !! k = Some p ->
  items !! k = Some p
  \/ exists j sale,
       sales !! j = Some sale
       /\ OpskinsSale.id sale = k
       /\ repriced op (now (i + j)%nat / 1000) sale p.
Proof.
  revert i items willEdit. induction sales as [|sale sales IH];
    intros i items willEdit Hp; cbn [relist_loop] in Hp.
  - by left.
  - destruct (willEdit =? editMax); [by left|]. cbv zeta in Hp.
    assert (Hlater : forall items' willEdit',
              fst (relist_loop now op sales (S i) items' willEdit') !! k = Some p ->
              items' !! k = Some p
              \/ exists j sale0,
                   (sale :: sales) !! j = Some sale0
                   /\ OpskinsSale.id sale0 = k
                   /\ repriced op (now (i + j)%nat / 1000) sale0 p).
    { intros items' willEdit' H. apply IH in H as [H|(j & sale0 & Hj & Hid & Hre)];
        [by left|].
      right. exists (S j), sale0. split_and!; [done|done|].
      by replace (i + S j)%nat with (S i + j)%nat by lia. }
    destruct (idle _ sale) eqn:Hidle; [|by apply Hlater in Hp].
    destruct (op !! OpskinsSale.name sale) as [entry|] eqn:Hentry;
      [|by apply Hlater in Hp].
    destruct (negb _) eqn:Hprice; [|by apply Hlater in Hp].
    apply Hlater in Hp as [Hp|Hp]; [|by right].
    destruct (decide (OpskinsSale.id sale = k)) as [Hk|Hk].
    + subst k. rewrite lookup_insert_eq in Hp. injection Hp as <-.
      right. exists 0%nat, sale. split_and!; [done|done|].
      rewrite Nat.add_0_r. unfold idle, updated in Hidle.
      destruct (0 <? OpskinsSale.last_updated sale) eqn:Hup; [|done].
      apply Z.ltb_lt in Hup. apply Z.leb_le in Hidle.
      apply negb_true_iff, Z.eqb_neq in Hprice.
      split_and!; [done|done|]. by exists entry.
    + rewrite lookup_insert_ne in Hp by done. by left.
Qed.

Lemma relist_loop_complete now op sales i items willEdit j sale p :
  willEdit + Z.of_nat (length sales) <= editMax ->
  sales !! j = Some sale ->
  repriced op (now (i + j)%nat / 1000) sale p ->
  let r := relist_loop now op sales i items willEdit in
  is_Some (fst r !! OpskinsSale.id sale) /\ willEdit < snd r.
Proof.
  revert i items willEdit j. induction sales as [|sale0 sales IH];
    intros i items willEdit j Hroom Hj Hre; [done|].
  cbn [relist_loop]. cbn [length] in Hroom.
  destruct (willEdit =? editMax) eqn:Hmax; [apply Z.eqb_eq in Hmax; lia|].
  cbv zeta.
  assert (Hcounts : forall items' willEdit',
            willEdit' <= editMax ->
            willEdit' <= snd (relist_loop now op sales (S i) items' willEdit')
            /\ forall k, is_Some (items' !! k) ->
                 is_Some (fst (relist_loop now op sales (S i) items' willEdit') !! k)).
  { intros items' willEdit' Hle.
    destruct (relist_loop_counts now op sales (S i) items' willEdit' Hle)
      as ([? _] & _ & ? & _). by split. }
  destruct j as [|j].
  - injection Hj as ->. rewrite Nat.add_0_r in Hre.
    destruct Hre as (Hup & Hidle & entry & Hentry & Hprice & _).
    unfold idle, updated.
    replace (0 <? OpskinsSale.last_updated sale) with true
      by (symmetry; apply Z.ltb_lt; lia).
    replace (3600 <=? now i / 1000 - OpskinsSale.last_updated sale) with true
      by (symmetry; apply Z.leb_le; lia).
    rewrite Hentry.
    replace (price entry =? OpskinsSale.price sale) with false
      by (symmetry; apply Z.eqb_neq; lia).
    cbn [negb].
    destruct (Hcounts (<[OpskinsSale.id sale := price entry - 1]> items)
                (willEdit + 1)) as [Hw Hkeep]; [lia|].
    split; [|lia]. apply Hkeep. rewrite lookup_insert_eq. by eexists.
  - cbn in Hj. replace (i + S j)%nat with (S i + j)%nat in Hre by lia.
    assert (Hnext : forall items' willEdit',
              willEdit <= willEdit' <= willEdit + 1 ->
              is_Some (fst (relist_loop now op sales (S i) items' willEdit')
                         !! OpskinsSale.id sale)
              /\ willEdit < snd (relist_loop now op sales (S i) items' willEdit')).
    { intros items' willEdit' Hw.
      destruct (IH (S i) items' willEdit' j) as [? ?]; [lia|done|done|].
      split; [done|lia]. }
    destruct (idle _ sale0); [|apply Hnext; lia].
    destruct (op !! OpskinsSale.name sale0) as [entry0|]; [|apply Hnext; lia].
    destruct (negb _); apply Hnext; lia.
Qed.

(** X15.  A request that [relistOpskinsItems] passes to [editPrices] is never
    empty and never holds more than 500 prices. *)
Theorem relist_edits_are_capped config lowestPrices getSales now items :
  relistOpskinsItems config lowestPrices getSales now = Some items ->
  (0 < size items <= 500)%nat.
Proof.
  unfold relistOpskinsItems.
  destruct (truthy (opskins_key config)); [|done].
  destruct lowestPrices as [e|opPriceData]; [done|].
  destruct getSales as [e|sales]; [done|].
  pose proof (relist_loop_counts now opPriceData sales 0 ∅ 0) as Hcounts.
  destruct (relist_loop now opPriceData sales 0 ∅ 0) as [items' willEdit].
  cbn [fst snd] in Hcounts.
  destruct Hcounts as ([_ Hcap] & Hsize & _ & Hne); [done|].
  destruct (0 <? willEdit) eqn:Hpos; [|done]. apply Z.ltb_lt in Hpos.
  intros [= <-]. rewrite map_size_empty in Hsize. unfold editMax in Hcap.
  split; [|lia].
  specialize (Hne Hpos). apply map_size_non_empty_iff in Hne. lia.
Qed.

Lemma relist_edits_are_capped_witness :
  (0 < size ({[ 11%Z := 299%Z ]} : gmap Z Z) <= 500)%nat.
Proof.
  apply (relist_edits_are_capped cfg (inr ak47_lowest) (inr two_sales)
           (fun _ => 10000000)).
  vm_compute. reflexivity.
Defined.

(** X16.  Every price that [relistOpskinsItems] passes to [editPrices] is for a
    sale that [getSales] reported, that was updated before, that has been
    idle for at least an hour when the loop reaches it, and whose price
    differs from the lowest price of its name; the new price is that
    lowest price minus one cent.  A sale that was never updated is never
    re-priced: its listing time is not read. *)
Theorem relist_edit_is_undercut config lowestPrices getSales now items saleid p :
  relistOpskinsItems config lowestPrices getSales now = Some items ->
  items !! saleid = Some p ->
  exists opPriceData sales j sale,
    lowestPrices = inr opPriceData
    /\ getSales = inr sales
    /\ sales !! j = Some sale
    /\ OpskinsSale.id sale = saleid
    /\ repriced opPriceData (now j / 1000) sale p.
Proof.
  unfold relistOpskinsItems.
  destruct (truthy (opskins_key config)); [|done].
  destruct lowestPrices as [e|opPriceData]; [done|].
  destruct getSales as [e|sales]; [done|].
  pose proof (relist_loop_sound now opPriceData sales 0 ∅ 0 saleid p) as Hsound.
  destruct (relist_loop now opPriceData sales 0 ∅ 0) as [items' willEdit].
  cbn [fst] in Hsound.
  destruct (0 <? willEdit); [|done].
  intros [= <-] Hp. destruct (Hsound Hp) as [Hempty|(j & sale & Hj & Hid & Hre)].
  - by rewrite lookup_empty in Hempty.
  - by exists opPriceData, sales, j, sale.
Qed.

Lemma relist_edit_is_undercut_witness :
  exists opPriceData sales j sale,
    @inr JsVal _ ak47_lowest = inr opPriceData
    /\ @inr JsVal _ two_sales = inr sales
    /\ sales !! j = Some sale
    /\ OpskinsSale.id sale = 11
    /\ repriced opPriceData ((fun _ : nat => 10000000) j / 1000) sale 299.
Proof.
  apply (relist_edit_is_undercut cfg (@inr JsVal _ ak47_lowest)
           (@inr JsVal _ two_sales) (fun _ => 10000000) {[ 11 := 299 ]} 11 299).
  - vm_compute. reflexivity.
  - vm_compute. reflexivity.
Defined.

(** X17.  With an OPSkins key, price data and at most 500 sales reported,
    [relistOpskinsItems] re-prices every sale that qualifies when the
    loop reaches it: [editPrices] is called, with a price for that
    sale. *)
Theorem relist_reaches_every_sale config opPriceData sales now j sale p :
  is_Some (truthy (opskins_key config)) ->
  (length sales <= 500)%nat ->
  sales !! j = Some sale ->
  repriced opPriceData (now j / 1000) sale p ->
  exists items,
    relistOpskinsItems config (inr opPriceData) (inr sales) now = Some items
    /\ is_Some (items !! OpskinsSale.id sale).
Proof.
  intros [key Hkey] Hlen Hj Hre. unfold relistOpskinsItems. rewrite Hkey.
  pose proof (relist_loop_complete now opPriceData sales 0 ∅ 0 j sale p)
    as Hcomplete.
  destruct (relist_loop now opPriceData sales 0 ∅ 0) as [items willEdit].
  cbn [fst snd] in Hcomplete.
  destruct Hcomplete as [Hin Hpos]; [unfold editMax; lia|done|done|].
  exists items. apply Z.ltb_lt in Hpos. by rewrite Hpos.
Qed.

Lemma relist_reaches_every_sale_witness :
  exists items,
    relistOpskinsItems cfg (inr ak47_lowest) (inr two_sales) (fun _ => 10000000)
    = Some items
    /\ is_Some (items !! 11).
Proof.
  apply (relist_reaches_every_sale cfg ak47_lowest two_sales (fun _ => 10000000)
           0%nat
           {| OpskinsSale.id := 11; OpskinsSale.name := "AK-47";
              OpskinsSale.price := 320; OpskinsSale.last_updated := 1000 |}
           299).
  - by exists "key".
  - cbn. lia.
  - reflexivity.
  - unfold repriced. cbn. split_and!; [lia|by vm_compute|].
    exists {| price := 300; quantity := 400 |}.
    split_and!; [reflexivity|cbn; lia|cbn; lia].
Defined.

(** * The rows an event touches *)

#[local] Instance touches_preorder tb P : PreOrder (touches tb P).
Proof.
  split.
  - intros st. split_and!; try done.
    apply Forall_Forall2_diag, Forall_forall. by intros t _.
  - intros a b c (Hab & Ho & Hi & Hw & Hp) (Hbc & Ho' & Hi' & Hw' & Hp').
    split_and!; try congruence.
    + clear -Hab Hbc. revert Hbc. generalize (table tb (db c)).
      induction Hab as [|t t' l l' [Hid Hsame] Hab IH]; intros l'' Hbc.
      * by inv Hbc.
      * inv Hbc. match goal with H : _ /\ _ |- _ => destruct H as [Hid' Hsame'] end.
        constructor; [|by apply IH]. split; [congruence|].
        intros Hnot. rewrite Hsame' by (by rewrite Hid). by apply Hsame.
    + intros tb' Hne. by rewrite Ho', Ho.
Qed.

Lemma touches_same_db tb P st st' : db st' = db st -> touches tb P st st'.
Proof.
  intros Hdb. unfold touches. rewrite Hdb. split_and!; try done.
  apply Forall_Forall2_diag, Forall_forall. by intros t _.
Qed.

Lemma touches_call tb P {X} ev (answer : list Event -> X) :
  is_send ev = false -> preserves (touches tb P) (call ev answer).
Proof. intros _ st. by apply touches_same_db. Qed.

Lemma touches_any_call tb P {X} ev (answer : list Event -> X) :
  preserves (touches tb P) (call ev answer).
Proof. intros st. by apply touches_same_db. Qed.

Lemma touches_update_users tb P cond set :
  preserves (touches tb P) (update_users cond set).
Proof.
  intros st. split_and!; try done.
  destruct tb; apply Forall_Forall2_diag, Forall_forall; by intros t _.
Qed.

Lemma touches_update_trades tb (P : Z -> Prop) cond set :
  (forall t, cond t = true -> P (trade_id t)) ->
  (forall t, trade_id (set t) = trade_id t) ->
  preserves (touches tb P) (update_trades tb cond set).
Proof.
  intros Hcond Hset st.
  assert (Hrows : Forall2 (fun t t' => trade_id t' = trade_id t
                                       /\ (~ P (trade_id t) -> t' = t))
                    (table tb (db st))
                    (sql_update cond set (table tb (db st)))).
  { unfold sql_update. apply Forall2_fmap_r, Forall_Forall2_diag, Forall_forall.
    intros t _. cbn. destruct (cond t) eqn:Hc; [|done].
    split; [apply Hset|]. intros Hnot. exfalso. by apply Hnot, Hcond. }
  split_and!.
  - by destruct tb.
  - intros tb' Hne. by destruct tb, tb'.
  - by destruct tb.
  - by destruct tb.
  - by destruct tb.
Qed.

Lemma touches_fail env tb (P : Z -> Prop) id e :
  P id -> preserves (touches tb P) (fail env tb id e).
Proof.
  intros Hid. unfold fail.
  repeat first
    [ apply touches_update_trades;
      [intros t Ht; by apply bool_decide_eq_true in Ht as ->|done]
    | preserves_step ].
Qed.

Lemma sql_returning_elem {X} (cond : X -> bool) set rows r :
  r ∈ sql_returning cond set rows ->
  exists t, t ∈ rows /\ cond t = true /\ r = set t.
Proof.
  unfold sql_returning. intros Hr.
  apply list_elem_of_fmap in Hr as (t & -> & Ht).
  apply list_elem_of_In, filter_In in Ht as [Ht Hc].
  exists t. by rewrite list_elem_of_In.
Qed.

Lemma returns_acknowledgeDeposit config env merchant depositId :
  returns (fun o => forall t, o = Some t -> trade_id t = depositId)
          (acknowledgeDeposit config env merchant depositId).
Proof.
  intros st. unfold acknowledgeDeposit, new_Date, oneOrNone, update_trades.
  repeat unfold bind. cbn [fst snd].
  destruct (sql_returning _ _ _) as [|r [|r' rows]] eqn:Hrows; cbn; try done.
  intros t [= <-].
  assert (Hr : r ∈ [r]) by apply list_elem_of_here. rewrite <- Hrows in Hr.
  apply sql_returning_elem in Hr as (t & _ & Hc & ->).
  do 2 apply andb_prop in Hc as [Hc _]. by apply bool_decide_eq_true in Hc.
Qed.

Lemma returns_select_one {X} (rows : Db -> list X) cond :
  returns (fun o => forall r, o = Some r -> cond r = true)
          (oneOrNone (select rows cond)).
Proof.
  intros st. unfold oneOrNone, select, read_db, ret. repeat unfold bind.
  cbn [fst snd].
  destruct (List.filter cond (rows (db st))) as [|r [|r' l]] eqn:Hrows;
    cbn; try done.
  intros r0 [= <-].
  assert (Hr : In r (List.filter cond (rows (db st)))) by (rewrite Hrows; by left).
  by apply filter_In in Hr as [_ Hr].
Qed.

Ltac touches_auto Hid :=
  unfold failDeposit, failWithdrawal; unfold_calls;
  repeat first
    [ apply touches_fail; exact Hid
    | apply touches_update_users
    | apply touches_update_trades;
      [intros ? Hcond; apply bool_decide_eq_true in Hcond; cbn beta;
       rewrite Hcond; exact Hid
      |done]
    | apply (bridge_buyPlaceholderItems _ (@touches_call _ _))
    | apply (bridge_listAgainItems _ (@touches_call _ _))
    | apply (bridge_list_after_acquisition _ (@touches_call _ _))
    | apply touches_any_call
    | preserves_step ].

(** X18.  Starting a deposit changes no other trade: only rows of
    [trade_deposits] with the id of the deposit change; every row of
    that table keeps its place and its id; the withdrawals, the item rows
    and the price cache are as they were. *)
Theorem startDeposit_touches_its_deposit config env depositId st :
  touches trade_deposits_tbl (fun id => id = depositId)
          st (snd (startDeposit config env depositId st)).
Proof.
  revert st.
  change (preserves (touches trade_deposits_tbl (fun id => id = depositId))
            (startDeposit config env depositId)).
  unfold startDeposit. destruct (steamID env) as [merchant|]; [|preserves_step].
  eapply preserves_bind_of; [apply _| |apply returns_acknowledgeDeposit|].
  - unfold acknowledgeDeposit, oneOrNone.
    repeat first
      [ apply touches_update_trades;
        [intros t Hc; do 2 apply andb_prop in Hc as [Hc _];
         by apply bool_decide_eq_true in Hc
        |done]
      | preserves_step ].
  - intros [deposit|] Hdeposit; [|preserves_step].
    specialize (Hdeposit deposit eq_refl).
    unfold _fetchInventoryItems, _fetchInventoryItems_body.
    touches_auto Hdeposit.
Qed.

(** X19.  Starting a withdrawal changes no other trade: only rows of
    [trade_withdrawals] with the id of the withdrawal change; every row
    of that table keeps its place and its id; the deposits, the item rows
    and the price cache are as they were. *)
Theorem startWithdrawal_touches_its_withdrawal config env withdrawalId st :
  touches trade_withdrawals_tbl (fun id => id = withdrawalId)
          st (snd (startWithdrawal config env withdrawalId st)).
Proof.
  revert st.
  change (preserves (touches trade_withdrawals_tbl (fun id => id = withdrawalId))
            (startWithdrawal config env withdrawalId)).
  unfold startWithdrawal. destruct (steamID env) as [merchant|]; [|preserves_step].
  apply preserves_bind; [apply _| |].
  - unfold _lockWithdrawal, oneOrNone.
    repeat first
      [ apply touches_update_trades;
        [intros t Hc; do 3 apply andb_prop in Hc as [Hc _];
         by apply bool_decide_eq_true in Hc
        |done]
      | apply touches_any_call
      | preserves_step ].
  - intros locked. destruct (negb locked); [preserves_step|].
    eapply preserves_bind_of; [apply _| |apply returns_select_one|].
    + repeat preserves_step.
    + intros [withdrawal|] Hrow; [|preserves_step].
      specialize (Hrow withdrawal eq_refl).
      apply andb_prop in Hrow as [Hrow _]. apply bool_decide_eq_true in Hrow.
      touches_auto Hrow.
Qed.

Lemma bind_one_select {X B} (R : St -> St -> Prop) `{!PreOrder R}
    (rows : Db -> list X) cond (k : X -> M B) st :
  (forall r, r ∈ rows (db st) -> cond r = true -> R st (snd (k r st))) ->
  R st (snd (bind (one (select rows cond)) k st)).
Proof.
  intros Hk. unfold one, select, read_db, ret, throw. repeat unfold bind.
  cbn [fst snd].
  destruct (List.filter cond (rows (db st))) as [|r [|r' l]] eqn:Hrows;
    try reflexivity.
  assert (Hr : In r (List.filter cond (rows (db st)))) by (rewrite Hrows; by left).
  apply filter_In in Hr as [Hr Hc]. apply Hk; [by apply list_elem_of_In|done].
Qed.

(** X20.  An offer event changes no trade but its own: in the trade table of
    its kind (the deposits when the offer receives items, else the
    withdrawals) only rows change whose trade id is that of a row offered
    under the id of the offer; every row keeps its place and its id; the
    other trade table, the item rows and the price cache are as they
    were. *)
Theorem offer_event_touches_its_trade config env offer oldState st :
  touches (table_of offer)
          (offered_as (table_of offer) (offer_id offer) (db st))
          st (snd (sentOfferChanged config env offer oldState st)).
Proof.
  unfold sentOfferChanged, table_of.
  set (P := offered_as _ _ _).
  destruct (itemsToReceive offer) as [|item items].
  - unfold completeWithdrawal. case_bool_decide; [reflexivity|].
    apply bind_one_select; [apply _|]. intros r Hr Hc.
    assert (Hid : P (trade_id r)).
    { exists r. split_and!; [done| |done]. unfold col_eq in Hc.
      destruct (steam_offer_id r); [|done].
      by apply bool_decide_eq_true in Hc as ->. }
    clearbody P. clear Hr.
    refine ((_ : preserves (touches trade_withdrawals_tbl P) _) st).
    touches_auto Hid.
  - unfold completeDeposit. case_bool_decide; [reflexivity|].
    apply bind_one_select; [apply _|]. intros r Hr Hc.
    assert (Hid : P (trade_id r)).
    { exists r. split_and!; [done| |done]. unfold col_eq in Hc.
      destruct (steam_offer_id r); [|done].
      by apply bool_decide_eq_true in Hc as ->. }
    clearbody P. clear Hr.
    refine ((_ : preserves (touches trade_deposits_tbl P) _) st).
    touches_auto Hid.
Qed.

(** * How often the marketplace is asked *)

Section Costs.

Variable P : Event -> bool.

Lemma counted_refl k st : counted P k st st.
Proof. exists []. split; [done|cbn; lia]. Qed.

Lemma counted_trans a b s1 s2 s3 :
  counted P a s1 s2 -> counted P b s2 s3 -> counted P (a + b) s1 s3.
Proof.
  intros (n1 & H1 & L1) (n2 & H2 & L2). exists (n2 ++ n1). split.
  - by rewrite H2, H1, app_assoc.
  - rewrite List.filter_app, length_app. lia.
Qed.

Lemma costs_weaken {A} a b (m : M A) : (a <= b)%nat -> costs P a m -> costs P b m.
Proof. intros Hle Hm st. destruct (Hm st) as (new & ? & ?). exists new. split; [done|lia]. Qed.

Lemma costs_ret {A} k (a : A) : costs P k (ret a).
Proof. intros st. apply counted_refl. Qed.

Lemma costs_throw {A} k e : costs P k (@throw A e).
Proof. intros st. apply counted_refl. Qed.

Lemma costs_bind {A B} a b (m : M A) (k : A -> M B) :
  costs P a m -> (forall x, costs P b (k x)) -> costs P (a + b) (bind m k).
Proof.
  intros Hm Hk st. unfold bind. specialize (Hm st).
  destruct (m st) as [[x|e|] st']; cbn [snd] in *.
  - eapply counted_trans; [exact Hm|apply Hk].
  - destruct Hm as (new & ? & ?). exists new. split; [done|lia].
  - destruct Hm as (new & ? & ?). exists new. split; [done|lia].
Qed.

Lemma costs_try_catch {A} a b (m : M A) (h : JsVal -> M A) :
  costs P a m -> (forall e, costs P b (h e)) -> costs P (a + b) (try_catch m h).
Proof.
  intros Hm Hh st. unfold try_catch. specialize (Hm st).
  destruct (m st) as [[x|e|] st']; cbn [snd] in *.
  - destruct Hm as (new & ? & ?). exists new. split; [done|lia].
  - eapply counted_trans; [exact Hm|apply Hh].
  - destruct Hm as (new & ? & ?). exists new. split; [done|lia].
Qed.

Lemma costs_in_callback {A} k (m : M A) : costs P k m -> costs P k (in_callback m).
Proof.
  intros Hm st. unfold in_callback. specialize (Hm st).
  by destruct (m st) as [[x|e|] st'].
Qed.

Lemma costs_call {X} ev (answer : list Event -> X) :
  costs P (if P ev then 1 else 0) (call ev answer).
Proof.
  intros st. exists [ev]. split; [done|]. cbn. destruct (P ev); cbn; lia.
Qed.

(** A computation none of whose calls is of kind [P]. *)
Lemma costs_free {A} k (m : M A) :
  preserves (emits (fun ev => P ev = false)) m -> costs P k m.
Proof.
  intros Hm st. destruct (Hm st) as (new & Hnew & Hfree). exists new.
  split; [done|].
  replace (List.filter P new) with (@nil Event); [cbn; lia|].
  clear Hnew. induction Hfree as [|ev new Hev Hfree IH]; [done|].
  cbn. by rewrite Hev.
Qed.

Lemma costs_free_bind {A B} k (m : M A) (f : A -> M B) :
  preserves (emits (fun ev => P ev = false)) m ->
  (forall x, costs P k (f x)) -> costs P k (bind m f).
Proof.
  intros Hm Hf. apply (costs_bind 0 k); [by apply costs_free|done].
Qed.

Lemma costs_bind_free {A B} k (m : M A) (f : A -> M B) :
  costs P k m ->
  (forall x, preserves (emits (fun ev => P ev = false)) (f x)) ->
  costs P k (bind m f).
Proof.
  intros Hm Hf. eapply costs_weaken; [|apply (costs_bind k 0)];
    [lia|done|]. intros x. by apply costs_free.
Qed.

End Costs.

Ltac free_auto :=
  unfold failDeposit, failWithdrawal, fetch_with_relogin; unfold_calls;
  repeat first
    [ apply emits_fail
    | apply emits_update_trades
    | apply emits_update_users
    | apply emits_call; reflexivity
    | preserves_step ].

Section Effort.

(** [P] is one kind of marketplace call; a search makes at most [a] and a
    purchase at most [b] calls of that kind. *)
Variables (P : Event -> bool) (a b : nat).
Hypothesis P_search :
  forall item, ((if P (EvOpskinsSearch item) then 1 else 0) <= a)%nat.
Hypothesis P_buy :
  forall saleid total,
    ((if P (EvOpskinsBuyItems saleid total) then 1 else 0) <= b)%nat.
Hypothesis P_other :
  forall ev, is_search ev = false -> is_buy ev = false -> P ev = false.

Lemma costs_searchOpskins env item :
  costs P a (r <- _searchOpskins env item ;; ret (Some r)).
Proof.
  unfold _searchOpskins, call_async.
  eapply costs_weaken; [|apply (costs_bind P a 0)].
  - lia.
  - eapply costs_weaken; [|apply (costs_bind P a 0)]; [lia| |].
    + eapply costs_weaken; [apply P_search|apply costs_call].
    + intros [e|x]; [apply costs_throw|apply costs_ret].
  - intros x. apply costs_ret.
Qed.

Lemma free_waitAsync seconds :
  preserves (emits (fun ev => P ev = false)) (waitAsync seconds).
Proof. unfold waitAsync. apply emits_call. by apply P_other. Qed.

Lemma costs_search_attempts env item :
  costs P (3 * a) (search_attempts env item).
Proof.
  unfold search_attempts.
  eapply costs_weaken; [|apply (costs_try_catch P a (2 * a))];
    [lia|apply costs_searchOpskins|]. intros ?.
  apply costs_free_bind; [apply free_waitAsync|]. intros ?.
  eapply costs_weaken; [|apply (costs_try_catch P a a)];
    [lia|apply costs_searchOpskins|]. intros ?.
  apply costs_free_bind; [apply free_waitAsync|]. intros ?.
  eapply costs_weaken; [|apply (costs_try_catch P a 0)];
    [lia|apply costs_searchOpskins|]. intros ?. apply costs_ret.
Qed.

Lemma costs_buy_one env r purchases : costs P b (buy_one env r purchases).
Proof.
  unfold buy_one, _buyOpskinsItem, call_async.
  apply costs_bind_free.
  - apply costs_bind_free.
    + apply costs_bind_free.
      * eapply costs_weaken; [apply P_buy|apply costs_call].
      * intros [e|x]; preserves_step.
    + intros [items balance]. preserves_step.
  - intros x. preserves_step.
Qed.

Lemma costs_buy_attempts env item results balance purchases :
  costs P (3 * b) (buy_attempts env item results balance purchases).
Proof.
  assert (Hnth : forall n,
            costs P b
              (match results !! n with
               | Some r =>
                 if buyable item balance r then buy_one env r purchases
                 else ret (balance, purchases)
               | None => ret (balance, purchases)
               end)).
  { intros n. destruct (results !! n) as [r|]; [|apply costs_ret].
    destruct (buyable item balance r); [apply costs_buy_one|apply costs_ret]. }
  unfold buy_attempts. destruct results as [|r0 results]; [apply costs_ret|].
  destruct (buyable item balance r0); [|apply costs_ret].
  eapply costs_weaken; [|apply (costs_try_catch P b (2 * b))];
    [lia|apply costs_buy_one|]. intros ?.
  eapply costs_weaken; [|apply (costs_try_catch P b b)];
    [lia|apply (Hnth 1%nat)|]. intros ?.
  eapply costs_weaken; [|apply (costs_try_catch P b 0)];
    [lia|apply (Hnth 2%nat)|]. intros ?. apply costs_ret.
Qed.

Lemma costs_buy_loop env sp names n :
  forall i searches balance purchases,
    costs P (n * (3 * a + 3 * b))
          (buy_loop env sp names n i searches balance purchases).
Proof.
  induction n as [|n IH]; intros i searches balance purchases;
    [apply costs_ret|].
  cbn [buy_loop]. destruct (searches <? RPM * 4); [|apply costs_ret].
  destruct (sp !! js_key (names !! i)) as [safe|]; [|apply costs_ret].
  eapply costs_weaken;
    [|apply (costs_bind P (3 * a) (3 * b + n * (3 * a + 3 * b)))];
    [lia|apply costs_search_attempts|].
  intros [results|].
  - destruct results as [|r0 results]; [apply costs_throw|].
    destruct (too_expensive r0 safe); [apply costs_ret|].
    apply costs_bind; [apply costs_buy_attempts|].
    intros [balance' purchases'].
    apply costs_free_bind; [|intros ?; apply IH].
    destruct (searches + 1 =? RPM); [apply free_waitAsync|preserves_step].
  - eapply costs_weaken; [|apply IH]. lia.
Qed.

Lemma costs_buyPlaceholderItems config env withdrawalItems names merchant :
  costs P (length withdrawalItems * (3 * a + 3 * b))
        (_buyPlaceholderItems config env withdrawalItems names merchant).
Proof.
  assert (Hfree : forall X ev (answer : list Event -> X),
             is_search ev = false -> is_buy ev = false ->
             preserves (emits (fun ev => P ev = false)) (call ev answer)).
  { intros X ev answer Hs Hb. apply emits_call. by apply P_other. }
  unfold _buyPlaceholderItems.
  destruct (truthy (opskins_key config)); [|apply costs_ret].
  apply costs_in_callback.
  apply costs_free_bind; [by apply Hfree|].
  intros [err|balance]; [apply costs_ret|].
  apply costs_free_bind.
  { unfold _getDbCentPrices. repeat preserves_step. }
  intros [spPriceData|]; [|apply costs_ret].
  apply costs_bind_free; [apply costs_buy_loop|].
  intros looped. unfold fetch_with_relogin. unfold_calls.
  repeat first [ apply Hfree; reflexivity | preserves_step ].
Qed.

Lemma costs_listItemsToOpskins config env items :
  preserves (emits (fun ev => P ev = false)) (_listItemsToOpskins config env items).
Proof.
  unfold _listItemsToOpskins, _getDbCentPrices. unfold_calls.
  repeat first [ apply emits_call; by apply P_other | preserves_step ].
Qed.

Lemma costs_startWithdrawal config env withdrawalId :
  costs P (MAX_WITHDRAWAL_SIZE * (3 * a + 3 * b))
        (startWithdrawal config env withdrawalId).
Proof.
  assert (Hfree : forall X ev (answer : list Event -> X),
             is_search ev = false -> is_buy ev = false ->
             preserves (emits (fun ev => P ev = false)) (call ev answer)).
  { intros X ev answer Hs Hb. apply emits_call. by apply P_other. }
  assert (Hleaf : forall A (m : M A),
             preserves (emits (fun ev => P ev = false)) m ->
             costs P (MAX_WITHDRAWAL_SIZE * (3 * a + 3 * b)) m)
    by (intros A m; apply costs_free).
  unfold startWithdrawal. destruct (steamID env) as [merchant|]; [|apply costs_ret].
  apply costs_free_bind.
  { unfold _lockWithdrawal. unfold_calls.
    repeat first [ apply emits_update_trades | apply Hfree; reflexivity
                 | preserves_step ]. }
  intros locked. destruct (negb locked); [apply costs_ret|].
  apply costs_free_bind; [repeat preserves_step|].
  intros [withdrawal|]; [|apply costs_ret].
  apply costs_free_bind; [repeat preserves_step|]. intros user.
  destruct (truthy (trade_link_url user)) as [url|];
    [|apply Hleaf; unfold failWithdrawal; apply emits_fail].
  apply costs_free_bind.
  { unfold_calls.
    repeat first [ apply Hfree; reflexivity | preserves_step ]. }
  intros [e|them]; [apply Hleaf; unfold failWithdrawal; apply emits_fail|].
  destruct (probation them);
    [apply Hleaf; unfold failWithdrawal; apply emits_fail|].
  destruct (negb _); [apply Hleaf; unfold failWithdrawal; apply emits_fail|].
  apply costs_free_bind; [repeat preserves_step|]. intros withdrawalItems.
  case_bool_decide; [apply Hleaf; unfold failWithdrawal; apply emits_fail|].
  case_bool_decide as Hmax;
    [apply Hleaf; unfold failWithdrawal; apply emits_fail|].
  apply costs_bind_free.
  - eapply costs_weaken; [|apply costs_buyPlaceholderItems].
    apply Nat.mul_le_mono_r. lia.
  - intros [myItems names]. unfold failWithdrawal, _listAgainItems. unfold_calls.
    repeat first
      [ apply emits_fail
      | apply emits_update_trades
      | apply costs_listItemsToOpskins
      | apply Hfree; reflexivity
      | preserves_step ].
Qed.

End Effort.

(** X21.  One withdrawal asks the marketplace a bounded number of times,
    whatever the store holds and whatever the outside answers: at most
    nine searches (three attempts for each of at most three items) and at
    most nine purchase attempts (the three cheapest listings of each). *)
Theorem withdrawal_effort_is_bounded config env withdrawalId st :
  counted is_search 9 st (snd (startWithdrawal config env withdrawalId st))
  /\ counted is_buy 9 st (snd (startWithdrawal config env withdrawalId st)).
Proof.
  split.
  - apply (costs_startWithdrawal is_search 1 0).
    + intros item. cbn. lia.
    + intros saleid total. cbn. lia.
    + by intros ev Hs _.
  - apply (costs_startWithdrawal is_buy 0 1).
    + intros item. cbn. lia.
    + intros saleid total. cbn. lia.
    + by intros ev _ Hb.
Qed.

(** * The Steam session *)

(** X22.  The [sessionExpired] handler makes at most one log-on for each
    session: over any sequence of [webSession] and [sessionExpired]
    events, the number of [webLogOn] calls is at most the number of
    [webSession] events, plus one when the session was not yet marked as
    expired at the start.  However many [sessionExpired] events arrive
    between two [webSession] events, they cause one log-on at most. *)
Theorem one_logon_per_session flag events :
  (logons flag events <= (if flag then 0 else 1) + sessions events)%nat.
Proof.
  unfold sessions.
  revert flag. induction events as [|[] events IH]; intros flag; cbn.
  - lia.
  - specialize (IH false). cbn in IH. destruct flag; lia.
  - specialize (IH true). cbn in IH. destruct flag; cbn; lia.
Qed.

(** * The offers on record *)

#[local] Instance offers_from_steam_preorder : PreOrder offers_from_steam.
Proof.
  split.
  - intros st tb. apply Forall_Forall2_diag, Forall_forall. intros t _. by left.
  - intros a b c Hab Hbc tb. specialize (Hab tb). specialize (Hbc tb).
    revert Hbc. generalize (table tb (db c)).
    induction Hab as [|t t' l l' Ht Hab IH]; intros l'' Hbc; inv Hbc;
      constructor; [|by apply IH].
    match goal with H : offer_recorded t' _ |- _ => rename H into Ht' end.
    destruct Ht' as [[Ho Hi]|Hsent]; [|by right].
    destruct Ht as [[Ho' Hi']|(env & offer & tr & sent & Hs & Ho' & Hi')].
    + left. split; congruence.
    + right. exists env, offer, tr, sent. split_and!; congruence.
Qed.











(** * One offer for each event *)

Lemma send_free_call {X} ev (answer : list Event -> X) :
  is_send ev = false ->
  preserves (emits (fun ev => is_send ev = false)) (call ev answer).
Proof. intros Hev. by apply emits_call. Qed.

Ltac send_free :=
  solve
    [ unfold failDeposit, failWithdrawal, acknowledgeDeposit, _lockWithdrawal,
        _fetchInventoryItems, _fetchInventoryItems_body;
      unfold_calls;
      repeat first
        [ apply emits_fail
        | apply emits_update_trades
        | apply emits_update_users
        | apply (bridge_buyPlaceholderItems _ (@send_free_call))
        | apply (bridge_listAgainItems _ (@send_free_call))
        | apply (bridge_list_after_acquisition _ (@send_free_call))
        | apply send_free_call; reflexivity
        | preserves_step ] ].

Lemma costs_sendOfferAsync env offer : costs is_send 1 (sendOfferAsync env offer).
Proof.
  unfold sendOfferAsync, call_async.
  apply costs_bind_free; [apply (costs_call is_send (EvSendOffer offer))|].
  intros [e|sent]; preserves_step.
Qed.

Ltac one_send :=
  repeat first
    [ apply costs_free; send_free
    | apply costs_free_bind; [send_free|intros ?]
    | lazymatch goal with
      | |- costs _ _ (try_catch (bind (sendOfferAsync _ _) _) _) =>
          eapply costs_weaken;
          [|apply (costs_try_catch is_send 1 0);
            [apply costs_bind_free; [apply costs_sendOfferAsync|intros ?; send_free]
            |intros ?; apply costs_free; send_free]];
          [lia]
      | |- costs _ _ (match ?x with _ => _ end) => destruct x
      end ].

(** X24.  Handling one event sends one trade offer at most, whatever the store
    holds and whatever the outside answers: a deposit or a withdrawal
    that is started is offered once or not at all, and an offer event
    sends nothing. *)
Theorem one_offer_for_each_event config env op st :
  counted is_send 1 st (snd (handle config env op st)).
Proof.
  revert st. change (costs is_send 1 (handle config env op)).
  destruct op as [id|id|offer oldState]; cbn [handle].
  - unfold startDeposit. one_send.
  - unfold startWithdrawal. one_send.
  - apply costs_free.
    unfold sentOfferChanged, completeDeposit, completeWithdrawal.
    destruct (itemsToReceive offer); send_free.
Qed.

(** * Completion *)

#[local] Instance same_completion_preorder : PreOrder same_completion.
Proof.
  split; [by intros st tb|].
  intros a b c Hab Hbc tb. by rewrite Hbc, Hab.
Qed.

Lemma completion_call {X} ev (answer : list Event -> X) :
  is_send ev = false -> preserves same_completion (call ev answer).
Proof. by intros _ st tb. Qed.

Lemma completion_any_call {X} ev (answer : list Event -> X) :
  preserves same_completion (call ev answer).
Proof. by intros st tb. Qed.

Lemma completion_update_users cond set :
  preserves same_completion (update_users cond set).
Proof. intros st tb. by destruct tb. Qed.

Lemma completion_update_trades tb cond set :
  (forall t, completed_at (set t) = completed_at t) ->
  preserves same_completion (update_trades tb cond set).
Proof.
  intros Hset st tb'.
  assert (Hupd : map completed_at (sql_update cond set (table tb (db st)))
                 = map completed_at (table tb (db st))).
  { unfold sql_update. rewrite map_map. apply map_ext. intros t.
    by destruct (cond t). }
  destruct tb, tb'; cbn in *; first [exact Hupd|reflexivity].
Qed.

Lemma completion_fail env tb id e : preserves same_completion (fail env tb id e).
Proof.
  unfold fail.
  repeat first [ by apply completion_update_trades | preserves_step ].
Qed.

Ltac completion_auto :=
  unfold failDeposit, failWithdrawal, acknowledgeDeposit, _lockWithdrawal,
    _fetchInventoryItems, _fetchInventoryItems_body;
  unfold_calls;
  repeat first
    [ apply completion_fail
    | apply completion_update_users
    | by apply completion_update_trades
    | apply (bridge_buyPlaceholderItems _ (@completion_call))
    | apply (bridge_listAgainItems _ (@completion_call))
    | apply (bridge_list_after_acquisition _ (@completion_call))
    | apply completion_any_call
    | preserves_step ].

(** X25.  A trade is marked as completed only when its offer is accepted:
    handling any other event (a deposit or a withdrawal to start, an
    offer event that is not an acceptance from a completable state)
    leaves [completed_at] of every deposit and of every withdrawal as it
    was, whatever the outside answers. *)
Theorem only_acceptance_completes config env op st :
  ~ accepting op ->
  same_completion st (snd (handle config env op st)).
Proof.
  intros Hnot. revert st.
  change (preserves same_completion (handle config env op)).
  destruct op as [id|id|offer oldState]; cbn [handle].
  - unfold startDeposit. completion_auto.
  - unfold startWithdrawal. completion_auto.
  - unfold sentOfferChanged, completeDeposit, completeWithdrawal.
    destruct (itemsToReceive offer);
      (case_bool_decide as Hold; [completion_auto|];
       try apply dec_stable in Hold;
       destruct (offer_state offer) eqn:Hstate;
       try (exfalso; apply Hnot; by split); completion_auto).
Qed.

Lemma only_acceptance_completes_witness :
  same_completion deposit_world
    (snd (handle cfg calm (Offer_changed (offer_1 Declined) Active) deposit_world)).
Proof.
  apply (only_acceptance_completes cfg calm
           (Offer_changed (offer_1 Declined) Active) deposit_world).
  intros [Habs _]. discriminate Habs.
Defined.
